(** * time-track: the commit-log ingestion pipeline

    A shallow embedding of the parsing-and-normalisation core of the
    time-track repository, followed by the properties of the specification
    stated against it.  The sources are
    - the coordinator, src/unnamed/part_000: the version of the commit
      parser that keeps per-tag metadata and a watermark (the file
      src/scripts/parse-commits.js is an earlier version without them);
      line numbers in the comments below are those of part_000;
    - the date helpers, src/scripts/lib/date.js;
    - the tag index, src/unnamed/part_001 (required as ./lib/tags);
    - the classifier fallback, the second document of src/unnamed/part_002
      (required as ./normalize-tags);
    - the period test of the report builder, the first document of
      src/unnamed/part_002.

    Conventions of the embedding.
    - JavaScript strings are Rocq [string]s; the embedding covers the ASCII
      fragment: white space is the ASCII white space, letters and digits are
      the ASCII ones, and [toLowerCase] acts on [A-Z].
    - JavaScript objects and [Map]s that the code uses as dictionaries are
      [gmap]s (own properties only; inherited members of [Object.prototype]
      are outside the model).
    - JavaScript numbers are exact rationals; the one place where the
      double-precision range matters ([Number.isFinite]) is written out.
    - Files are whole documents that are read, changed in memory and written
      back; the file system is a record of such documents. *)

From Stdlib Require Import ZArith QArith Ascii String List Lia.
From Stdlib Require Import DecimalString DecimalNat DecimalFacts DecimalZ.
From stdpp Require Import gmap strings list fin_maps.

Local Open Scope Z_scope.
#[local] Set Warnings "-register-all".

(** ** Characters and strings *)

Module Str.

Definition isSpace (c : ascii) : bool := Ascii.is_space c.

Definition isDigit (c : ascii) : bool :=
  let n := nat_of_ascii c in (48 <=? n)%nat && (n <=? 57)%nat.

Definition isUpper (c : ascii) : bool :=
  let n := nat_of_ascii c in (65 <=? n)%nat && (n <=? 90)%nat.

Definition isLower (c : ascii) : bool :=
  let n := nat_of_ascii c in (97 <=? n)%nat && (n <=? 122)%nat.

Definition lowerChar (c : ascii) : ascii :=
  if isUpper c then ascii_of_nat (nat_of_ascii c + 32) else c.

(** [String.prototype.toLowerCase]. *)
Fixpoint toLowerCase (s : string) : string :=
  match s with
  | EmptyString => EmptyString
  | String c s' => String (lowerChar c) (toLowerCase s')
  end.

Fixpoint dropWhile (p : ascii -> bool) (s : string) : string :=
  match s with
  | EmptyString => EmptyString
  | String c s' => if p c then dropWhile p s' else s
  end.

Fixpoint takeWhile (p : ascii -> bool) (s : string) : string :=
  match s with
  | EmptyString => EmptyString
  | String c s' => if p c then String c (takeWhile p s') else EmptyString
  end.

Definition trimStart (s : string) : string := dropWhile isSpace s.

Definition trimEnd (s : string) : string :=
  String.rev (dropWhile isSpace (String.rev s)).

(** [String.prototype.trim]. *)
Definition trim (s : string) : string := trimEnd (trimStart s).

Definition isEmpty (s : string) : bool :=
  match s with EmptyString => true | _ => false end.

(** [s.startsWith(p)]. *)
Definition startsWith (p s : string) : bool := String.prefix p s.

(** [s.slice(n)] for a non-negative [n]. *)
Fixpoint slice (n : nat) (s : string) : string :=
  match n, s with
  | O, _ => s
  | S n', String _ s' => slice n' s'
  | S _, EmptyString => EmptyString
  end.

(** [s.split(sep)] for a one-character separator: the pieces between the
    separators, empty pieces kept; the result is never empty. *)
Fixpoint splitGo (sep : ascii) (cur : string) (s : string) : list string :=
  match s with
  | EmptyString => [String.rev cur]
  | String c s' =>
      if Ascii.eqb c sep then String.rev cur :: splitGo sep EmptyString s'
      else splitGo sep (String c cur) s'
  end.

Definition split (sep : ascii) (s : string) : list string :=
  splitGo sep EmptyString s.

(** [parts.join(sep)]. *)
Fixpoint join (sep : string) (parts : list string) : string :=
  match parts with
  | [] => EmptyString
  | [p] => p
  | p :: rest => p +:+ sep +:+ join sep rest
  end.

(** [s.split(/\s+/).filter(Boolean)]: the maximal runs of characters that
    are not white space. *)
Fixpoint tokensGo (cur : option string) (s : string) : list string :=
  match s with
  | EmptyString =>
      match cur with Some w => [String.rev w] | None => [] end
  | String c s' =>
      if isSpace c then
        match cur with
        | Some w => String.rev w :: tokensGo None s'
        | None => tokensGo None s'
        end
      else
        tokensGo (Some (String c (match cur with Some w => w | None => EmptyString end))) s'
  end.

Definition tokens (s : string) : list string := tokensGo None s.

End Str.

(** ** The line grammar parser ([parseTimeLine], part_000) *)

Record ParsedLine := mkParsedLine {
  dateToken : string;
  durationToken : string;
  rawTags : list string;
  tagMeta : gmap string (list string);
  note : string
}.

(** What [parseTimeLine] returns: [null], the object [{ error }], or the
    parsed line. *)
Inductive ParseResult :=
| NotTimeLine
| LineError (msg : string)
| Parsed (p : ParsedLine).

(** The local variables of the token loop. *)
Record ScanState := mkScan {
  sRawTags : list string;
  sTagMeta : gmap string (list string);
  sNoteParts : list string;
  sCurrentTag : option string
}.

Definition scanInit : ScanState := mkScan [] ∅ [] None.

(** [if (!tagMeta[k]) tagMeta[k] = []; tagMeta[k].push(v)]. *)
Definition pushMeta (k v : string) (m : gmap string (list string))
  : gmap string (list string) :=
  <[k := default [] (m !! k) ++ [v]]> m.

(** One iteration of [for (const token of rest)]. *)
Definition scanToken (st : ScanState) (token : string) : ScanState :=
  if Str.startsWith "#" token then
    let tagToken := Str.slice 1 token in
    match Str.split ":" tagToken with
    | [] => st
    | tagNameRaw :: metaParts =>
        let tagName := Str.trim tagNameRaw in
        if Str.isEmpty tagName then
          mkScan (sRawTags st) (sTagMeta st) (sNoteParts st) None
        else
          let meta :=
            match metaParts with
            | [] => sTagMeta st
            | _ :: _ =>
                let metaValue := Str.trim (Str.join ":" metaParts) in
                if Str.isEmpty metaValue then sTagMeta st
                else pushMeta tagName metaValue (sTagMeta st)
            end in
          mkScan (sRawTags st ++ [tagName]) meta (sNoteParts st) (Some tagName)
    end
  else
    match sCurrentTag st with
    | Some cur =>
        mkScan (sRawTags st) (pushMeta cur token (sTagMeta st))
               (sNoteParts st) (sCurrentTag st)
    | None =>
        mkScan (sRawTags st) (sTagMeta st) (sNoteParts st ++ [token])
               (sCurrentTag st)
    end.

Definition scanTokens (rest : list string) (st : ScanState) : ScanState :=
  fold_left scanToken rest st.


(** [/^time:\s*/i] against an already trimmed line: the remainder after the
    marker and the white space that follows it, when the marker is there. *)
Definition stripTimeMarker (trimmed : string) : option string :=
  if Str.startsWith "time:" (Str.toLowerCase (String.substring 0 5 trimmed))
  then Some (Str.dropWhile Str.isSpace (Str.slice 5 trimmed))
  else None.

Definition parseTimeLine (line : string) : ParseResult :=
  let trimmed := Str.trim line in
  match stripTimeMarker trimmed with
  | None => NotTimeLine
  | Some body =>
      match Str.tokens body with
      | dateTokenRaw :: durationTok :: rest =>
          let st := scanTokens rest scanInit in
          Parsed (mkParsedLine (Str.toLowerCase dateTokenRaw) durationTok
                               (sRawTags st) (sTagMeta st)
                               (Str.join " " (sNoteParts st)))
      | _ => LineError "missing date or duration"
      end
  end.


(** ** Numbers

    A JavaScript number is modelled by the rational it denotes, kept in
    lowest terms so that Leibniz equality is numeric equality.  Rounding to
    double precision is not modelled; overflow to [Infinity] is: a decimal
    literal denotes a finite double exactly when it lies below
    [2^1024 - 2^970], the midpoint between the largest double and [2^1024]. *)

Module Num.

(** [Number(digits)] for a string of decimal digits. *)
Definition digitsValue (s : string) : Z :=
  match NilEmpty.uint_of_string s with
  | Some u => Z.of_uint u
  | None => 0
  end.

(** [String(n)] for an integer [n]. *)
Definition toString (n : Z) : string :=
  NilZero.string_of_int (Z.to_int n).

(** [Number(text)] for a text of the shape [\d+] or [\d+\.\d+], given as its
    integer digits and its optional fraction digits. *)
Definition decimalValue (intPart : string) (frac : option string) : Q :=
  match frac with
  | None => Qred (inject_Z (digitsValue intPart))
  | Some f =>
      Qred (inject_Z (digitsValue intPart)
            + Qmake (digitsValue f) (Pos.pow 10 (Pos.of_nat (String.length f))))
  end.

Definition overflowThreshold : Q := inject_Z (2 ^ 1024 - 2 ^ 970).

(** [Number.isFinite(value)] for the value of a decimal literal. *)
Definition isFinite (v : Q) : bool :=
  negb (Qle_bool overflowThreshold v).

(** [value / 60]. *)
Definition div60 (v : Q) : Q := Qred (v / inject_Z 60).

End Num.

(** ** The duration parser ([parseDuration], part_000) *)

Definition allDigits (s : string) : bool :=
  forallb Str.isDigit (list_ascii_of_string s).

Definition hourUnits : list string := ["h"; "hr"; "hour"; "hours"].
Definition minuteUnits : list string := ["m"; "min"; "mins"; "minute"; "minutes"].

Definition inList (s : string) (l : list string) : bool :=
  existsb (String.eqb s) l.

(** The capture groups of
    [/^(\d+(?:\.\d+)?)(h|hr|hour|hours|m|min|mins|minute|minutes)$/i]:
    the integer digits, the optional fraction digits and the unit as written.
    The digits are taken greedily; no unit begins with a digit or a dot, so
    the expression has at most one way to match. *)
Definition matchDuration (token : string) : option (string * option string * string) :=
  let intPart := Str.takeWhile Str.isDigit token in
  let afterInt := Str.dropWhile Str.isDigit token in
  if Str.isEmpty intPart then None
  else
    let '(frac, unitText) :=
      match afterInt with
      | String "."%char afterDot =>
          let f := Str.takeWhile Str.isDigit afterDot in
          if Str.isEmpty f then (None, afterInt)
          else (Some f, Str.dropWhile Str.isDigit afterDot)
      | _ => (None, afterInt)
      end in
    if inList (Str.toLowerCase unitText) (hourUnits ++ minuteUnits)
    then Some (intPart, frac, unitText)
    else None.

Definition parseDuration (token : string) : option Q :=
  match matchDuration token with
  | None => None
  | Some (intPart, frac, unitText) =>
      let value := Num.decimalValue intPart frac in
      let unit := Str.toLowerCase unitText in
      if negb (Num.isFinite value) then None
      else
        let isHours := inList unit hourUnits in
        if isHours then Some value else Some (Num.div60 value)
  end.



Definition startsNonDigit (s : string) : Prop :=
  match s with EmptyString => True | String c _ => Str.isDigit c = false end.

(** ** Calendar dates (scripts/lib/date.js) *)

Record DateParts := mkDate { year : Z; month : Z; day : Z }.

(** The day arithmetic of ECMAScript's [Date] (ECMA-262, "Time Values and
    Time Range"), on day numbers relative to 1970-01-01. *)
Module JsDate.

Definition msPerDay : Z := 86400000.
Definition maxTime : Z := 8640000000000000.

Definition dayFromYear (y : Z) : Z :=
  365 * (y - 1970) + (y - 1969) / 4 - (y - 1901) / 100 + (y - 1601) / 400.

Definition daysInYear (y : Z) : Z :=
  if negb (y mod 4 =? 0) then 365
  else if negb (y mod 100 =? 0) then 366
  else if negb (y mod 400 =? 0) then 365
  else 366.

Definition inLeapYear (y : Z) : Z :=
  if daysInYear y =? 366 then 1 else 0.

(** [YearFromTime]: the largest [y] with [dayFromYear y <= d], found by
    walking up from a year that is not after it. *)
Fixpoint yearSearch (fuel : nat) (y d : Z) : Z :=
  match fuel with
  | O => y
  | S fuel' =>
      if dayFromYear (y + 1) <=? d then yearSearch fuel' (y + 1) d else y
  end.

Definition yearFromDay (d : Z) : Z :=
  let lo := 1970 + Z.min (d / 365) (d / 366) in
  let hi := 1970 + Z.max (d / 365) (d / 366) in
  yearSearch (Z.to_nat (hi - lo)) lo d.

Definition dayWithinYear (d : Z) : Z := d - dayFromYear (yearFromDay d).

(** [MonthFromTime], months numbered from 0. *)
Definition monthFromDay (d : Z) : Z :=
  let w := dayWithinYear d in
  let l := inLeapYear (yearFromDay d) in
  if w <? 31 then 0
  else if w <? 59 + l then 1
  else if w <? 90 + l then 2
  else if w <? 120 + l then 3
  else if w <? 151 + l then 4
  else if w <? 181 + l then 5
  else if w <? 212 + l then 6
  else if w <? 243 + l then 7
  else if w <? 273 + l then 8
  else if w <? 304 + l then 9
  else if w <? 334 + l then 10
  else 11.

(** The number of days of the year before month [m] (numbered from 0). *)
Definition daysBeforeMonth (l m : Z) : Z :=
  if m =? 0 then 0
  else if m =? 1 then 31
  else if m =? 2 then 59 + l
  else if m =? 3 then 90 + l
  else if m =? 4 then 120 + l
  else if m =? 5 then 151 + l
  else if m =? 6 then 181 + l
  else if m =? 7 then 212 + l
  else if m =? 8 then 243 + l
  else if m =? 9 then 273 + l
  else if m =? 10 then 304 + l
  else 334 + l.

(** [DateFromTime]. *)
Definition dateFromDay (d : Z) : Z :=
  dayWithinYear d
  - daysBeforeMonth (inLeapYear (yearFromDay d)) (monthFromDay d) + 1.

(** [MakeDay(year, month, date)], [month] numbered from 0. *)
Definition makeDay (y m dt : Z) : Z :=
  let ym := y + m / 12 in
  let mn := m mod 12 in
  dayFromYear ym + daysBeforeMonth (inLeapYear ym) mn + dt - 1.

(** [TimeClip]: [None] stands for [NaN]. *)
Definition timeClip (t : Z) : option Z :=
  if Z.abs t <=? maxTime then Some t else None.

(** [Date.UTC(year, month, date)]: years 0 to 99 mean 1900 to 1999. *)
Definition UTC (y m dt : Z) : option Z :=
  let yr := if (0 <=? y) && (y <=? 99) then 1900 + y else y in
  timeClip (makeDay yr m dt * msPerDay).

(** [Day(t)]. *)
Definition dayOf (t : Z) : Z := t / msPerDay.

End JsDate.

(** [String(n).padStart(width, '0')]. *)
Definition padStart (width : nat) (s : string) : string :=
  String.concat "" (repeat "0"%string (width - String.length s)) +:+ s.

(** [datePartsToString]: the parts are numbers, [None] stands for the parts of
    an invalid [Date], all [NaN]. *)
Definition datePartsToString (parts : option DateParts) : string :=
  match parts with
  | Some p =>
      padStart 4 (Num.toString (year p)) +:+ "-"
      +:+ padStart 2 (Num.toString (month p)) +:+ "-"
      +:+ padStart 2 (Num.toString (day p))
  | None => padStart 4 "NaN" +:+ "-" +:+ padStart 2 "NaN" +:+ "-" +:+ padStart 2 "NaN"
  end.

(** [addDays(parts, deltaDays)]. *)
Definition addDays (parts : DateParts) (deltaDays : Z) : option DateParts :=
  match JsDate.UTC (year parts) (month parts - 1) (day parts) with
  | None => None
  | Some base =>
      match JsDate.timeClip (base + deltaDays * 24 * 60 * 60 * 1000) with
      | None => None
      | Some next =>
          let d := JsDate.dayOf next in
          Some (mkDate (JsDate.yearFromDay d)
                       (JsDate.monthFromDay d + 1)
                       (JsDate.dateFromDay d))
      end
  end.

(** The shape test [/^\d{4}-\d{2}-\d{2}$/]. *)
Definition matchesDateShape (s : string) : bool :=
  match Str.split "-" s with
  | [y; m; d] =>
      allDigits y && allDigits m && allDigits d
      && (String.length y =? 4)%nat && (String.length m =? 2)%nat
      && (String.length d =? 2)%nat
  | _ => false
  end.

(** [parseDateString]. *)
Definition parseDateString (dateStr : string) : option DateParts :=
  if matchesDateShape dateStr then
    match map Num.digitsValue (Str.split "-" dateStr) with
    | [y; m; d] => Some (mkDate y m d)
    | _ => None
    end
  else None.

(** [resolveDateToken(token, commitDate, timeZone)].  [tzParts] is
    [getTzParts(commitDate, timeZone)], the projection of the commit's instant
    into the time zone, which [Intl.DateTimeFormat] computes; [token] is [None]
    for [undefined]. *)
Definition resolveDateToken (token : option string) (tzParts : DateParts)
  : option string :=
  match token with
  | None => None
  | Some tok =>
      if Str.isEmpty tok then None
      else if String.eqb tok "today" then
        Some (datePartsToString (Some tzParts))
      else if String.eqb tok "yesterday" then
        Some (datePartsToString (addDays tzParts (-1)))
      else
        match parseDateString tok with
        | Some parsed => Some (datePartsToString (Some parsed))
        | None => None
        end
  end.

(** The calendar as the specification words it: leap years, the length of
    a month, well-formed dates, and the date one calendar day earlier. *)
Definition isLeapYear (y : Z) : bool :=
  ((y mod 4 =? 0) && negb (y mod 100 =? 0)) || (y mod 400 =? 0).

Definition daysInMonth (y m : Z) : Z :=
  if m =? 2 then (if isLeapYear y then 29 else 28)
  else if (m =? 4) || (m =? 6) || (m =? 9) || (m =? 11) then 30
  else 31.

Definition validDate (p : DateParts) : Prop :=
  1 <= month p <= 12 /\ 1 <= day p <= daysInMonth (year p) (month p).

Definition previousDay (p : DateParts) : DateParts :=
  if 1 <? day p then mkDate (year p) (month p) (day p - 1)
  else if 1 <? month p then
    mkDate (year p) (month p - 1) (daysInMonth (year p) (month p - 1))
  else mkDate (year p - 1) 12 31.

(** The exact YYYY-MM-DD shape: four digits, a hyphen, two digits, a hyphen,
    two digits. *)
Definition isoShape (tok : string) : Prop :=
  exists y m d,
    tok = y +:+ "-" +:+ m +:+ "-" +:+ d
    /\ allDigits y = true /\ allDigits m = true /\ allDigits d = true
    /\ String.length y = 4%nat /\ String.length m = 2%nat /\ String.length d = 2%nat.

(** ** The tag index and the alias normaliser (part_001) *)

(** [normalizeToken]: trim, drop one leading [#], lower-case, drop every
    character that is neither a letter nor a digit. *)
Definition isLetterOrDigit (c : ascii) : bool :=
  Str.isLower c || Str.isUpper c || Str.isDigit c.

Fixpoint keepChars (p : ascii -> bool) (s : string) : string :=
  match s with
  | EmptyString => EmptyString
  | String c s' => if p c then String c (keepChars p s') else keepChars p s'
  end.

Definition stripLeadingHash (s : string) : string :=
  match s with
  | String "#"%char s' => s'
  | _ => s
  end.

Definition normalizeToken (token : string) : string :=
  keepChars isLetterOrDigit (Str.toLowerCase (stripLeadingHash (Str.trim token))).

(** The tag master file after [YAML.parse]: the optional time zone and, in
    the order of [Object.keys(tags)], each canonical key with its aliases
    (already passed through [String]). *)
Record TagConfig := mkTagConfig {
  cfgTimezone : option string;
  cfgTags : list (string * list string)
}.

Record TagIndex := mkTagIndex {
  tiTimezone : string;
  tiCanonical : list string;
  tiAliasMap : gmap string string
}.

(** The body of [for (const alias of aliases)]. *)
Definition addAlias (key : string) (m : gmap string string) (alias : string)
  : gmap string string :=
  let normalized := normalizeToken alias in
  if negb (Str.isEmpty normalized) && negb (bool_decide (is_Some (m !! normalized)))
  then <[normalized := key]> m
  else m.

(** The body of [for (const key of canonical)]. *)
Definition addKey (m : gmap string string) (entry : string * list string)
  : gmap string string :=
  let '(key, aliases) := entry in
  let normalizedKey := normalizeToken key in
  let m1 := if negb (Str.isEmpty normalizedKey) then <[normalizedKey := key]> m else m in
  fold_left (addAlias key) aliases m1.

Definition defaultTimezone : string := "Asia/Tokyo".

Definition loadTags (cfg : TagConfig) : TagIndex :=
  mkTagIndex
    (match cfgTimezone cfg with
     | Some tz => if Str.isEmpty tz then defaultTimezone else tz
     | None => defaultTimezone
     end)
    (map fst (cfgTags cfg))
    (fold_left addKey (cfgTags cfg) ∅).

(** The body of [for (const raw of rawTags)] in [normalizeTags]. *)
Definition normalizeStep (idx : TagIndex) (normalized : list string) (raw : string)
  : list string :=
  let normalizedKey := normalizeToken raw in
  if Str.isEmpty normalizedKey then normalized
  else
    match tiAliasMap idx !! normalizedKey with
    | Some found =>
        if negb (Str.isEmpty found) && negb (inList found normalized)
        then normalized ++ [found]
        else normalized
    | None => normalized
    end.

Definition normalizeTags (rawTags : list string) (idx : TagIndex) : list string :=
  fold_left (normalizeStep idx) rawTags [].

(** ** JSON values

    The classifier's answer and the cache file are untyped JSON; they are kept
    as values of this type and inspected the way the code inspects them. *)

Inductive JValue :=
| JUndefined
| JNull
| JBool (b : bool)
| JNum (q : Q)
| JStr (s : string)
| JArr (items : list JValue)
| JObj (fields : list (string * JValue)).

(** JavaScript truthiness. *)
Definition truthy (v : JValue) : bool :=
  match v with
  | JUndefined | JNull => false
  | JBool b => b
  | JNum q => negb (Qeq_bool q 0)
  | JStr s => negb (Str.isEmpty s)
  | JArr _ | JObj _ => true
  end.

Fixpoint assocGet (k : string) (fields : list (string * JValue)) : JValue :=
  match fields with
  | [] => JUndefined
  | (k', v) :: rest => if String.eqb k k' then v else assocGet k rest
  end.

(** [v.k] for a value that is not [null] or [undefined]. *)
Definition jget (k : string) (v : JValue) : JValue :=
  match v with
  | JObj fields => assocGet k fields
  | _ => JUndefined
  end.

(** [canonical.includes(v)]. *)
Definition includesValue (canonical : list string) (v : JValue) : bool :=
  match v with
  | JStr s => inList s canonical
  | _ => false
  end.

(** [tag !== primary]. *)
Definition strictNeq (a b : JValue) : bool :=
  match a, b with
  | JStr x, JStr y => negb (String.eqb x y)
  | _, _ => true
  end.

(** [sanitizeResult] (part_002); [None] is [null]. *)
Definition sanitizeResult (result : JValue) (canonical : list string)
  : option JValue :=
  match result with
  | JObj _ | JArr _ =>
      let primary := jget "primary" result in
      let secondary := jget "secondary" result in
      let confidence := jget "confidence" result in
      let new_alias_suggestions := jget "new_alias_suggestions" result in
      if negb (includesValue canonical primary) then None
      else
        let cleanSecondary :=
          match secondary with
          | JArr items =>
              List.filter (fun tag => includesValue canonical tag && strictNeq tag primary) items
          | _ => []
          end in
        let cleanConfidence :=
          match confidence with
          | JNum c => if Qle_bool 0 c && Qle_bool c 1 then JNum c else JNum 0
          | _ => JNum 0
          end in
        Some (JObj [("primary", primary);
                    ("secondary", JArr cleanSecondary);
                    ("confidence", cleanConfidence);
                    ("new_alias_suggestions", new_alias_suggestions)])
  | _ => None
  end.

(** ** The classifier fallback ([normalizeTagsLLM], part_002) *)

(** [JSON.stringify] of a string: quotes, with the quote, the backslash and
    the control characters escaped. *)
Module Json.

Definition dquote : ascii := "034"%char.
Definition backslash : ascii := "092"%char.

Definition hexDigit (n : nat) : ascii :=
  if (n <? 10)%nat then ascii_of_nat (48 + n) else ascii_of_nat (87 + n).

Definition escapeChar (c : ascii) : string :=
  let n := nat_of_ascii c in
  if Ascii.eqb c dquote then String backslash (String dquote EmptyString)
  else if Ascii.eqb c backslash then String backslash (String backslash EmptyString)
  else if (n =? 8)%nat then String backslash "b"
  else if (n =? 9)%nat then String backslash "t"
  else if (n =? 10)%nat then String backslash "n"
  else if (n =? 12)%nat then String backslash "f"
  else if (n =? 13)%nat then String backslash "r"
  else if (n <? 32)%nat then
    String backslash
      ("u00" +:+ String (hexDigit (n / 16)) (String (hexDigit (n mod 16)) EmptyString))
  else String c EmptyString.

Fixpoint escape (s : string) : string :=
  match s with
  | EmptyString => EmptyString
  | String c s' => escapeChar c +:+ escape s'
  end.

Definition quote (s : string) : string :=
  String dquote (escape s +:+ String dquote EmptyString).

(** [JSON.stringify({ rawTags, note })]. *)
Definition stringifyKey (rawTags : list string) (note : string) : string :=
  "{" +:+ quote "rawTags" +:+ ":[" +:+ Str.join "," (map quote rawTags)
  +:+ "]," +:+ quote "note" +:+ ":" +:+ quote note +:+ "}".

(** What [JSON.parse(JSON.stringify(v))] keeps of an object built by the
    code: properties whose value is [undefined] are not written. *)
Definition persisted (v : JValue) : JValue :=
  match v with
  | JObj fields =>
      JObj (List.filter
              (fun kv => match snd kv with JUndefined => false | _ => true end)
              fields)
  | _ => v
  end.

End Json.

(** One request to the external classifier: what [buildPrompt] is given. *)
Record Request := mkRequest {
  reqCanonical : list string;
  reqRawTags : list string;
  reqNote : string
}.

(** How [normalizeWithGemini] ends: it throws (no API key, transport failure,
    HTTP status of 400 or more, a body or a text that is not JSON, a body
    without text), or it returns the parsed JSON text. *)
Inductive ClassifierOutcome :=
| Threw (message : string)
| Replied (value : JValue).

(** The documents on disk, and the requests sent to the classifier so far. *)
Record Entry := mkEntry {
  eId : string;
  eAt : string;
  eHours : Q;
  eRaw : ParsedLine;
  ePrimary : JValue;
  eSecondary : JValue;
  eConfidence : JValue;
  eMethod : string;
  eRepo : string;
  eCommit : string
}.

Record Daily := mkDaily {
  dDate : string;
  dTimezone : string;
  dEntries : list Entry
}.

Record ErrorRec := mkError {
  errId : string;
  errCommit : string;
  errLine : string;
  errReason : string
}.

Record Watermark := mkWatermark {
  last_processed : option string;
  recent_commits : list string
}.

Record World := mkWorld {
  dayFiles : gmap string Daily;
  errorsFile : list ErrorRec;
  stateFile : option Watermark;
  cacheFile : gmap string JValue;
  suggestionsFile : gmap string (list string);
  requests : list Request
}.

Definition setDayFiles (f : gmap string Daily) (w : World) : World :=
  mkWorld f (errorsFile w) (stateFile w) (cacheFile w) (suggestionsFile w) (requests w).

Definition setCache (c : gmap string JValue) (w : World) : World :=
  mkWorld (dayFiles w) (errorsFile w) (stateFile w) c (suggestionsFile w) (requests w).

Definition setSuggestions (s : gmap string (list string)) (w : World) : World :=
  mkWorld (dayFiles w) (errorsFile w) (stateFile w) (cacheFile w) s (requests w).

Definition addRequest (r : Request) (w : World) : World :=
  mkWorld (dayFiles w) (errorsFile w) (stateFile w) (cacheFile w)
          (suggestionsFile w) (requests w ++ [r]).

(** The external classifier: its answer to a request, which may depend on
    how many requests came before. *)
Definition Classifier := nat -> Request -> ClassifierOutcome.

(** [appendSuggestions]: per key, the union of the strings already there and
    the trimmed non-empty strings proposed. *)
Definition suggestedStrings (values : list JValue) : list string :=
  omap (fun v => match v with
                 | JStr s => if Str.isEmpty (Str.trim s) then None else Some (Str.trim s)
                 | _ => None
                 end) values.

Definition addUnique (l : list string) (s : string) : list string :=
  if inList s l then l else l ++ [s].

(** [Object.entries(v)] for a value whose [typeof] is ["object"]. *)
Definition objectEntries (v : JValue) : list (string * JValue) :=
  match v with
  | JObj fields => fields
  | JArr items => imap (fun i item => (Num.toString (Z.of_nat i), item)) items
  | _ => []
  end.

Definition appendSuggestions (existing : gmap string (list string))
    (newSuggestions : JValue) : gmap string (list string) :=
  fold_left
    (fun acc kv =>
       match snd kv with
       | JArr values =>
           <[fst kv := fold_left addUnique (suggestedStrings values)
                         (fold_left addUnique (default [] (acc !! fst kv)) [])]> acc
       | _ => acc
       end)
    (objectEntries newSuggestions) existing.

(** How a call of [normalizeTagsLLM] ends: the promise rejects, or it
    resolves to a value ([JNull] for [null]). *)
Inductive LlmResult :=
| LlmThrew (message : string)
| LlmReturned (value : JValue).

Definition normalizeTagsLLM (classify : Classifier)
    (canonical rawTags : list string) (note : string) (w : World)
  : LlmResult * World :=
  let cacheKey := Json.stringifyKey rawTags note in
  let cache := cacheFile w in
  if truthy (default JUndefined (cache !! cacheKey)) then
    (LlmReturned (default JUndefined (cache !! cacheKey)), w)
  else
    let req := mkRequest canonical rawTags note in
    let w1 := addRequest req w in
    match classify (length (requests w)) req with
    | Threw message => (LlmThrew message, w1)
    | Replied rawResult =>
        match sanitizeResult rawResult canonical with
        | None => (LlmReturned JNull, w1)
        | Some sanitized =>
            let w2 := setCache (<[cacheKey := Json.persisted sanitized]> cache) w1 in
            let w3 := setSuggestions
                        (appendSuggestions (suggestionsFile w2)
                           (jget "new_alias_suggestions" sanitized)) w2 in
            (LlmReturned sanitized, w3)
        end
    end.

(** ** The ingestion coordinator ([main], part_000) *)

Record Commit := mkCommit {
  sha : string;
  dateStr : string;
  body : string
}.

(** The three shapes of [git log] the coordinator asks for. *)
Inductive LogQuery :=
| LogAll
| LogSince (watermark : string)
| LogRecent (n : Z).

(** What a run reads from outside the data directory: the tag master file,
    the process environment, the source-control log reader, the time-zone
    projection of [Intl.DateTimeFormat] and the classifier. *)
Record Env := mkEnv {
  envConfig : TagConfig;
  envRepo : string;
  envLlmEnabled : bool;
  envMaxRecent : Z;
  envGitLog : LogQuery -> option (list Commit);
  envHead : option string;
  envTzParts : string -> string -> DateParts;
  envClassify : Classifier
}.

(** The variables of [main] that change while the commits are processed. *)
Record RunState := mkRun {
  rWorld : World;
  rErrors : list ErrorRec;
  addedCount : nat;
  skippedCount : nat;
  errorCount : nat
}.

(** What happened to a recognised [time:] line, with the id it was given. *)
Inductive LineEvent :=
| EvErrored (id : string)
| EvSkipped (id : string)
| EvAdded (id : string).

Definition eventId (e : LineEvent) : string :=
  match e with EvErrored id | EvSkipped id | EvAdded id => id end.

(** [commit.body.split(/\r?\n/)]. *)
Fixpoint splitLinesGo (cur : string) (s : string) : list string :=
  match s with
  | EmptyString => [String.rev cur]
  | String c s' =>
      if Ascii.eqb c "010"%char then
        String.rev (match cur with
                    | String "013"%char cur' => cur'
                    | _ => cur
                    end) :: splitLinesGo EmptyString s'
      else splitLinesGo (String c cur) s'
  end.

Definition splitLines (s : string) : list string := splitLinesGo EmptyString s.

(** [`sha:${commit.sha}:${timeLineIndex}`]. *)
Definition entryId (commitSha : string) (timeLineIndex : nat) : string :=
  "sha:" +:+ commitSha +:+ ":" +:+ Num.toString (Z.of_nat timeLineIndex).

Definition recordError (errors : list ErrorRec) (details : ErrorRec)
  : list ErrorRec := errors ++ [details].

(** [x || fallback] on JSON values. *)
Definition orElse (x fallback : JValue) : JValue :=
  if truthy x then x else fallback.

Record Normalized := mkNormalized {
  primary : JValue;
  secondary : JValue;
  confidence : JValue;
  method : string
}.

(** Lines 221 to 249 of [main]: the alias stage, then the classifier when the
    alias stage found nothing and the toggle is on. *)
Definition normalizeLine (env : Env) (tagIndex : TagIndex) (id : string)
    (commit : Commit) (line : string) (parsed : ParsedLine) (st : RunState)
  : Normalized * RunState :=
  let normalizedTags := normalizeTags (rawTags parsed) tagIndex in
  let aliasResult :=
    mkNormalized
      (match normalizedTags with
       | first :: _ => if Str.isEmpty first then JStr "uncategorized" else JStr first
       | [] => JStr "uncategorized"
       end)
      (JArr (map JStr (tail normalizedTags)))
      (JNum (if (0 <? length normalizedTags)%nat then 1 else 0))
      (if (0 <? length normalizedTags)%nat then "alias" else "fallback") in
  if (length normalizedTags =? 0)%nat && envLlmEnabled env then
    match normalizeTagsLLM (envClassify env) (tiCanonical tagIndex)
            (rawTags parsed) (note parsed) (rWorld st) with
    | (LlmReturned llmResult, w) =>
        let st1 := mkRun w (rErrors st) (addedCount st) (skippedCount st) (errorCount st) in
        if truthy llmResult then
          (mkNormalized (jget "primary" llmResult)
                        (orElse (jget "secondary" llmResult) (JArr []))
                        (orElse (jget "confidence" llmResult) (JNum 0))
                        "llm", st1)
        else (aliasResult, st1)
    | (LlmThrew message, w) =>
        (aliasResult,
         mkRun w
               (recordError (rErrors st)
                  (mkError id (sha commit) line ("llm_error:" +:+ message)))
               (addedCount st) (skippedCount st) (errorCount st))
    end
  else (aliasResult, st).

(** Lines 251 to 291 of [main]: load the day's document, skip when the id is
    there, otherwise append and write back. *)
Definition storeEntry (env : Env) (timeZone id dateString : string)
    (hours : Q) (commit : Commit) (parsed : ParsedLine) (n : Normalized)
    (st : RunState) : LineEvent * RunState :=
  let w := rWorld st in
  let daily := default (mkDaily dateString timeZone []) (dayFiles w !! dateString) in
  if existsb (fun entry => String.eqb (eId entry) id) (dEntries daily) then
    (EvSkipped id,
     mkRun w (rErrors st) (addedCount st) (S (skippedCount st)) (errorCount st))
  else
    let entry :=
      mkEntry id (dateStr commit) hours parsed
              (primary n) (secondary n) (confidence n) (method n)
              (envRepo env) (sha commit) in
    let daily' := mkDaily (dDate daily) (dTimezone daily) (dEntries daily ++ [entry]) in
    (EvAdded id,
     mkRun (setDayFiles (<[dateString := daily']> (dayFiles w)) w)
           (rErrors st) (S (addedCount st)) (skippedCount st) (errorCount st)).

(** The body of [for (const line of lines)]: the run state, the counter
    [timeLineIndex] and what was done with the line. *)
Definition processLine (env : Env) (tagIndex : TagIndex) (timeZone : string)
    (commit : Commit) (st : RunState) (timeLineIndex : nat) (line : string)
  : RunState * nat * option LineEvent :=
  match parseTimeLine line with
  | NotTimeLine => (st, timeLineIndex, None)
  | parsed =>
      let id := entryId (sha commit) timeLineIndex in
      let timeLineIndex' := S timeLineIndex in
      let dateString :=
        resolveDateToken
          (match parsed with Parsed p => Some (dateToken p) | _ => None end)
          (envTzParts env (dateStr commit) timeZone) in
      let hours :=
        parseDuration
          (match parsed with Parsed p => durationToken p | _ => "undefined" end) in
      match parsed, dateString, hours with
      | Parsed p, Some ds, Some h =>
          if Str.isEmpty ds then
            (mkRun (rWorld st)
                   (recordError (rErrors st)
                      (mkError id (sha commit) line "invalid date or duration"))
                   (addedCount st) (skippedCount st) (S (errorCount st)),
             timeLineIndex', Some (EvErrored id))
          else
            let '(n, st1) := normalizeLine env tagIndex id commit line p st in
            let '(ev, st2) := storeEntry env timeZone id ds h commit p n st1 in
            (st2, timeLineIndex', Some ev)
      | _, _, _ =>
          (mkRun (rWorld st)
                 (recordError (rErrors st)
                    (mkError id (sha commit) line "invalid date or duration"))
                 (addedCount st) (skippedCount st) (S (errorCount st)),
           timeLineIndex', Some (EvErrored id))
      end
  end.

(** The loop over the lines of one commit, from [timeLineIndex = 0]. *)
Fixpoint processLines (env : Env) (tagIndex : TagIndex) (timeZone : string)
    (commit : Commit) (lines : list string) (st : RunState) (timeLineIndex : nat)
  : RunState * list LineEvent :=
  match lines with
  | [] => (st, [])
  | line :: rest =>
      let '(st1, idx1, ev) := processLine env tagIndex timeZone commit st timeLineIndex line in
      let '(st2, evs) := processLines env tagIndex timeZone commit rest st1 idx1 in
      (st2, match ev with Some e => e :: evs | None => evs end)
  end.

Definition processCommit (env : Env) (tagIndex : TagIndex) (timeZone : string)
    (st : RunState) (commit : Commit) : RunState * list LineEvent :=
  processLines env tagIndex timeZone commit (splitLines (body commit)) st 0.

(** The loop over the selected commits. *)
Fixpoint processCommits (env : Env) (tagIndex : TagIndex) (timeZone : string)
    (commits : list Commit) (st : RunState) : RunState * list LineEvent :=
  match commits with
  | [] => (st, [])
  | commit :: rest =>
      let '(st1, evs1) := processCommit env tagIndex timeZone st commit in
      let '(st2, evs2) := processCommits env tagIndex timeZone rest st1 in
      (st2, evs1 ++ evs2)
  end.

(** [addCommits]: insert into [commitsBySha] the commits whose sha is new;
    the map keeps insertion order. *)
Definition addCommits (acc : list Commit) (l : list Commit) : list Commit :=
  fold_left
    (fun acc commit =>
       if existsb (fun c => String.eqb (sha c) (sha commit)) acc then acc
       else acc ++ [commit])
    l acc.

(** Lines 179 to 188 of [main]: the commits since the watermark, or the
    whole history when there is no watermark or the ranged query fails;
    [None] when an unguarded [git log] throws. *)
Definition rangeCommits (env : Env) (state : Watermark) : option (list Commit) :=
  let fromAll := option_map (addCommits []) (envGitLog env LogAll) in
  match last_processed state with
  | Some lp =>
      if Str.isEmpty lp then fromAll
      else
        match envGitLog env (LogSince lp) with
        | Some sinceLast => Some (addCommits [] sinceLast)
        | None => fromAll
        end
  | None => fromAll
  end.

(** Lines 190 to 194 of [main]: the most recent commits are merged in. *)
Definition selectCommits (env : Env) (state : Watermark) : option (list Commit) :=
  match rangeCommits env state with
  | None => None
  | Some acc =>
      if 0 <? envMaxRecent env then
        option_map (addCommits acc) (envGitLog env (LogRecent (envMaxRecent env)))
      else Some acc
  end.

Record Summary := mkSummary {
  sumAdded : nat;
  sumSkipped : nat;
  sumErrors : nat
}.

(** How a run ends: it completes and prints its summary, or an exception
    leaves [main]; either way the documents are as the run left them. *)
Inductive RunOutcome :=
| Completed (w : World) (s : Summary) (events : list LineEvent)
| Crashed (w : World).

Definition defaultWatermark : Watermark := mkWatermark None [].

(** [x || y] on strings that may be [null]. *)
Definition orString (x y : option string) : option string :=
  match x with
  | Some s => if Str.isEmpty s then y else x
  | None => y
  end.

(** The variables of [main] before the first commit; the count of classifier
    requests starts at nothing. *)
Definition startRun (w : World) : RunState :=
  mkRun (mkWorld (dayFiles w) (errorsFile w) (stateFile w) (cacheFile w)
                 (suggestionsFile w) [])
        (errorsFile w) 0 0 0.

(** Lines 295 to 298 of [main]. *)
Definition recentForState (env : Env) : option (list string) :=
  if 0 <? envMaxRecent env then
    option_map (map sha) (envGitLog env (LogRecent (envMaxRecent env)))
  else Some [].

(** Lines 300 to 305 of [main]: the watermark and the error log are written. *)
Definition finishRun (env : Env) (state : Watermark) (st : RunState)
    (recent : list string) : World :=
  mkWorld (dayFiles (rWorld st)) (rErrors st)
          (Some (mkWatermark
                   (orString (envHead env) (orString (last_processed state) None))
                   recent))
          (cacheFile (rWorld st)) (suggestionsFile (rWorld st))
          (requests (rWorld st)).

Definition main (env : Env) (w : World) : RunOutcome :=
  let tagIndex := loadTags (envConfig env) in
  let timeZone := tiTimezone tagIndex in
  let state := default defaultWatermark (stateFile w) in
  match selectCommits env state with
  | None => Crashed w
  | Some commits =>
      let '(st, events) :=
        processCommits env tagIndex timeZone commits (startRun w) in
      match recentForState env with
      | None => Crashed (rWorld st)
      | Some recent =>
          Completed (finishRun env state st recent)
                    (mkSummary (addedCount st) (skippedCount st) (errorCount st))
                    events
      end
  end.

(** ** Ingestion: helper notions *)

(** Whether [cache[cacheKey]] is truthy for the key of these raw tags and
    this note. *)
Definition cacheHit (w : World) (rawTags : list string) (note : string) : bool :=
  truthy (default JUndefined (cacheFile w !! Json.stringifyKey rawTags note)).

(** The normalized part of an entry that neither stage categorised. *)
Definition fallbackResult : Normalized :=
  mkNormalized (JStr "uncategorized") (JArr []) (JNum 0) "fallback".

(** [daily.entries.some((entry) => entry.id === id)] on the stored document
    of a date, [false] when there is none. *)
Definition hasId (files : gmap string Daily) (dateString id : string) : bool :=
  match files !! dateString with
  | Some daily => existsb (fun entry => String.eqb (eId entry) id) (dEntries daily)
  | None => false
  end.

(** A line that the parser accepts and whose date and duration resolve. *)
Definition validLine (env : Env) (timeZone : string) (commit : Commit)
    (line : string) (p : ParsedLine) (dateString : string) (hours : Q) : Prop :=
  parseTimeLine line = Parsed p
  /\ resolveDateToken (Some (dateToken p)) (envTzParts env (dateStr commit) timeZone)
     = Some dateString
  /\ Str.isEmpty dateString = false
  /\ parseDuration (durationToken p) = Some hours.

(** The entry that lines 263 to 284 of [main] build. *)
Definition newEntry (env : Env) (id : string) (commit : Commit) (hours : Q)
    (p : ParsedLine) (n : Normalized) : Entry :=
  mkEntry id (dateStr commit) hours p (primary n) (secondary n) (confidence n)
          (method n) (envRepo env) (sha commit).

(** The day documents after an entry is appended to the one of its date. *)
Definition appendEntry (timeZone dateString : string) (entry : Entry)
    (files : gmap string Daily) : gmap string Daily :=
  let daily := default (mkDaily dateString timeZone []) (files !! dateString) in
  <[dateString := mkDaily (dDate daily) (dTimezone daily) (dEntries daily ++ [entry])]> files.

(** The lines that take a value of [timeLineIndex]: those for which
    [parseTimeLine] does not return [null]. *)
Definition isRecognized (line : string) : bool :=
  match parseTimeLine line with NotTimeLine => false | _ => true end.

Definition recognizedCount (lines : list string) : nat :=
  length (List.filter isRecognized lines).

(** The requests sent for given raw tags and note. *)
Definition sameKey (tags : list string) (nt : string) (r : Request) : bool :=
  bool_decide (reqRawTags r = tags /\ reqNote r = nt).

Definition countKey (tags : list string) (nt : string) (l : list Request) : nat :=
  length (List.filter (sameKey tags nt) l).

(** The date and the id under which a line is stored when it is valid. *)
Definition lineTarget (tzParts : string -> string -> DateParts) (timeZone : string)
    (commit : Commit) (i : nat) (line : string) : option (string * string) :=
  match parseTimeLine line with
  | Parsed p =>
      match resolveDateToken (Some (dateToken p)) (tzParts (dateStr commit) timeZone),
            parseDuration (durationToken p) with
      | Some ds, Some _ =>
          if Str.isEmpty ds then None else Some (ds, entryId (sha commit) i)
      | _, _ => None
      end
  | _ => None
  end.

(** Every valid line of the list, numbered from [i], is in the store. *)
Fixpoint linesPresent (tzParts : string -> string -> DateParts) (timeZone : string)
    (commit : Commit) (lines : list string) (i : nat) (files : gmap string Daily)
  : Prop :=
  match lines with
  | [] => True
  | line :: rest =>
      match lineTarget tzParts timeZone commit i line with
      | Some (ds, id) => hasId files ds id = true
      | None => True
      end
      /\ linesPresent tzParts timeZone commit rest
           (if isRecognized line then S i else i) files
  end.

Definition commitPresent (tzParts : string -> string -> DateParts)
    (timeZone : string) (files : gmap string Daily) (commit : Commit) : Prop :=
  linesPresent tzParts timeZone commit (splitLines (body commit)) 0 files.

(** No id leaves the store. *)
Definition storeGrows (files files' : gmap string Daily) : Prop :=
  forall ds id, hasId files ds id = true -> hasId files' ds id = true.

(** Two environments that see the same history and the same configuration. *)
Definition sameHistory (env env' : Env) : Prop :=
  (forall q, envGitLog env' q = envGitLog env q)
  /\ envHead env' = envHead env
  /\ envMaxRecent env' = envMaxRecent env
  /\ envConfig env' = envConfig env
  /\ (forall d z, envTzParts env' d z = envTzParts env d z).

(** The log reader answers consistently: a sha names one commit, and nothing
    lies between HEAD and itself. *)
Definition coherentLog (env : Env) : Prop :=
  (forall q q' l l' c c',
      envGitLog env q = Some l -> envGitLog env q' = Some l' ->
      In c l -> In c' l' -> sha c = sha c' -> c = c')
  /\ (forall h, envHead env = Some h -> Str.isEmpty h = false ->
                envGitLog env (LogSince h) = Some []).

(** ** A sample repository *)

Definition newline : string := String "010"%char EmptyString.

Definition sampleLine : string := "time: today 1h #nonexistent idea".
Definition sampleShortLine : string := "time: today".

Definition sampleConfig : TagConfig :=
  mkTagConfig None [("work", ["job"]); ("study", [])].

Definition sampleIndex : TagIndex := loadTags sampleConfig.

Definition sampleCommit : Commit :=
  mkCommit "abc123" "2026-01-05T10:00:00+09:00"
           (sampleShortLine +:+ newline +:+ sampleLine +:+ newline
            +:+ "plain text" +:+ newline +:+ sampleLine).

Definition sampleLog (q : LogQuery) : option (list Commit) :=
  match q with
  | LogSince _ => Some []
  | _ => Some [sampleCommit]
  end.

Definition sampleEnv (classify : Classifier) (enabled : bool) : Env :=
  mkEnv sampleConfig "origin" enabled 20 sampleLog (Some "abc123")
        (fun _ _ => mkDate 2026 1 5) classify.

Definition emptyWorld : World := mkWorld ∅ [] None ∅ ∅ [].

Definition sampleParsed : ParsedLine :=
  Eval vm_compute in
    match parseTimeLine sampleLine with
    | Parsed p => p
    | _ => mkParsedLine "" "" [] ∅ ""
    end.

Definition classifyDown : Classifier := fun _ _ => Threw "service unavailable".

Definition bogusAnswer : JValue :=
  JObj [("primary", JStr "bogus"); ("confidence", JNum 1)].

Definition classifyBogus : Classifier := fun _ _ => Replied bogusAnswer.

Definition workAnswer : JValue :=
  JObj [("primary", JStr "work");
        ("secondary", JArr [JStr "study"; JStr "work"; JStr "nope"]);
        ("confidence", JNum (9 # 10))].

Definition classifyWork : Classifier := fun _ _ => Replied workAnswer.

Definition retiredResult : JValue :=
  JObj [("primary", JStr "retired"); ("secondary", JArr []);
        ("confidence", JNum (1 # 2))].

Definition cachedWorld : World :=
  mkWorld ∅ [] None
          {[ Json.stringifyKey ["nonexistent"] "" := retiredResult ]} ∅ [].

Definition nullCachedWorld : World :=
  mkWorld ∅ [] None {[ Json.stringifyKey ["nonexistent"] "" := JNull ]} ∅ [].

(** ** Date ranges (scripts/lib/date.js) *)

(** [compareDateParts]. *)
Definition compareDateParts (a b : DateParts) : Z :=
  if negb (year a =? year b) then year a - year b
  else if negb (month a =? month b) then month a - month b
  else day a - day b.

(** [isBetween]; a bound that is [None] has [NaN] parts, and every comparison
    with [NaN] is false. *)
Definition isBetween (date : DateParts) (rangeStart rangeEnd : option DateParts) : bool :=
  match rangeStart, rangeEnd with
  | Some s, Some e => (0 <=? compareDateParts date s) && (compareDateParts date e <=? 0)
  | _, _ => false
  end.

(** [WeekDay(t)], 0 for Sunday. *)
Definition weekDay (d : Z) : Z := (d + 4) mod 7.

(** [getIsoWeekRange]: the pair of [start] and [end]. *)
Definition getIsoWeekRange (parts : DateParts) : option DateParts * option DateParts :=
  match JsDate.UTC (year parts) (month parts - 1) (day parts) with
  | None => (None, None)
  | Some base =>
      let weekday := weekDay (JsDate.dayOf base) in
      let offset := (weekday + 6) mod 7 in
      let start := addDays parts (- offset) in
      (start, match start with Some s => addDays s 6 | None => None end)
  end.

(** [getMonthRange]. *)
Definition getMonthRange (parts : DateParts) : option DateParts * option DateParts :=
  let start := mkDate (year parts) (month parts) 1 in
  let nextMonth :=
    if month parts =? 12 then mkDate (year parts + 1) 1 1
    else mkDate (year parts) (month parts + 1) 1 in
  (Some start, addDays nextMonth (-1)).

(** [getYearRange]. *)
Definition getYearRange (parts : DateParts) : option DateParts * option DateParts :=
  (Some (mkDate (year parts) 1 1), Some (mkDate (year parts) 12 31)).

(** The day number of a date, as [Date.UTC] counts it for a year outside
    0..99; and the date of a day number, as the [getUTC...] methods give it. *)
Definition dayNumber (p : DateParts) : Z := JsDate.makeDay (year p) (month p - 1) (day p).

Definition civilFromDay (d : Z) : DateParts :=
  mkDate (JsDate.yearFromDay d) (JsDate.monthFromDay d + 1) (JsDate.dateFromDay d).

(** ** Normalized tokens and the tag index: helper notions *)


(** Every character of the text satisfies [p]. *)
Fixpoint everyChar (p : ascii -> bool) (s : string) : bool :=
  match s with
  | EmptyString => true
  | String c s' => p c && everyChar p s'
  end.

(** What is known of an alias map built from the entries [seen]: every key
    is a non-empty normalized form of a canonical key of [seen] or of one of
    its aliases, and the value is that canonical key. *)
Definition indexSound (seen : list (string * list string)) (m : gmap string string)
  : Prop :=
  forall n v, m !! n = Some v ->
    n <> "" /\ exists aliases, In (v, aliases) seen
                 /\ (n = normalizeToken v \/ exists a, In a aliases /\ n = normalizeToken a).

(** What [normalizeStep] contributes for a raw token. *)
Definition resolves (idx : TagIndex) (raw x : string) : Prop :=
  x <> "" /\ normalizeToken raw <> ""
  /\ tiAliasMap idx !! normalizeToken raw = Some x.

(** ** The classifier stage: helper notions *)

(** How [JSON.parse] reads back the first character of the inside of a
    string literal, for the escapes that [JSON.stringify] writes: the
    character and what follows it, [None] at the closing quote and at
    anything [JSON.stringify] does not write. *)
Definition hexValue (c : ascii) : option nat :=
  let n := nat_of_ascii c in
  if (48 <=? n)%nat && (n <=? 57)%nat then Some (n - 48)%nat
  else if (97 <=? n)%nat && (n <=? 102)%nat then Some (n - 87)%nat
  else None.

Definition unescapeHead (s : string) : option (ascii * string) :=
  match s with
  | EmptyString => None
  | String c rest =>
      if Ascii.eqb c Json.dquote then None
      else if Ascii.eqb c Json.backslash then
        match rest with
        | String e rest' =>
            if Ascii.eqb e Json.dquote then Some (Json.dquote, rest')
            else if Ascii.eqb e Json.backslash then Some (Json.backslash, rest')
            else if Ascii.eqb e "b" then Some (ascii_of_nat 8, rest')
            else if Ascii.eqb e "t" then Some (ascii_of_nat 9, rest')
            else if Ascii.eqb e "n" then Some (ascii_of_nat 10, rest')
            else if Ascii.eqb e "f" then Some (ascii_of_nat 12, rest')
            else if Ascii.eqb e "r" then Some (ascii_of_nat 13, rest')
            else if Ascii.eqb e "u" then
              match rest' with
              | String "0" (String "0" (String h (String l rest''))) =>
                  match hexValue h, hexValue l with
                  | Some a, Some b => Some (ascii_of_nat (16 * a + b), rest'')
                  | _, _ => None
                  end
              | _ => None
              end
            else None
        | EmptyString => None
        end
      else Some (c, rest)
  end.

(** The answer that [sanitizeResult] lets through, as the code builds it. *)
Definition cleanAnswer (p : string) (sec : list JValue) (c : Q)
    (suggestions : JValue) : JValue :=
  JObj [("primary", JStr p); ("secondary", JArr sec);
        ("confidence", JNum c); ("new_alias_suggestions", suggestions)].



(** ** The line grammar: helper notions *)

(** A character that can stand in a tag name: no white space, no colon. *)
Definition isTagChar (c : ascii) : bool :=
  negb (Str.isSpace c) && negb (Ascii.eqb c ":").

(** A character that is not white space. *)
Definition notSpace (c : ascii) : bool := negb (Str.isSpace c).

(** What holds of the variables of the token loop at every iteration: the
    raw tags are well formed, metadata is attached only to raw tags and no
    list of it is empty, and the open tag, if any, is a raw tag. *)
Definition scanInv (st : ScanState) : Prop :=
  Forall (fun t => t <> "" /\ everyChar isTagChar t = true) (sRawTags st)
  /\ (forall k vs, sTagMeta st !! k = Some vs ->
        In k (sRawTags st) /\ vs <> [] /\ Forall (fun v => v <> "") vs)
  /\ (forall cur, sCurrentTag st = Some cur -> In cur (sRawTags st))
  /\ Forall (fun t => t <> "" /\ everyChar notSpace t = true) (sNoteParts st).

(** ** The run as a whole: helper notions *)

(** The three kinds of events, and how many of a kind a list holds. *)
Definition isAdded (e : LineEvent) : bool :=
  match e with EvAdded _ => true | _ => false end.

Definition isSkipped (e : LineEvent) : bool :=
  match e with EvSkipped _ => true | _ => false end.

Definition isErrored (e : LineEvent) : bool :=
  match e with EvErrored _ => true | _ => false end.

Definition countEvents (f : LineEvent -> bool) (events : list LineEvent) : nat :=
  length (List.filter f events).

(** The events of one line: none when the line is not a time line. *)
Definition eventList (ev : option LineEvent) : list LineEvent :=
  match ev with Some e => [e] | None => [] end.





(** The reason recorded for a line whose date or duration does not resolve. *)
Definition parseErrorReason : string := "invalid date or duration".

Definition isParseError (r : ErrorRec) : bool :=
  String.eqb (errReason r) parseErrorReason.

(** The counters move with the events. *)
Definition countersAgree (st : RunState) (evs : list LineEvent) (st' : RunState)
  : Prop :=
  addedCount st' = (addedCount st + countEvents isAdded evs)%nat
  /\ skippedCount st' = (skippedCount st + countEvents isSkipped evs)%nat
  /\ errorCount st' = (errorCount st + countEvents isErrored evs)%nat.

(** The error records that a stretch of the run may append. *)
Definition errorsAgree (llmEnabled : bool) (st : RunState) (st' : RunState) : Prop :=
  exists new,
    rErrors st' = rErrors st ++ new
    /\ errorCount st' = (errorCount st + length (List.filter isParseError new))%nat
    /\ Forall (fun r => errReason r = parseErrorReason
                        \/ (llmEnabled = true
                            /\ exists message, errReason r = "llm_error:" +:+ message))
              new.

Definition noColon (c : ascii) : bool := negb (Ascii.eqb c ":").



(** ** The report builder (first document of part_002) *)

(** The test that [buildTotalsByPeriod] (part_002) applies to a day
    document before it adds its entries to the totals of a period: the
    document's date parses and lies within the period. *)
Definition inPeriod (dateText : string)
    (periodRange : option DateParts * option DateParts) : bool :=
  match parseDateString dateText with
  | Some parts => isBetween parts (fst periodRange) (snd periodRange)
  | None => false
  end.

(** ** Resolved dates: helper notions *)


(** ** The log reader ([parseCommitLog], part_000) *)

(** The separators of the log format [%H%x1f%aI%x1f%B%x1e]. *)
Definition unitSep : ascii := "031"%char.
Definition recordSep : ascii := "030"%char.

(** An element of the array that [parseCommitLog] returns; [leDate] is
    [None] when the chunk holds no unit separator and [dateStr] is
    [undefined]. *)
Record LogEntry := mkLogEntry {
  leSha : string;
  leDate : option string;
  leBody : string
}.

(** [const [sha, dateStr, body] = chunk.split('\x1f')] and
    [{ sha, dateStr, body: body || '' }]. *)
Definition parseChunk (chunk : string) : LogEntry :=
  match Str.split unitSep chunk with
  | [] => mkLogEntry "" None ""
  | sha :: rest =>
      mkLogEntry sha
                 (match rest with dateStr :: _ => Some dateStr | [] => None end)
                 (match rest with _ :: body :: _ => body | _ => "" end)
  end.

(** What [parseCommitLog] makes of the output of [git log]. *)
Definition parseLogOutput (output : string) : list LogEntry :=
  map parseChunk
      (List.filter (fun chunk => negb (Str.isEmpty chunk))
                   (map Str.trim (Str.split recordSep output))).

(** The text that [git log --pretty=format:%H%x1f%aI%x1f%B%x1e] prints for
    commits given by sha, author date and message: one record per commit,
    the records separated by a line feed. *)
Definition formatRecord (c : Commit) : string :=
  sha c +:+ String unitSep (dateStr c +:+ String unitSep (body c +:+ String recordSep "")).

Definition formatLog (commits : list Commit) : string :=
  Str.join newline (map formatRecord commits).

Definition noSeparator (c : ascii) : bool :=
  negb (Ascii.eqb c unitSep) && negb (Ascii.eqb c recordSep).

(** A commit as the source control gives it: a sha that is not empty and
    does not start with white space, and no separator character anywhere. *)
Definition plainCommit (c : Commit) : Prop :=
  everyChar noSeparator (sha c) = true
  /\ everyChar noSeparator (dateStr c) = true
  /\ everyChar noSeparator (body c) = true
  /\ match sha c with
     | EmptyString => False
     | String a _ => Str.isSpace a = false
     end.

(** The text of a record before its record separator, and what follows the
    first record of a log. *)
Definition chunkText (c : Commit) : string :=
  sha c +:+ String unitSep (dateStr c +:+ String unitSep (body c)).

Definition tailText (commits : list Commit) : string :=
  match commits with
  | [] => EmptyString
  | _ :: _ => newline +:+ formatLog commits
  end.

(** * Properties *)

(** ** Tag metadata association *)

Section TagMetadata.

Lemma split_nonempty sep s : Str.split sep s <> [].
Proof.
  unfold Str.split. generalize EmptyString as cur.
  induction s as [|c s IH]; intros cur; simpl; [discriminate|].
  destruct (Ascii.eqb c sep); [discriminate | apply IH].
Qed.





End TagMetadata.



(** ** Duration parsing *)

Section DurationParsing.

Lemma append_cons c s t : String c s +:+ t = String c (s +:+ t).
Proof. reflexivity. Qed.

Lemma append_nil t : "" +:+ t = t.
Proof. reflexivity. Qed.


Lemma allDigits_cons c s : allDigits (String c s) = Str.isDigit c && allDigits s.
Proof. reflexivity. Qed.


Lemma dropWhile_starts s : startsNonDigit (Str.dropWhile Str.isDigit s).
Proof.
  induction s as [|c s IH]; simpl; [exact I|].
  destruct (Str.isDigit c) eqn:E; [exact IH | exact E].
Qed.


Lemma inList_true s l : inList s l = true -> In s l.
Proof.
  unfold inList. rewrite existsb_exists. intros (x & Hin & Heq).
  apply String.eqb_eq in Heq. subst. exact Hin.
Qed.




Lemma isEmpty_false s : Str.isEmpty s = false -> s <> "".
Proof. destruct s; [discriminate|congruence]. Qed.




End DurationParsing.




(** ** Date resolution *)

Section Calendar.

Import JsDate.

Lemma inLeapYear_spec y : inLeapYear y = if isLeapYear y then 1 else 0.
Proof.
  unfold inLeapYear, daysInYear, isLeapYear.
  destruct (Z.eqb_spec (y mod 4) 0) as [H4|H4];
  destruct (Z.eqb_spec (y mod 100) 0) as [H100|H100];
  destruct (Z.eqb_spec (y mod 400) 0) as [H400|H400]; simpl; try reflexivity;
  exfalso; Z.div_mod_to_equations; lia.
Qed.

Lemma dayFromYear_succ y : dayFromYear (y + 1) = dayFromYear y + daysInYear y.
Proof.
  unfold dayFromYear, daysInYear.
  destruct (Z.eqb_spec (y mod 4) 0) as [H4|H4];
  destruct (Z.eqb_spec (y mod 100) 0) as [H100|H100];
  destruct (Z.eqb_spec (y mod 400) 0) as [H400|H400]; simpl;
  Z.div_mod_to_equations; lia.
Qed.

Lemma dayFromYear_mono y1 y2 : y1 <= y2 -> dayFromYear y1 <= dayFromYear y2.
Proof. unfold dayFromYear. intros H. Z.div_mod_to_equations. lia. Qed.

Lemma dayFromYear_upper_pos k : 0 <= k -> dayFromYear (1970 + k) <= 366 * k.
Proof. unfold dayFromYear. intros H. Z.div_mod_to_equations. lia. Qed.

Lemma dayFromYear_upper_neg k : k <= 0 -> dayFromYear (1970 + k) <= 365 * k.
Proof. unfold dayFromYear. intros H. Z.div_mod_to_equations. lia. Qed.

Lemma dayFromYear_lower_pos k : 0 <= k -> 365 * k <= dayFromYear (1970 + k).
Proof. unfold dayFromYear. intros H. Z.div_mod_to_equations. lia. Qed.

Lemma dayFromYear_lower_neg k : k <= 0 -> 366 * k <= dayFromYear (1970 + k).
Proof. unfold dayFromYear. intros H. Z.div_mod_to_equations. lia. Qed.

Lemma yearSearch_correct d y : 
  dayFromYear y <= d < dayFromYear (y + 1) ->
  forall fuel y0, y0 <= y <= y0 + Z.of_nat fuel -> yearSearch fuel y0 d = y.
Proof.
  intros [Hlo Hhi]. induction fuel as [|fuel IH]; intros y0 Hy; simpl.
  - lia.
  - destruct (Z.leb_spec (dayFromYear (y0 + 1)) d) as [Hle|Hgt].
    + apply IH. split; [|lia].
      destruct (Z_lt_le_dec y (y0 + 1)) as [Hlt|]; [|assumption].
      assert (y = y0) by lia. subst y0. lia.
    + destruct (Z_lt_le_dec y0 y) as [Hlt|]; [|lia].
      pose proof (dayFromYear_mono (y0 + 1) y ltac:(lia)). lia.
Qed.

Lemma yearFromDay_correct d y :
  dayFromYear y <= d < dayFromYear (y + 1) -> yearFromDay d = y.
Proof.
  intros Hd. unfold yearFromDay. apply yearSearch_correct; [assumption|].
  set (a := d / 365). set (b := d / 366).
  assert (Ha : 365 * a <= d < 365 * a + 365) by (subst a; Z.div_mod_to_equations; lia).
  assert (Hb : 366 * b <= d < 366 * b + 366) by (subst b; Z.div_mod_to_equations; lia).
  rewrite Z2Nat.id by lia.
  destruct Hd as [Hlo Hhi].
  split.
  - (* the lower estimate is not after y *)
    destruct (Z_lt_le_dec y (1970 + Z.min a b)) as [Hlt|]; [exfalso|assumption].
    pose proof (dayFromYear_mono (y + 1) (1970 + Z.min a b) ltac:(lia)) as Hm.
    destruct (Z_le_gt_dec 0 (Z.min a b)) as [Hk|Hk].
    + pose proof (dayFromYear_upper_pos (Z.min a b) Hk). lia.
    + pose proof (dayFromYear_upper_neg (Z.min a b) ltac:(lia)). lia.
  - replace (1970 + Z.min a b + (1970 + Z.max a b - (1970 + Z.min a b)))
      with (1970 + Z.max a b) by lia.
    destruct (Z_lt_le_dec (1970 + Z.max a b) y) as [Hlt|]; [exfalso|assumption].
    pose proof (dayFromYear_mono (1970 + (Z.max a b + 1)) y ltac:(lia)) as Hm.
    destruct (Z_le_gt_dec 0 (Z.max a b + 1)) as [Hk|Hk].
    + pose proof (dayFromYear_lower_pos (Z.max a b + 1) Hk). lia.
    + pose proof (dayFromYear_lower_neg (Z.max a b + 1) ltac:(lia)). lia.
Qed.

Lemma daysInYear_leap y : daysInYear y = 365 + inLeapYear y.
Proof.
  unfold inLeapYear. unfold daysInYear.
  destruct (negb (y mod 4 =? 0)); [reflexivity|].
  destruct (negb (y mod 100 =? 0)); [reflexivity|].
  destruct (negb (y mod 400 =? 0)); reflexivity.
Qed.

Lemma inLeapYear_range y : inLeapYear y = 0 \/ inLeapYear y = 1.
Proof. unfold inLeapYear. destruct (daysInYear y =? 366); auto. Qed.

Lemma daysBeforeMonth_valid l m dd y :
  l = inLeapYear y -> validDate (mkDate y m dd) ->
  0 <= daysBeforeMonth l (m - 1) + dd - 1 < daysInYear y.
Proof.
  intros -> [Hm Hd]. simpl in Hm, Hd. rewrite daysInYear_leap.
  unfold daysInMonth in Hd. rewrite inLeapYear_spec in *.
  unfold daysBeforeMonth.
  assert (m = 1 \/ m = 2 \/ m = 3 \/ m = 4 \/ m = 5 \/ m = 6 \/ m = 7 \/ m = 8
          \/ m = 9 \/ m = 10 \/ m = 11 \/ m = 12) as Hcases by lia.
  destruct (isLeapYear y);
  repeat (destruct Hcases as [->|Hcases]; [simpl in *; lia|]); subst; simpl in *; lia.
Qed.

Ltac eval_daysBeforeMonth :=
  repeat match goal with
         | |- context [daysBeforeMonth ?l ?m] =>
             let v := eval vm_compute in (daysBeforeMonth l m) in
             change (daysBeforeMonth l m) with v
         end.

Ltac civil_case Hd :=
  simpl in Hd;
  match goal with
  | |- context [daysBeforeMonth ?l (?k - 1)] =>
      let v := eval vm_compute in (daysBeforeMonth l (k - 1)) in
      change (daysBeforeMonth l (k - 1)) with v
  end;
  repeat match goal with
         | |- context [?a <? ?b] => destruct (Z.ltb_spec a b); try lia
         end;
  eval_daysBeforeMonth; lia.

Ltac eval_closed_ifs :=
  eval_daysBeforeMonth;
  repeat match goal with
         | |- context [if ?c then ?a else ?b] =>
             let v := eval vm_compute in (if c then a else b) in
             change (if c then a else b) with v
         end.

Lemma civil_of_makeDay y m dd :
  validDate (mkDate y m dd) ->
  let d := makeDay y (m - 1) dd in
  yearFromDay d = y /\ monthFromDay d + 1 = m /\ dateFromDay d = dd.
Proof.
  intros Hv d.
  pose proof (daysBeforeMonth_valid (inLeapYear y) m dd y eq_refl Hv) as Hw.
  destruct Hv as [Hm Hd]. simpl in Hm, Hd.
  assert (Hdiv : (m - 1) / 12 = 0) by (apply Z.div_small; lia).
  assert (Hmod : (m - 1) mod 12 = m - 1) by (apply Z.mod_small; lia).
  assert (Hd_eq : d = dayFromYear y + (daysBeforeMonth (inLeapYear y) (m - 1) + dd - 1)).
  { subst d. unfold makeDay. rewrite Hdiv, Hmod, Z.add_0_r. lia. }
  assert (Hy : yearFromDay d = y).
  { apply yearFromDay_correct. rewrite dayFromYear_succ. lia. }
  split; [exact Hy|].
  unfold dateFromDay, monthFromDay, dayWithinYear. rewrite Hy.
  replace (d - dayFromYear y) with (daysBeforeMonth (inLeapYear y) (m - 1) + dd - 1) by lia.
  unfold daysInMonth in Hd. rewrite inLeapYear_spec in *.
  assert (m = 1 \/ m = 2 \/ m = 3 \/ m = 4 \/ m = 5 \/ m = 6 \/ m = 7 \/ m = 8
          \/ m = 9 \/ m = 10 \/ m = 11 \/ m = 12) as Hcases by lia.
  clear Hd_eq Hy Hw Hdiv Hmod d.
  destruct (isLeapYear y);
  repeat (destruct Hcases as [->|Hcases]; [civil_case Hd|]); subst; civil_case Hd.
Qed.

Lemma daysInMonth_bounds y m : 28 <= daysInMonth y m <= 31.
Proof.
  unfold daysInMonth.
  destruct (m =? 2); [destruct (isLeapYear y); lia|].
  destruct ((m =? 4) || (m =? 6) || (m =? 9) || (m =? 11)); lia.
Qed.

Lemma previousDay_valid p : validDate p -> validDate (previousDay p).
Proof.
  destruct p as [y m dd]. intros [Hm Hd]. simpl in Hm, Hd.
  unfold previousDay; simpl.
  destruct (Z.ltb_spec 1 dd).
  - split; simpl; lia.
  - destruct (Z.ltb_spec 1 m).
    + split; simpl; [lia|]. pose proof (daysInMonth_bounds y (m - 1)). lia.
    + split; simpl; [lia|]. unfold daysInMonth; simpl. lia.
Qed.

Lemma makeDay_valid y m dd :
  1 <= m <= 12 ->
  makeDay y (m - 1) dd = dayFromYear y + daysBeforeMonth (inLeapYear y) (m - 1) + dd - 1.
Proof.
  intros Hm. unfold makeDay.
  rewrite (Z.div_small (m - 1) 12), (Z.mod_small (m - 1) 12), Z.add_0_r by lia.
  reflexivity.
Qed.

Lemma makeDay_previousDay y m dd :
  validDate (mkDate y m dd) ->
  makeDay y (m - 1) dd - 1 =
    makeDay (year (previousDay (mkDate y m dd)))
            (month (previousDay (mkDate y m dd)) - 1)
            (day (previousDay (mkDate y m dd))).
Proof.
  intros Hv. pose proof (previousDay_valid _ Hv) as [Hpm _].
  destruct Hv as [Hm Hd]. simpl in Hm, Hd.
  rewrite (makeDay_valid y m dd Hm), (makeDay_valid _ _ _ Hpm).
  unfold previousDay in *; simpl in *.
  destruct (Z.ltb_spec 1 dd); simpl.
  - lia.
  - assert (dd = 1) by lia. subst dd.
    destruct (Z.ltb_spec 1 m); simpl.
    + unfold daysInMonth. rewrite inLeapYear_spec.
      assert (m = 2 \/ m = 3 \/ m = 4 \/ m = 5 \/ m = 6 \/ m = 7 \/ m = 8
              \/ m = 9 \/ m = 10 \/ m = 11 \/ m = 12) as Hcases by lia.
      set (D := dayFromYear y).
      destruct (isLeapYear y);
      repeat (destruct Hcases as [->|Hcases]; [eval_closed_ifs; lia|]);
      subst; eval_closed_ifs; lia.
    + assert (m = 1) by lia. subst m.
      replace y with ((y - 1) + 1) at 1 by lia.
      rewrite dayFromYear_succ, daysInYear_leap.
      change (daysBeforeMonth (inLeapYear (y - 1 + 1)) (1 - 1)) with 0.
      change (12 - 1) with 11. unfold daysBeforeMonth. simpl. lia.
Qed.

Lemma dayFromYear_range y :
  -270000 <= y <= 270000 -> -99990000 <= dayFromYear y <= 99990000.
Proof.
  intros Hy. replace y with (1970 + (y - 1970)) by lia.
  destruct (Z_le_gt_dec 0 (y - 1970)) as [Hk|Hk].
  - pose proof (dayFromYear_upper_pos (y - 1970) Hk).
    pose proof (dayFromYear_lower_pos (y - 1970) Hk). lia.
  - pose proof (dayFromYear_upper_neg (y - 1970) ltac:(lia)).
    pose proof (dayFromYear_lower_neg (y - 1970) ltac:(lia)). lia.
Qed.

Lemma makeDay_range y m dd :
  validDate (mkDate y m dd) -> -270000 <= y <= 270000 ->
  -99999000 <= makeDay y (m - 1) dd <= 99999000.
Proof.
  intros Hv Hy.
  pose proof (daysBeforeMonth_valid (inLeapYear y) m dd y eq_refl Hv) as Hw.
  pose proof (dayFromYear_range y Hy) as Hr.
  destruct Hv as [Hm Hd]. simpl in Hm, Hd.
  rewrite (makeDay_valid y m dd Hm).
  rewrite daysInYear_leap in Hw. destruct (inLeapYear_range y) as [Hl|Hl];
    rewrite Hl in *; lia.
Qed.

Lemma timeClip_small t : Z.abs t <= maxTime -> timeClip t = Some t.
Proof.
  intros H. unfold timeClip. destruct (Z.leb_spec (Z.abs t) maxTime); [reflexivity|lia].
Qed.

Lemma addDays_yesterday p :
  validDate p -> (year p < 0 \/ 99 < year p) -> -270000 <= year p <= 270000 ->
  addDays p (-1) = Some (previousDay p).
Proof.
  destruct p as [y m dd]. simpl. intros Hv Hq Hy.
  pose proof (makeDay_range y m dd Hv Hy) as Hr.
  pose proof (makeDay_previousDay y m dd Hv) as Hprev.
  pose proof (previousDay_valid _ Hv) as Hpv.
  unfold addDays, UTC. simpl year; simpl month; simpl day.
  assert (Hquirk : (0 <=? y) && (y <=? 99) = false).
  { destruct (Z.leb_spec 0 y), (Z.leb_spec y 99); simpl; try reflexivity; lia. }
  rewrite Hquirk.
  set (n := makeDay y (m - 1) dd) in *.
  rewrite timeClip_small by (unfold maxTime, msPerDay; lia).
  replace (n * msPerDay + -1 * 24 * 60 * 60 * 1000) with ((n - 1) * msPerDay)
    by (unfold msPerDay; lia).
  rewrite timeClip_small by (unfold maxTime, msPerDay; lia).
  unfold dayOf. rewrite Z.div_mul by (unfold msPerDay; lia).
  rewrite Hprev.
  destruct (previousDay (mkDate y m dd)) as [y' m' d'] eqn:E. simpl.
  destruct (civil_of_makeDay y' m' d' Hpv) as (H1 & H2 & H3).
  rewrite H1, H2, H3. reflexivity.
Qed.

End Calendar.

Section DateText.

Lemma allDigits_uint s :
  allDigits s = true -> exists u, NilEmpty.uint_of_string s = Some u.
Proof.
  induction s as [|c s IH]; intros H.
  - exists Decimal.Nil. reflexivity.
  - rewrite allDigits_cons in H. apply andb_prop in H as [Hc Hs].
    destruct (IH Hs) as [u Hu]. simpl. rewrite Hu.
    destruct c as [[] [] [] [] [] [] [] []];
      try (vm_compute in Hc; discriminate); simpl; eauto.
Qed.

Lemma string_of_uint_length u :
  String.length (NilEmpty.string_of_uint u) = Decimal.nb_digits u.
Proof. induction u; simpl; congruence. Qed.

Lemma string_of_uint_iter k u :
  NilEmpty.string_of_uint (Nat.iter k Decimal.D0 u)
  = String.concat "" (repeat "0"%string k) +:+ NilEmpty.string_of_uint u.
Proof.
  induction k as [|k IH]; [reflexivity|].
  simpl Nat.iter. simpl NilEmpty.string_of_uint. rewrite IH.
  destruct k; reflexivity.
Qed.

Lemma toString_of_uint u :
  Num.toString (Z.of_uint u) = NilEmpty.string_of_uint (Decimal.unorm u).
Proof.
  unfold Num.toString.
  change (Z.of_uint u) with (Z.of_int (Decimal.Pos u)).
  rewrite DecimalZ.to_of. simpl.
  unfold Decimal.unorm. destruct (Decimal.nzhead u); reflexivity.
Qed.

Lemma pad_digits s :
  allDigits s = true -> s <> "" ->
  padStart (String.length s) (Num.toString (Num.digitsValue s)) = s.
Proof.
  intros Hd Hne. destruct (allDigits_uint s Hd) as [u Hu].
  unfold Num.digitsValue. rewrite Hu, toString_of_uint.
  pose proof (NilEmpty.sus s u Hu) as Hs.
  assert (Hnil : u <> Decimal.Nil).
  { intros ->. simpl in Hs. congruence. }
  unfold padStart. rewrite <- Hs at 1.
  rewrite !string_of_uint_length, <- string_of_uint_iter.
  rewrite (iter_D0_unorm u Hnil). exact Hs.
Qed.

Lemma append_nil_r s : s +:+ "" = s.
Proof. induction s as [|c s IH]; [reflexivity|]. rewrite append_cons, IH. reflexivity. Qed.

Lemma append_assoc s t u : (s +:+ t) +:+ u = s +:+ (t +:+ u).
Proof. induction s as [|c s IH]; [reflexivity|]. rewrite !append_cons, IH. reflexivity. Qed.

Lemma rev_app_append s acc : String.rev_app s acc = String.rev s +:+ acc.
Proof.
  unfold String.rev. revert acc.
  induction s as [|c s IH]; intros acc; simpl; [reflexivity|].
  rewrite (IH (String c acc)), (IH (String c "")), append_assoc. reflexivity.
Qed.

Lemma rev_cons c s : String.rev (String c s) = String.rev s +:+ String c "".
Proof. unfold String.rev at 1. simpl. apply rev_app_append. Qed.

Lemma join_splitGo sep s : forall cur,
  Str.join (String sep "") (Str.splitGo sep cur s) = String.rev cur +:+ s.
Proof.
  induction s as [|c s IH]; intros cur; simpl.
  - symmetry. apply append_nil_r.
  - destruct (Ascii.eqb_spec c sep) as [->|Hne].
    + pose proof (IH "") as IH0.
      destruct (Str.splitGo sep "" s) as [|p ps] eqn:E.
      * exfalso. revert E. apply split_nonempty.
      * change (Str.join (String sep "") (String.rev cur :: p :: ps))
          with (String.rev cur +:+ String sep "" +:+ Str.join (String sep "") (p :: ps)).
        rewrite IH0. reflexivity.
    + rewrite IH, rev_cons, append_assoc. reflexivity.
Qed.

Lemma join_split sep s : Str.join (String sep "") (Str.split sep s) = s.
Proof. unfold Str.split. rewrite join_splitGo. reflexivity. Qed.

Lemma length_eqb_nonempty s n : (String.length s =? S n)%nat = true -> s <> "".
Proof. destruct s; [discriminate | congruence]. Qed.

Lemma padded_digits s n :
  allDigits s = true -> (String.length s =? S n)%nat = true ->
  padStart (S n) (Num.toString (Num.digitsValue s)) = s.
Proof.
  intros Hd Hl. pose proof (length_eqb_nonempty s n Hl) as Hne.
  apply Nat.eqb_eq in Hl. rewrite <- Hl. apply pad_digits; assumption.
Qed.

Lemma resolve_shape tok tz :
  matchesDateShape tok = true -> resolveDateToken (Some tok) tz = Some tok.
Proof.
  intros Hs. unfold resolveDateToken.
  destruct (Str.isEmpty tok) eqn:He.
  { destruct tok; [discriminate Hs | discriminate He]. }
  destruct (String.eqb_spec tok "today") as [->|_]; [discriminate Hs|].
  destruct (String.eqb_spec tok "yesterday") as [->|_]; [discriminate Hs|].
  unfold parseDateString. rewrite Hs.
  pose proof (join_split "-" tok) as Hj.
  unfold matchesDateShape in Hs.
  destruct (Str.split "-" tok) as [|y [|m [|d [|? ?]]]]; try discriminate Hs.
  repeat (apply andb_prop in Hs as [Hs ?]).
  simpl map. cbv beta iota. f_equal. unfold datePartsToString. simpl year; simpl month; simpl day.
  rewrite (padded_digits y 3), (padded_digits m 1), (padded_digits d 1) by assumption.
  exact Hj.
Qed.

Lemma splitGo_digits sep s : forall cur rest,
  allDigits s = true -> Str.isDigit sep = false ->
  Str.splitGo sep cur (s +:+ rest) = Str.splitGo sep (String.rev_app s cur) rest.
Proof.
  induction s as [|c s IH]; intros cur rest Hd Hsep; [reflexivity|].
  rewrite allDigits_cons in Hd. apply andb_prop in Hd as [Hc Hs].
  rewrite append_cons. simpl.
  destruct (Ascii.eqb_spec c sep) as [->|_]; [congruence|].
  apply IH; assumption.
Qed.

Lemma rev_involutive s : String.rev (String.rev s) = s.
Proof.
  induction s as [|c s IH]; [reflexivity|].
  rewrite rev_cons.
  assert (H : forall a b, String.rev (a +:+ b) = String.rev b +:+ String.rev a).
  { clear. induction a as [|x a IHa]; intros b.
    - rewrite append_nil. symmetry. apply append_nil_r.
    - rewrite append_cons, !rev_cons, IHa, append_assoc. reflexivity. }
  rewrite H, IH. reflexivity.
Qed.

Lemma matchesDateShape_iso tok : matchesDateShape tok = true <-> isoShape tok.
Proof.
  split.
  - intros Hs. pose proof (join_split "-" tok) as Hj.
    unfold matchesDateShape in Hs.
    destruct (Str.split "-" tok) as [|y [|m [|d [|? ?]]]]; try discriminate Hs.
    repeat (apply andb_prop in Hs as [Hs ?]).
    exists y, m, d.
    split; [symmetry; exact Hj|].
    repeat split; try assumption; apply Nat.eqb_eq; assumption.
  - intros (y & m & d & -> & Hy & Hm & Hd & Ly & Lm & Ld).
    unfold matchesDateShape, Str.split.
    rewrite (splitGo_digits "-" y "" _ Hy eq_refl).
    change ("-" +:+ m +:+ "-" +:+ d) with (String "-"%char (m +:+ "-" +:+ d)).
    simpl Str.splitGo.
    rewrite (splitGo_digits "-" m "" _ Hm eq_refl).
    change ("-" +:+ d) with (String "-"%char d).
    simpl Str.splitGo.
    rewrite <- (append_nil_r d) at 1.
    rewrite (splitGo_digits "-" d "" _ Hd eq_refl). simpl Str.splitGo.
    fold (String.rev y) (String.rev m) (String.rev d).
    rewrite !rev_involutive, Hy, Hm, Hd, Ly, Lm, Ld. reflexivity.
Qed.

End DateText.

(** C8. [today] resolves to the projection of the commit's instant into the
    time zone, [yesterday] to the calendar day before it, a token of the
    exact YYYY-MM-DD shape to itself whatever its month and day (so
    2026-02-30 is accepted), and every other token, like a missing one, to
    [null].  For [yesterday] the projection is a well-formed date whose year
    is outside 0..99, which [Date.UTC] reads as 1900..1999, and within the
    range of [Date]. *)
Theorem date_resolution :
  (forall tz, resolveDateToken (Some "today") tz = Some (datePartsToString (Some tz)))
  /\ (forall tz,
      validDate tz -> (year tz < 0 \/ 99 < year tz) ->
      -270000 <= year tz <= 270000 ->
      resolveDateToken (Some "yesterday") tz
      = Some (datePartsToString (Some (previousDay tz))))
  /\ (forall tok tz, isoShape tok -> resolveDateToken (Some tok) tz = Some tok)
  /\ (forall tz, resolveDateToken (Some "2026-02-30") tz = Some "2026-02-30")
  /\ (forall tok tz,
      tok <> "today" -> tok <> "yesterday" -> ~ isoShape tok ->
      resolveDateToken (Some tok) tz = None)
  /\ (forall tz, resolveDateToken None tz = None).
Proof.
  split; [intros tz; reflexivity|].
  split.
  { intros tz Hv Hq Hr. unfold resolveDateToken.
    change (String.eqb "yesterday" "today") with false.
    change (String.eqb "yesterday" "yesterday") with true.
    cbv beta iota. change (Str.isEmpty "yesterday") with false. cbv iota.
    rewrite (addDays_yesterday tz Hv Hq Hr). reflexivity. }
  split.
  { intros tok tz Hs. apply resolve_shape. apply matchesDateShape_iso. exact Hs. }
  split.
  { intros tz. apply resolve_shape. reflexivity. }
  split; [|intros tz; reflexivity].
  intros tok tz Ht Hy Hs. unfold resolveDateToken.
  destruct (Str.isEmpty tok); [reflexivity|].
  destruct (String.eqb_spec tok "today"); [congruence|].
  destruct (String.eqb_spec tok "yesterday"); [congruence|].
  unfold parseDateString.
  destruct (matchesDateShape tok) eqn:Hm; [|reflexivity].
  exfalso. apply Hs. apply matchesDateShape_iso. exact Hm.
Qed.

Lemma date_resolution_witness :
  resolveDateToken (Some "yesterday") (mkDate 2024 3 1)
  = Some (datePartsToString (Some (previousDay (mkDate 2024 3 1))))
  /\ resolveDateToken (Some "2026-13-99") (mkDate 2024 3 1) = Some "2026-13-99"
  /\ resolveDateToken (Some "tomorrow") (mkDate 2024 3 1) = None.
Proof.
  split; [|split].
  - refine (proj1 (proj2 date_resolution) (mkDate 2024 3 1) _ _ _).
    + split; vm_compute; split; discriminate.
    + right. vm_compute. reflexivity.
    + split; vm_compute; discriminate.
  - refine (proj1 (proj2 (proj2 date_resolution)) "2026-13-99" (mkDate 2024 3 1) _).
    exists "2026", "13", "99". repeat split.
  - refine (proj1 (proj2 (proj2 (proj2 (proj2 date_resolution))))
              "tomorrow" (mkDate 2024 3 1) _ _ _).
    + discriminate.
    + discriminate.
    + intros Hs. apply matchesDateShape_iso in Hs. discriminate Hs.
Defined.

(** ** Alias precedence *)

Section AliasPrecedence.

Lemma isEmpty_true s : Str.isEmpty s = true <-> s = "".
Proof. destruct s; simpl; split; congruence. Qed.

Lemma addAlias_preserve key m alias n v :
  m !! n = Some v -> addAlias key m alias !! n = Some v.
Proof.
  intros Hn. unfold addAlias.
  destruct (Str.isEmpty (normalizeToken alias)); simpl; [exact Hn|].
  destruct (bool_decide_reflect (is_Some (m !! normalizeToken alias))) as [Hs|Hs];
    simpl; [exact Hn|].
  rewrite lookup_insert_ne; [exact Hn|].
  intros Heq. apply Hs. rewrite Heq, Hn. eauto.
Qed.

Lemma fold_addAlias_preserve key aliases : forall m n v,
  m !! n = Some v -> fold_left (addAlias key) aliases m !! n = Some v.
Proof.
  induction aliases as [|a aliases IH]; intros m n v Hn; simpl; [exact Hn|].
  apply IH. apply addAlias_preserve. exact Hn.
Qed.

Lemma addKey_canonical m k aliases :
  normalizeToken k <> "" -> addKey m (k, aliases) !! normalizeToken k = Some k.
Proof.
  intros Hne. unfold addKey. apply fold_addAlias_preserve.
  destruct (Str.isEmpty (normalizeToken k)) eqn:He.
  - apply isEmpty_true in He. contradiction.
  - simpl. apply lookup_insert_eq.
Qed.

Lemma addKey_other m k aliases n v :
  normalizeToken k <> n -> m !! n = Some v -> addKey m (k, aliases) !! n = Some v.
Proof.
  intros Hne Hn. unfold addKey. apply fold_addAlias_preserve.
  destruct (Str.isEmpty (normalizeToken k)); simpl; [exact Hn|].
  rewrite lookup_insert_ne; assumption.
Qed.

Lemma canonical_key_wins tags : forall m k,
  In k (map fst tags) ->
  normalizeToken k <> "" ->
  (forall k', In k' (map fst tags) -> normalizeToken k' = normalizeToken k -> k' = k) ->
  fold_left addKey tags m !! normalizeToken k = Some k.
Proof.
  induction tags as [|[k' aliases'] tags IH] using rev_ind; intros m k Hin Hne Huniq.
  - contradiction.
  - rewrite fold_left_app. simpl fold_left.
    destruct (String.eq_dec (normalizeToken k') (normalizeToken k)) as [Heq|Hneq].
    + assert (k' = k) as ->.
      { apply Huniq; [|exact Heq]. rewrite map_app, in_app_iff. right. left. reflexivity. }
      apply addKey_canonical. exact Hne.
    + apply addKey_other; [exact Hneq|].
      apply IH; [|exact Hne|].
      * rewrite map_app, in_app_iff in Hin. destruct Hin as [Hin|[Hin|[]]]; [exact Hin|].
        simpl in Hin. subst k'. congruence.
      * intros k0 Hk0. apply Huniq. rewrite map_app, in_app_iff. left. exact Hk0.
Qed.

Lemma normalizeToken_empty : normalizeToken "" = "".
Proof. reflexivity. Qed.

Lemma normalizeTags_single raw idx k :
  normalizeToken raw <> "" -> k <> "" ->
  tiAliasMap idx !! normalizeToken raw = Some k ->
  normalizeTags [raw] idx = [k].
Proof.
  intros Hne Hk Hl. unfold normalizeTags. simpl. unfold normalizeStep.
  destruct (Str.isEmpty (normalizeToken raw)) eqn:He.
  { apply isEmpty_true in He. contradiction. }
  rewrite Hl.
  destruct (Str.isEmpty k) eqn:Hek.
  { apply isEmpty_true in Hek. contradiction. }
  reflexivity.
Qed.

End AliasPrecedence.

(** C5, as amended. When a canonical key has a non-empty normalized form
    that no other canonical key shares, and an alias declared under a
    different key has the same normalized form, a raw token with that
    normalized form resolves to the canonical key itself, in whatever order
    the keys appear in the configuration. *)
Theorem alias_precedence cfg cfg' k other aliases alias raw :
  Permutation (cfgTags cfg) (cfgTags cfg') ->
  In k (map fst (cfgTags cfg)) ->
  In (other, aliases) (cfgTags cfg) -> other <> k -> In alias aliases ->
  normalizeToken alias = normalizeToken k ->
  normalizeToken raw = normalizeToken k ->
  normalizeToken k <> "" ->
  (forall k', In k' (map fst (cfgTags cfg)) ->
              normalizeToken k' = normalizeToken k -> k' = k) ->
  normalizeTags [raw] (loadTags cfg) = [k]
  /\ normalizeTags [raw] (loadTags cfg') = [k].
Proof.
  intros Hperm Hin _ _ _ _ Hraw Hne Huniq.
  assert (Hk : k <> "").
  { intros ->. apply Hne. reflexivity. }
  assert (Hperm' : Permutation (map fst (cfgTags cfg)) (map fst (cfgTags cfg')))
    by (apply Permutation_map; exact Hperm).
  split; apply normalizeTags_single; try (rewrite Hraw; assumption); try assumption;
    rewrite Hraw; unfold loadTags; simpl; apply canonical_key_wins; try assumption.
  - eapply Permutation_in; eassumption.
  - intros k' Hk'. apply Huniq. eapply Permutation_in; [symmetry|]; eassumption.
Qed.

Lemma alias_precedence_witness :
  normalizeTags ["#Study"] (loadTags (mkTagConfig None [("other", ["Study!"]); ("study", [])]))
  = ["study"]
  /\ normalizeTags ["#Study"] (loadTags (mkTagConfig None [("study", []); ("other", ["Study!"])]))
     = ["study"].
Proof.
  refine (alias_precedence
            (mkTagConfig None [("other", ["Study!"]); ("study", [])])
            (mkTagConfig None [("study", []); ("other", ["Study!"])])
            "study" "other" ["Study!"] "Study!" "#Study" _ _ _ _ _ _ _ _ _).
  - apply perm_swap.
  - simpl. auto.
  - simpl. auto.
  - discriminate.
  - simpl. auto.
  - reflexivity.
  - reflexivity.
  - discriminate.
  - intros k' Hk' Hn. simpl in Hk'.
    destruct Hk' as [<-|[<-|[]]]; [vm_compute in Hn; discriminate | reflexivity].
Defined.

(** The claim as first stated fails when two canonical keys share a
    normalized form (the later key wins) and when the shared normalized form
    is empty (nothing is looked up). *)
Lemma alias_precedence_counterexample :
  (let cfg := mkTagConfig None [("a-b", []); ("ab", ["a.b"])] in
   In "a-b" (map fst (cfgTags cfg))
   /\ In ("ab", ["a.b"]) (cfgTags cfg) /\ "ab" <> "a-b" /\ In "a.b" ["a.b"]
   /\ normalizeToken "a.b" = normalizeToken "a-b"
   /\ normalizeToken "ab" = normalizeToken "a-b"
   /\ normalizeTags ["ab"] (loadTags cfg) = ["ab"]
   /\ normalizeTags ["ab"] (loadTags cfg) <> ["a-b"])
  /\ (let cfg := mkTagConfig None [("!", []); ("x", ["?"])] in
      In "!" (map fst (cfgTags cfg))
      /\ In ("x", ["?"]) (cfgTags cfg) /\ "x" <> "!" /\ In "?" ["?"]
      /\ normalizeToken "?" = normalizeToken "!"
      /\ normalizeTags ["!"] (loadTags cfg) = []
      /\ normalizeTags ["!"] (loadTags cfg) <> ["!"]).
Proof.
  simpl. repeat split; try (vm_compute; reflexivity); try discriminate; auto.
Qed.

(** ** The classifier stage *)

Section ClassifierStage.

Lemma normalizeTagsLLM_hit classify canonical tags nt w :
  cacheHit w tags nt = true ->
  normalizeTagsLLM classify canonical tags nt w
  = (LlmReturned (default JUndefined (cacheFile w !! Json.stringifyKey tags nt)), w).
Proof. unfold cacheHit, normalizeTagsLLM. intros ->. reflexivity. Qed.

Lemma normalizeTagsLLM_threw classify canonical tags nt w message :
  cacheHit w tags nt = false ->
  classify (length (requests w)) (mkRequest canonical tags nt) = Threw message ->
  normalizeTagsLLM classify canonical tags nt w
  = (LlmThrew message, addRequest (mkRequest canonical tags nt) w).
Proof. unfold cacheHit, normalizeTagsLLM. intros -> ->. reflexivity. Qed.

Lemma normalizeTagsLLM_rejected classify canonical tags nt w value :
  cacheHit w tags nt = false ->
  classify (length (requests w)) (mkRequest canonical tags nt) = Replied value ->
  sanitizeResult value canonical = None ->
  normalizeTagsLLM classify canonical tags nt w
  = (LlmReturned JNull, addRequest (mkRequest canonical tags nt) w).
Proof. unfold cacheHit, normalizeTagsLLM. intros -> -> ->. reflexivity. Qed.

Lemma normalizeTagsLLM_accepted classify canonical tags nt w value sanitized :
  cacheHit w tags nt = false ->
  classify (length (requests w)) (mkRequest canonical tags nt) = Replied value ->
  sanitizeResult value canonical = Some sanitized ->
  exists w',
    normalizeTagsLLM classify canonical tags nt w = (LlmReturned sanitized, w')
    /\ requests w' = requests w ++ [mkRequest canonical tags nt]
    /\ cacheFile w' = <[Json.stringifyKey tags nt := Json.persisted sanitized]> (cacheFile w)
    /\ dayFiles w' = dayFiles w.
Proof.
  unfold cacheHit, normalizeTagsLLM. intros -> -> ->.
  eexists. split; [reflexivity|]. simpl. auto.
Qed.

Lemma sanitizeResult_object value canonical sanitized :
  sanitizeResult value canonical = Some sanitized ->
  truthy sanitized = true /\ truthy (Json.persisted sanitized) = true
  /\ includesValue canonical (jget "primary" sanitized) = true.
Proof.
  unfold sanitizeResult. intros H.
  destruct value; try discriminate;
    destruct (includesValue canonical _) eqn:Hp; try discriminate;
    simpl in H; inversion H; subst; simpl; auto.
Qed.

(** What a call of the classifier stage leaves alone. *)
Lemma normalizeTagsLLM_frame classify canonical tags nt w :
  let w' := snd (normalizeTagsLLM classify canonical tags nt w) in
  dayFiles w' = dayFiles w
  /\ errorsFile w' = errorsFile w
  /\ stateFile w' = stateFile w
  /\ (requests w' = requests w
      \/ (cacheHit w tags nt = false
          /\ requests w' = requests w ++ [mkRequest canonical tags nt]))
  /\ (forall k, truthy (default JUndefined (cacheFile w !! k)) = true ->
                cacheFile w' !! k = cacheFile w !! k).
Proof.
  unfold normalizeTagsLLM. fold (cacheHit w tags nt).
  destruct (cacheHit w tags nt) eqn:Hhit; simpl.
  { repeat split; auto. }
  destruct (classify _ _) as [message|value]; simpl.
  { repeat split; auto. }
  destruct (sanitizeResult value canonical) as [sanitized|]; simpl.
  - repeat split; auto. intros k Hk. apply lookup_insert_ne.
    intros <-. unfold cacheHit in Hhit. congruence.
  - repeat split; auto.
Qed.

End ClassifierStage.

(** ** The coordinator, line by line *)

Section Coordinator.

Lemma processLine_valid env idx tz commit st i line p ds h :
  validLine env tz commit line p ds h ->
  processLine env idx tz commit st i line =
    (let ns := normalizeLine env idx (entryId (sha commit) i) commit line p st in
     let es := storeEntry env tz (entryId (sha commit) i) ds h commit p (fst ns) (snd ns) in
     (snd es, S i, Some (fst es))).
Proof.
  intros (Hp & Hd & He & Hh). unfold processLine. rewrite Hp. cbv beta iota zeta.
  rewrite Hd, Hh, He.
  destruct (normalizeLine _ _ _ _ _ _ _) as [n st1]. simpl fst; simpl snd.
  destruct (storeEntry _ _ _ _ _ _ _ _ _) as [ev st2]. reflexivity.
Qed.

Lemma normalizeLine_frame env idx id commit line p st :
  let st' := snd (normalizeLine env idx id commit line p st) in
  dayFiles (rWorld st') = dayFiles (rWorld st)
  /\ addedCount st' = addedCount st
  /\ skippedCount st' = skippedCount st
  /\ errorCount st' = errorCount st
  /\ (forall k, truthy (default JUndefined (cacheFile (rWorld st) !! k)) = true ->
                cacheFile (rWorld st') !! k = cacheFile (rWorld st) !! k).
Proof.
  unfold normalizeLine.
  destruct ((length (normalizeTags (rawTags p) idx) =? 0)%nat && envLlmEnabled env);
    [|simpl; auto].
  pose proof (normalizeTagsLLM_frame (envClassify env) (tiCanonical idx)
                (rawTags p) (note p) (rWorld st)) as (Hd & _ & _ & _ & Hc).
  destruct (normalizeTagsLLM _ _ _ _ _) as [[message|value] w']; simpl in *.
  - auto.
  - destruct (truthy value); simpl; auto.
Qed.


Lemma normalizeLine_disabled env idx id commit line p st :
  normalizeTags (rawTags p) idx = [] -> envLlmEnabled env = false ->
  normalizeLine env idx id commit line p st = (fallbackResult, st).
Proof.
  intros Hn He. unfold normalizeLine. rewrite Hn, He. reflexivity.
Qed.

Lemma storeEntry_present env tz id ds h commit p n st :
  hasId (dayFiles (rWorld st)) ds id = true ->
  storeEntry env tz id ds h commit p n st =
    (EvSkipped id,
     mkRun (rWorld st) (rErrors st) (addedCount st) (S (skippedCount st)) (errorCount st)).
Proof.
  unfold hasId, storeEntry. intros H.
  destruct (dayFiles (rWorld st) !! ds) as [daily|]; [|discriminate].
  simpl. rewrite H. reflexivity.
Qed.

Lemma storeEntry_absent env tz id ds h commit p n st :
  hasId (dayFiles (rWorld st)) ds id = false ->
  let daily := default (mkDaily ds tz []) (dayFiles (rWorld st) !! ds) in
  let entry := mkEntry id (dateStr commit) h p (primary n) (secondary n)
                       (confidence n) (method n) (envRepo env) (sha commit) in
  storeEntry env tz id ds h commit p n st =
    (EvAdded id,
     mkRun (setDayFiles
              (<[ds := mkDaily (dDate daily) (dTimezone daily) (dEntries daily ++ [entry])]>
                 (dayFiles (rWorld st))) (rWorld st))
           (rErrors st) (S (addedCount st)) (skippedCount st) (errorCount st)).
Proof.
  unfold hasId, storeEntry. intros H.
  destruct (dayFiles (rWorld st) !! ds) as [daily|]; simpl.
  - rewrite H. reflexivity.
  - reflexivity.
Qed.

Lemma processLine_outcome env idx tz commit st i line p ds h :
  validLine env tz commit line p ds h ->
  let id := entryId (sha commit) i in
  let n := fst (normalizeLine env idx id commit line p st) in
  let st1 := snd (normalizeLine env idx id commit line p st) in
  processLine env idx tz commit st i line =
    if hasId (dayFiles (rWorld st)) ds id then
      (mkRun (rWorld st1) (rErrors st1) (addedCount st) (S (skippedCount st))
             (errorCount st),
       S i, Some (EvSkipped id))
    else
      (mkRun (setDayFiles
                (appendEntry tz ds (newEntry env id commit h p n) (dayFiles (rWorld st)))
                (rWorld st1))
             (rErrors st1) (S (addedCount st)) (skippedCount st) (errorCount st),
       S i, Some (EvAdded id)).
Proof.
  intros Hv id n st1. rewrite (processLine_valid _ _ _ _ _ _ _ _ _ _ Hv).
  cbv zeta. fold id. fold n st1.
  pose proof (normalizeLine_frame env idx id commit line p st) as (Hd & Ha & Hs & He & _).
  fold st1 in Hd, Ha, Hs, He.
  destruct (hasId (dayFiles (rWorld st)) ds id) eqn:Hh.
  - rewrite storeEntry_present by (rewrite Hd; exact Hh).
    rewrite Ha, Hs, He. reflexivity.
  - rewrite storeEntry_absent by (rewrite Hd; exact Hh).
    unfold appendEntry, newEntry. rewrite Hd, Ha, Hs, He. reflexivity.
Qed.

(** Every line either leaves the run state alone apart from recording an
    error, or goes through the classifier stage and the store. *)
Lemma processLine_cases env idx tz commit st i line :
  (isRecognized line = false
   /\ processLine env idx tz commit st i line = (st, i, None))
  \/ (isRecognized line = true
      /\ processLine env idx tz commit st i line =
           (mkRun (rWorld st)
                  (recordError (rErrors st)
                     (mkError (entryId (sha commit) i) (sha commit) line
                              "invalid date or duration"))
                  (addedCount st) (skippedCount st) (S (errorCount st)),
            S i, Some (EvErrored (entryId (sha commit) i))))
  \/ (isRecognized line = true
      /\ exists p ds h, validLine env tz commit line p ds h).
Proof.
  unfold isRecognized, processLine.
  destruct (parseTimeLine line) as [|msg|p] eqn:Hp.
  - left. auto.
  - right. left. auto.
  - right.
    destruct (resolveDateToken (Some (dateToken p)) _) as [ds|] eqn:Hd; [|left; auto].
    destruct (parseDuration (durationToken p)) as [h|] eqn:Hh; [|left; auto].
    destruct (Str.isEmpty ds) eqn:He; [left; auto|].
    right. split; [reflexivity|]. exists p, ds, h. repeat split; assumption.
Qed.

Lemma processLine_id env idx tz commit st i line :
  let r := processLine env idx tz commit st i line in
  if isRecognized line
  then snd (fst r) = S i
       /\ exists ev, snd r = Some ev /\ eventId ev = entryId (sha commit) i
  else r = (st, i, None).
Proof.
  destruct (processLine_cases env idx tz commit st i line)
    as [[Hr He]|[[Hr He]|[Hr (p & ds & h & Hv)]]]; rewrite Hr; cbv zeta.
  - exact He.
  - rewrite He. simpl. eauto.
  - rewrite (processLine_outcome _ _ _ _ _ _ _ _ _ _ Hv).
    destruct (hasId _ _ _); simpl; eauto.
Qed.

Lemma processLines_ids env idx tz commit lines : forall st i,
  map eventId (snd (processLines env idx tz commit lines st i))
  = map (entryId (sha commit)) (seq i (recognizedCount lines)).
Proof.
  induction lines as [|line lines IH]; intros st i; [reflexivity|].
  simpl processLines.
  pose proof (processLine_id env idx tz commit st i line) as Hid. cbv zeta in Hid.
  destruct (processLine env idx tz commit st i line) as [[st1 i1] ev] eqn:E.
  specialize (IH st1 i1).
  destruct (processLines env idx tz commit lines st1 i1) as [st2 evs] eqn:E2.
  unfold recognizedCount. simpl List.filter.
  destruct (isRecognized line).
  - simpl in Hid. destruct Hid as [-> (e & -> & He)].
    simpl. rewrite He. f_equal. exact IH.
  - inversion Hid; subst. exact IH.
Qed.

Lemma processCommits_ids env idx tz commits : forall st,
  map eventId (snd (processCommits env idx tz commits st))
  = flat_map (fun c => map (entryId (sha c))
                           (seq 0 (recognizedCount (splitLines (body c))))) commits.
Proof.
  induction commits as [|c commits IH]; intros st; [reflexivity|].
  simpl processCommits.
  pose proof (processLines_ids env idx tz c (splitLines (body c)) st 0) as H1.
  fold (processCommit env idx tz st c) in H1.
  destruct (processCommit env idx tz st c) as [st1 evs1].
  specialize (IH st1).
  destruct (processCommits env idx tz commits st1) as [st2 evs2].
  simpl in *. rewrite map_app, H1, IH. reflexivity.
Qed.

Lemma short_line_recognized line body :
  stripTimeMarker (Str.trim line) = Some body ->
  (length (Str.tokens body) < 2)%nat ->
  parseTimeLine line = LineError "missing date or duration"
  /\ isRecognized line = true.
Proof.
  intros Hm Hl. unfold isRecognized, parseTimeLine. rewrite Hm.
  destruct (Str.tokens body) as [|a [|b rest]]; simpl in Hl; try lia; auto.
Qed.

Lemma skip_existing env idx tz commit st i line p ds h :
  validLine env tz commit line p ds h ->
  hasId (dayFiles (rWorld st)) ds (entryId (sha commit) i) = true ->
  let r := processLine env idx tz commit st i line in
  let st' := fst (fst r) in
  snd r = Some (EvSkipped (entryId (sha commit) i))
  /\ skippedCount st' = S (skippedCount st)
  /\ errorCount st' = errorCount st
  /\ addedCount st' = addedCount st
  /\ dayFiles (rWorld st') = dayFiles (rWorld st).
Proof.
  intros Hv Hh r st'. subst r st'.
  rewrite (processLine_outcome _ _ _ _ _ _ _ _ _ _ Hv), Hh. simpl.
  pose proof (normalizeLine_frame env idx (entryId (sha commit) i) commit line p st)
    as (Hd & _).
  auto.
Qed.

Lemma normalizeLine_hit env idx id commit line p st cached :
  normalizeTags (rawTags p) idx = [] -> envLlmEnabled env = true ->
  cacheFile (rWorld st) !! Json.stringifyKey (rawTags p) (note p) = Some cached ->
  truthy cached = true ->
  normalizeLine env idx id commit line p st =
    (mkNormalized (jget "primary" cached)
                  (orElse (jget "secondary" cached) (JArr []))
                  (orElse (jget "confidence" cached) (JNum 0)) "llm",
     st).
Proof.
  intros Hn He Hc Ht. unfold normalizeLine. rewrite Hn, He. simpl andb. cbv iota.
  rewrite normalizeTagsLLM_hit by (unfold cacheHit; rewrite Hc; exact Ht).
  rewrite Hc. simpl default. rewrite Ht. destruct st; reflexivity.
Qed.

Lemma normalizeLine_threw env idx id commit line p st message :
  normalizeTags (rawTags p) idx = [] -> envLlmEnabled env = true ->
  cacheHit (rWorld st) (rawTags p) (note p) = false ->
  envClassify env (length (requests (rWorld st)))
    (mkRequest (tiCanonical idx) (rawTags p) (note p)) = Threw message ->
  normalizeLine env idx id commit line p st =
    (fallbackResult,
     mkRun (addRequest (mkRequest (tiCanonical idx) (rawTags p) (note p)) (rWorld st))
           (rErrors st ++ [mkError id (sha commit) line ("llm_error:" +:+ message)])
           (addedCount st) (skippedCount st) (errorCount st)).
Proof.
  intros Hn He Hc Ho. unfold normalizeLine. rewrite Hn, He. simpl andb. cbv iota.
  rewrite (normalizeTagsLLM_threw _ _ _ _ _ message Hc Ho). reflexivity.
Qed.

Lemma normalizeLine_rejected env idx id commit line p st value :
  normalizeTags (rawTags p) idx = [] -> envLlmEnabled env = true ->
  cacheHit (rWorld st) (rawTags p) (note p) = false ->
  envClassify env (length (requests (rWorld st)))
    (mkRequest (tiCanonical idx) (rawTags p) (note p)) = Replied value ->
  sanitizeResult value (tiCanonical idx) = None ->
  normalizeLine env idx id commit line p st =
    (fallbackResult,
     mkRun (addRequest (mkRequest (tiCanonical idx) (rawTags p) (note p)) (rWorld st))
           (rErrors st) (addedCount st) (skippedCount st) (errorCount st)).
Proof.
  intros Hn He Hc Ho Hs. unfold normalizeLine. rewrite Hn, He. simpl andb. cbv iota.
  rewrite (normalizeTagsLLM_rejected _ _ _ _ _ value Hc Ho Hs). reflexivity.
Qed.

(** The classifier stage of any line: at most one request, sent only on a
    cache miss for the line's own key; cached results are never replaced. *)
Lemma processLine_classifier env idx tz commit st i line :
  let w := rWorld st in
  let w' := rWorld (fst (fst (processLine env idx tz commit st i line))) in
  (requests w' = requests w
   \/ exists p, cacheHit w (rawTags p) (note p) = false
                /\ requests w' = requests w
                     ++ [mkRequest (tiCanonical idx) (rawTags p) (note p)])
  /\ (forall k, truthy (default JUndefined (cacheFile w !! k)) = true ->
                cacheFile w' !! k = cacheFile w !! k).
Proof.
  destruct (processLine_cases env idx tz commit st i line)
    as [[_ He]|[[_ He]|[_ (p & ds & h & Hv)]]]; cbv zeta.
  - rewrite He. simpl. auto.
  - rewrite He. simpl. auto.
  - rewrite (processLine_outcome _ _ _ _ _ _ _ _ _ _ Hv).
    set (id := entryId (sha commit) i).
    assert (Hgoal :
      (requests (rWorld (snd (normalizeLine env idx id commit line p st)))
       = requests (rWorld st)
       \/ exists p0, cacheHit (rWorld st) (rawTags p0) (note p0) = false
             /\ requests (rWorld (snd (normalizeLine env idx id commit line p st)))
                = requests (rWorld st)
                    ++ [mkRequest (tiCanonical idx) (rawTags p0) (note p0)])
      /\ (forall k, truthy (default JUndefined (cacheFile (rWorld st) !! k)) = true ->
            cacheFile (rWorld (snd (normalizeLine env idx id commit line p st))) !! k
            = cacheFile (rWorld st) !! k)).
    { split; [|apply normalizeLine_frame].
      unfold normalizeLine.
      destruct ((length (normalizeTags (rawTags p) idx) =? 0)%nat && envLlmEnabled env);
        [|left; reflexivity].
      pose proof (normalizeTagsLLM_frame (envClassify env) (tiCanonical idx)
                    (rawTags p) (note p) (rWorld st)) as (_ & _ & _ & Hr & _).
      destruct (normalizeTagsLLM _ _ _ _ _) as [[message|value] w1]; simpl in *.
      - destruct Hr as [Hr|[Hm Hr]]; [left; exact Hr | right; exists p; auto].
      - destruct (truthy value); simpl;
          (destruct Hr as [Hr|[Hm Hr]]; [left; exact Hr | right; exists p; auto]). }
    destruct (hasId (dayFiles (rWorld st)) ds id); simpl; exact Hgoal.
Qed.

Lemma countKey_app tags nt l r :
  countKey tags nt (l ++ [r])
  = (countKey tags nt l + (if sameKey tags nt r then 1 else 0))%nat.
Proof.
  unfold countKey. rewrite List.filter_app, length_app. simpl.
  destruct (sameKey tags nt r); reflexivity.
Qed.

Lemma cached_key_quiet_line env idx tz commit st i line tags nt :
  cacheHit (rWorld st) tags nt = true ->
  let st' := fst (fst (processLine env idx tz commit st i line)) in
  cacheHit (rWorld st') tags nt = true
  /\ countKey tags nt (requests (rWorld st')) = countKey tags nt (requests (rWorld st)).
Proof.
  intros Hhit st'.
  destruct (processLine_classifier env idx tz commit st i line) as [Hr Hc].
  fold st' in Hr, Hc. split.
  - unfold cacheHit in *. rewrite Hc; assumption.
  - destruct Hr as [->|(p & Hmiss & ->)]; [reflexivity|].
    rewrite countKey_app. unfold sameKey. simpl.
    destruct (bool_decide_reflect (rawTags p = tags /\ note p = nt)) as [[<- <-]|_];
      [congruence | lia].
Qed.

Lemma cached_key_quiet_lines env idx tz commit lines tags nt : forall st i,
  cacheHit (rWorld st) tags nt = true ->
  let st' := fst (processLines env idx tz commit lines st i) in
  cacheHit (rWorld st') tags nt = true
  /\ countKey tags nt (requests (rWorld st')) = countKey tags nt (requests (rWorld st)).
Proof.
  induction lines as [|line lines IH]; intros st i Hhit; [simpl; auto|].
  simpl processLines.
  pose proof (cached_key_quiet_line env idx tz commit st i line tags nt Hhit) as H1.
  cbv zeta in H1.
  destruct (processLine env idx tz commit st i line) as [[st1 i1] ev].
  simpl in H1. destruct H1 as [Hhit1 Hc1].
  specialize (IH st1 i1 Hhit1). cbv zeta in IH.
  destruct (processLines env idx tz commit lines st1 i1) as [st2 evs].
  simpl in *. destruct IH as [Hhit2 Hc2]. split; [assumption | congruence].
Qed.

Lemma cached_key_quiet_commits env idx tz commits tags nt : forall st,
  cacheHit (rWorld st) tags nt = true ->
  let st' := fst (processCommits env idx tz commits st) in
  cacheHit (rWorld st') tags nt = true
  /\ countKey tags nt (requests (rWorld st')) = countKey tags nt (requests (rWorld st)).
Proof.
  induction commits as [|c commits IH]; intros st Hhit; [simpl; auto|].
  simpl processCommits.
  pose proof (cached_key_quiet_lines env idx tz c (splitLines (body c)) tags nt st 0 Hhit)
    as H1. cbv zeta in H1. fold (processCommit env idx tz st c) in H1.
  destruct (processCommit env idx tz st c) as [st1 evs1].
  simpl in H1. destruct H1 as [Hhit1 Hc1].
  specialize (IH st1 Hhit1). cbv zeta in IH.
  destruct (processCommits env idx tz commits st1) as [st2 evs2].
  simpl in *. destruct IH as [Hhit2 Hc2]. split; [assumption | congruence].
Qed.

Lemma first_request_cached env idx tz commit st i line p ds h value sanitized :
  validLine env tz commit line p ds h ->
  normalizeTags (rawTags p) idx = [] -> envLlmEnabled env = true ->
  cacheHit (rWorld st) (rawTags p) (note p) = false ->
  envClassify env (length (requests (rWorld st)))
    (mkRequest (tiCanonical idx) (rawTags p) (note p)) = Replied value ->
  sanitizeResult value (tiCanonical idx) = Some sanitized ->
  let st' := fst (fst (processLine env idx tz commit st i line)) in
  cacheHit (rWorld st') (rawTags p) (note p) = true
  /\ requests (rWorld st')
     = requests (rWorld st) ++ [mkRequest (tiCanonical idx) (rawTags p) (note p)].
Proof.
  intros Hv Hn He Hmiss Ho Hs st'. subst st'.
  rewrite (processLine_outcome _ _ _ _ _ _ _ _ _ _ Hv).
  set (id := entryId (sha commit) i).
  destruct (normalizeTagsLLM_accepted _ _ _ _ _ value sanitized Hmiss Ho Hs)
    as (w' & Hllm & Hreq & Hcache & _).
  destruct (sanitizeResult_object _ _ _ Hs) as (Ht & Htp & _).
  assert (Hnl : rWorld (snd (normalizeLine env idx id commit line p st)) = w').
  { unfold normalizeLine. rewrite Hn, He. simpl andb. cbv iota.
    rewrite Hllm, Ht. reflexivity. }
  assert (Hhit : cacheHit w' (rawTags p) (note p) = true).
  { unfold cacheHit. rewrite Hcache, lookup_insert_eq. exact Htp. }
  destruct (hasId (dayFiles (rWorld st)) ds id); simpl; rewrite Hnl; auto.
Qed.

End Coordinator.

(** ** Replaying a history *)

Section Replay.

Lemma storeGrows_refl files : storeGrows files files.
Proof. intros ds id H. exact H. Qed.

Lemma storeGrows_trans f1 f2 f3 : storeGrows f1 f2 -> storeGrows f2 f3 -> storeGrows f1 f3.
Proof. intros H1 H2 ds id H. apply H2, H1, H. Qed.

Lemma appendEntry_hasId tz ds entry files ds' id' :
  hasId (appendEntry tz ds entry files) ds' id'
  = hasId files ds' id' || (String.eqb ds ds' && String.eqb (eId entry) id').
Proof.
  unfold hasId, appendEntry.
  destruct (String.eqb_spec ds ds') as [<-|Hne].
  - rewrite lookup_insert_eq. simpl.
    destruct (files !! ds) as [daily|]; simpl.
    + rewrite existsb_app. simpl. rewrite orb_false_r. reflexivity.
    + rewrite orb_false_r. reflexivity.
  - rewrite lookup_insert_ne by exact Hne. simpl. rewrite orb_false_r. reflexivity.
Qed.

Lemma validLine_target env tz commit i line p ds h :
  validLine env tz commit line p ds h ->
  lineTarget (envTzParts env) tz commit i line = Some (ds, entryId (sha commit) i).
Proof.
  intros (Hp & Hd & He & Hh). unfold lineTarget. rewrite Hp, Hd, Hh, He. reflexivity.
Qed.

Lemma target_validLine env tz commit i line ds id :
  lineTarget (envTzParts env) tz commit i line = Some (ds, id) ->
  id = entryId (sha commit) i /\ exists p h, validLine env tz commit line p ds h.
Proof.
  unfold lineTarget, validLine.
  destruct (parseTimeLine line) as [| |p]; try discriminate.
  destruct (resolveDateToken _ _) as [ds0|] eqn:Hd; try discriminate.
  destruct (parseDuration _) as [h|] eqn:Hh; try discriminate.
  destruct (Str.isEmpty ds0) eqn:He; try discriminate.
  intros [= <- <-]. split; [reflexivity|]. exists p, h. auto.
Qed.

(** One line: the store only grows, the line's own id is in it afterwards,
    and nothing is written when it was there before. *)
Lemma processLine_store env idx tz commit st i line :
  let r := processLine env idx tz commit st i line in
  let st' := fst (fst r) in
  storeGrows (dayFiles (rWorld st)) (dayFiles (rWorld st'))
  /\ snd (fst r) = (if isRecognized line then S i else i)
  /\ match lineTarget (envTzParts env) tz commit i line with
     | Some (ds, id) =>
         hasId (dayFiles (rWorld st')) ds id = true
         /\ (hasId (dayFiles (rWorld st)) ds id = true ->
             dayFiles (rWorld st') = dayFiles (rWorld st)
             /\ addedCount st' = addedCount st)
     | None => dayFiles (rWorld st') = dayFiles (rWorld st)
               /\ addedCount st' = addedCount st
     end.
Proof.
  destruct (processLine_cases env idx tz commit st i line)
    as [[Hr He]|[[Hr He]|[Hr (p & ds & h & Hv)]]]; cbv zeta; rewrite Hr.
  - rewrite He. simpl. split; [apply storeGrows_refl|]. split; [reflexivity|].
    destruct (lineTarget _ _ _ _ _) as [[ds id]|] eqn:Ht; [|auto].
    apply target_validLine in Ht as [_ (p & h & (Hp & _))].
    unfold isRecognized in Hr. rewrite Hp in Hr. discriminate.
  - assert (Hnone : lineTarget (envTzParts env) tz commit i line = None).
    { destruct (lineTarget _ _ _ _ _) as [[ds id]|] eqn:Ht; [|reflexivity].
      apply target_validLine in Ht as [_ (p & h & Hv)].
      rewrite (processLine_outcome _ _ _ _ _ _ _ _ _ _ Hv) in He.
      destruct (hasId _ _ _); inversion He. }
    rewrite Hnone, He. simpl. split; [apply storeGrows_refl|]. auto.
  - rewrite (validLine_target _ _ _ i _ _ _ _ Hv).
    rewrite (processLine_outcome _ _ _ _ _ _ _ _ _ _ Hv).
    pose proof (normalizeLine_frame env idx (entryId (sha commit) i) commit line p st)
      as (Hd & _).
    destruct (hasId (dayFiles (rWorld st)) ds (entryId (sha commit) i)) eqn:Hh; simpl.
    + rewrite Hd. split; [apply storeGrows_refl|]. split; [reflexivity|].
      split; [exact Hh|]. auto.
    + split.
      { intros ds' id' H. rewrite appendEntry_hasId, H. reflexivity. }
      split; [reflexivity|]. split; [|discriminate].
      rewrite appendEntry_hasId. simpl. rewrite !String.eqb_refl.
      apply orb_true_r.
Qed.

Lemma linesPresent_grows tzp tz commit lines : forall i files files',
  storeGrows files files' ->
  linesPresent tzp tz commit lines i files ->
  linesPresent tzp tz commit lines i files'.
Proof.
  induction lines as [|line lines IH]; intros i files files' Hg; simpl; [auto|].
  intros [H1 H2]. split; [|eapply IH; eassumption].
  destruct (lineTarget tzp tz commit i line) as [[ds id]|]; [apply Hg, H1 | exact I].
Qed.

Lemma processLines_present env idx tz commit lines : forall st i,
  let st' := fst (processLines env idx tz commit lines st i) in
  storeGrows (dayFiles (rWorld st)) (dayFiles (rWorld st'))
  /\ linesPresent (envTzParts env) tz commit lines i (dayFiles (rWorld st')).
Proof.
  induction lines as [|line lines IH]; intros st i.
  - simpl. split; [apply storeGrows_refl | exact I].
  - simpl processLines.
    pose proof (processLine_store env idx tz commit st i line) as H1. cbv zeta in H1.
    destruct (processLine env idx tz commit st i line) as [[st1 i1] ev].
    simpl in H1. destruct H1 as (Hg1 & Hi1 & Ht1). subst i1.
    specialize (IH st1 (if isRecognized line then S i else i)). cbv zeta in IH.
    destruct (processLines env idx tz commit lines st1 _) as [st2 evs].
    simpl in *. destruct IH as [Hg2 Hp2].
    split; [eapply storeGrows_trans; eassumption|].
    split; [|exact Hp2].
    destruct (lineTarget _ _ _ _ _) as [[ds id]|]; [|exact I].
    apply Hg2. apply Ht1.
Qed.

Lemma processCommits_present env idx tz commits : forall st,
  let st' := fst (processCommits env idx tz commits st) in
  storeGrows (dayFiles (rWorld st)) (dayFiles (rWorld st'))
  /\ Forall (commitPresent (envTzParts env) tz (dayFiles (rWorld st'))) commits.
Proof.
  induction commits as [|c commits IH]; intros st.
  - simpl. split; [apply storeGrows_refl | constructor].
  - simpl processCommits.
    pose proof (processLines_present env idx tz c (splitLines (body c)) st 0) as H1.
    cbv zeta in H1. fold (processCommit env idx tz st c) in H1.
    destruct (processCommit env idx tz st c) as [st1 evs1].
    simpl in H1. destruct H1 as [Hg1 Hp1].
    specialize (IH st1). cbv zeta in IH.
    destruct (processCommits env idx tz commits st1) as [st2 evs2].
    simpl in *. destruct IH as [Hg2 Hp2].
    split; [eapply storeGrows_trans; eassumption|].
    constructor; [|exact Hp2].
    unfold commitPresent. eapply linesPresent_grows; eassumption.
Qed.

Lemma processLines_idle env idx tz commit lines : forall st i,
  linesPresent (envTzParts env) tz commit lines i (dayFiles (rWorld st)) ->
  let st' := fst (processLines env idx tz commit lines st i) in
  dayFiles (rWorld st') = dayFiles (rWorld st) /\ addedCount st' = addedCount st.
Proof.
  induction lines as [|line lines IH]; intros st i Hp; [simpl; auto|].
  simpl in Hp. destruct Hp as [Hp1 Hp2].
  simpl processLines.
  pose proof (processLine_store env idx tz commit st i line) as H1. cbv zeta in H1.
  destruct (processLine env idx tz commit st i line) as [[st1 i1] ev].
  simpl in H1. destruct H1 as (_ & Hi1 & Ht1). subst i1.
  assert (Hsame : dayFiles (rWorld st1) = dayFiles (rWorld st)
                  /\ addedCount st1 = addedCount st).
  { destruct (lineTarget _ _ _ _ _) as [[ds id]|]; [apply Ht1, Hp1 | exact Ht1]. }
  destruct Hsame as [Hd Ha].
  specialize (IH st1 (if isRecognized line then S i else i)).
  rewrite Hd in IH. specialize (IH Hp2). cbv zeta in IH.
  destruct (processLines env idx tz commit lines st1 _) as [st2 evs].
  simpl in *. destruct IH as [Hd2 Ha2]. split; congruence.
Qed.

Lemma processCommits_idle env idx tz commits : forall st,
  Forall (commitPresent (envTzParts env) tz (dayFiles (rWorld st))) commits ->
  let st' := fst (processCommits env idx tz commits st) in
  dayFiles (rWorld st') = dayFiles (rWorld st) /\ addedCount st' = addedCount st.
Proof.
  induction commits as [|c commits IH]; intros st Hall; [simpl; auto|].
  inversion Hall as [|? ? Hc Hrest]; subst.
  simpl processCommits.
  pose proof (processLines_idle env idx tz c (splitLines (body c)) st 0 Hc) as H1.
  cbv zeta in H1. fold (processCommit env idx tz st c) in H1.
  destruct (processCommit env idx tz st c) as [st1 evs1].
  simpl in H1. destruct H1 as [Hd1 Ha1].
  specialize (IH st1). rewrite Hd1 in IH. specialize (IH Hrest). cbv zeta in IH.
  destruct (processCommits env idx tz commits st1) as [st2 evs2].
  simpl in *. destruct IH as [Hd2 Ha2]. split; congruence.
Qed.

(** [addCommits]: what ends up in the map. *)
Lemma addCommits_in l : forall acc c,
  In c (addCommits acc l) -> In c acc \/ In c l.
Proof.
  unfold addCommits.
  induction l as [|x l IH]; intros acc c H; simpl in *; [auto|].
  apply IH in H. destruct H as [H|H]; [|auto].
  destruct (existsb _ acc); [auto|].
  apply in_app_iff in H. destruct H as [H|[H|[]]]; auto.
Qed.

Lemma addCommits_keeps l : forall acc c, In c acc -> In c (addCommits acc l).
Proof.
  unfold addCommits.
  induction l as [|x l IH]; intros acc c H; simpl; [exact H|].
  apply IH. destruct (existsb _ acc); [exact H|]. apply in_app_iff. auto.
Qed.

Lemma addCommits_covers l : forall acc c,
  In c l -> exists c', In c' (addCommits acc l) /\ sha c' = sha c.
Proof.
  induction l as [|x l IH]; intros acc c H; [contradiction|].
  destruct H as [->|H].
  - change (addCommits acc (c :: l))
      with (addCommits (if existsb (fun c0 => String.eqb (sha c0) (sha c)) acc
                        then acc else acc ++ [c]) l).
    destruct (existsb _ acc) eqn:E.
    + apply existsb_exists in E as (c' & Hin & Heq). apply String.eqb_eq in Heq.
      exists c'. split; [apply addCommits_keeps; exact Hin | exact Heq].
    + exists c. split; [|reflexivity]. apply addCommits_keeps, in_app_iff. simpl. auto.
  - change (addCommits acc (x :: l))
      with (addCommits (if existsb (fun c0 => String.eqb (sha c0) (sha x)) acc
                        then acc else acc ++ [x]) l).
    apply IH. exact H.
Qed.

Lemma rangeCommits_orString env lp r r' :
  rangeCommits env (mkWatermark (orString lp None) r')
  = rangeCommits env (mkWatermark lp r).
Proof.
  unfold rangeCommits. destruct lp as [s|]; simpl; [|reflexivity].
  destruct (Str.isEmpty s) eqn:E; simpl; [reflexivity|]. rewrite E. reflexivity.
Qed.

Lemma rangeCommits_source env state acc c :
  rangeCommits env state = Some acc -> In c acc ->
  exists q l, envGitLog env q = Some l /\ In c l.
Proof.
  unfold rangeCommits. intros H Hin.
  assert (Hall : option_map (addCommits []) (envGitLog env LogAll) = Some acc ->
                 exists q l, envGitLog env q = Some l /\ In c l).
  { destruct (envGitLog env LogAll) as [l|] eqn:E; [|discriminate].
    intros [= <-]. apply addCommits_in in Hin as [[]|Hin]. eauto. }
  destruct (last_processed state) as [lp|]; [|auto].
  destruct (Str.isEmpty lp); [auto|].
  destruct (envGitLog env (LogSince lp)) as [l|] eqn:E; [|auto].
  inversion H; subst. apply addCommits_in in Hin as [[]|Hin]. eauto.
Qed.

Lemma second_selection env lp0 r0 S1 recent :
  coherentLog env ->
  selectCommits env (mkWatermark lp0 r0) = Some S1 ->
  exists S2,
    selectCommits env
      (mkWatermark (orString (envHead env) (orString lp0 None)) recent) = Some S2
    /\ forall c, In c S2 -> In c S1.
Proof.
  intros [Hcoh Hhead] Hsel.
  assert (Hsame : orString (envHead env) (orString lp0 None) = orString lp0 None ->
                  exists S2,
                    selectCommits env
                      (mkWatermark (orString (envHead env) (orString lp0 None)) recent)
                    = Some S2 /\ forall c, In c S2 -> In c S1).
  { intros ->. exists S1. split; [|auto].
    unfold selectCommits in *. rewrite (rangeCommits_orString env lp0 r0 recent).
    exact Hsel. }
  destruct (envHead env) as [h|] eqn:Eh; [|apply Hsame; reflexivity].
  destruct (Str.isEmpty h) eqn:Ehe; [apply Hsame; simpl; rewrite Ehe; reflexivity|].
  clear Hsame. simpl orString. rewrite Ehe.
  unfold selectCommits in *.
  assert (Hr2 : rangeCommits env (mkWatermark (Some h) recent) = Some []).
  { unfold rangeCommits. simpl. rewrite Ehe, (Hhead h eq_refl Ehe). reflexivity. }
  rewrite Hr2.
  destruct (rangeCommits env (mkWatermark lp0 r0)) as [acc1|] eqn:Hr1; [|discriminate].
  destruct (0 <? envMaxRecent env); [|exists []; split; [reflexivity | intros c []]].
  destruct (envGitLog env (LogRecent (envMaxRecent env))) as [lr|] eqn:El; [|discriminate].
  simpl in *. inversion Hsel; subst S1.
  exists (addCommits [] lr). split; [reflexivity|].
  intros c Hc. apply addCommits_in in Hc as [[]|Hc].
  destruct (addCommits_covers lr acc1 c Hc) as (c' & Hin' & Hsha).
  assert (c' = c) as <-; [|exact Hin'].
  pose proof Hin' as Hsrc. apply addCommits_in in Hsrc as [Hsrc|Hsrc].
  - destruct (rangeCommits_source env _ acc1 c' Hr1 Hsrc) as (q & l & Hq & Hl).
    exact (Hcoh q _ l lr c' c Hq El Hl Hc Hsha).
  - exact (Hcoh _ _ lr lr c' c El El Hsrc Hc Hsha).
Qed.

Lemma selectCommits_ext env env' state :
  (forall q, envGitLog env' q = envGitLog env q) ->
  envMaxRecent env' = envMaxRecent env ->
  selectCommits env' state = selectCommits env state.
Proof.
  intros Hq Hm. unfold selectCommits, rangeCommits. rewrite Hm, !Hq.
  destruct (last_processed state) as [lp|]; [|reflexivity].
  rewrite Hq. reflexivity.
Qed.

Lemma lineTarget_ext f g tz commit i line :
  (forall d z, f d z = g d z) ->
  lineTarget f tz commit i line = lineTarget g tz commit i line.
Proof. intros H. unfold lineTarget. rewrite H. reflexivity. Qed.

Lemma linesPresent_ext f g tz commit lines : forall i files,
  (forall d z, f d z = g d z) ->
  linesPresent f tz commit lines i files -> linesPresent g tz commit lines i files.
Proof.
  induction lines as [|line lines IH]; intros i files H; simpl; [auto|].
  rewrite (lineTarget_ext f g tz commit i line H). intros [H1 H2].
  split; [exact H1 | apply IH; assumption].
Qed.

Lemma recentForState_ext env env' :
  (forall q, envGitLog env' q = envGitLog env q) ->
  envMaxRecent env' = envMaxRecent env ->
  recentForState env' = recentForState env.
Proof. intros Hq Hm. unfold recentForState. rewrite Hm, Hq. reflexivity. Qed.

Lemma main_completed env w w1 s ev :
  main env w = Completed w1 s ev ->
  exists commits st recent,
    selectCommits env (default defaultWatermark (stateFile w)) = Some commits
    /\ processCommits env (loadTags (envConfig env)) (tiTimezone (loadTags (envConfig env)))
         commits (startRun w) = (st, ev)
    /\ recentForState env = Some recent
    /\ w1 = finishRun env (default defaultWatermark (stateFile w)) st recent
    /\ s = mkSummary (addedCount st) (skippedCount st) (errorCount st).
Proof.
  unfold main.
  destruct (selectCommits env _) as [commits|]; [|discriminate].
  destruct (processCommits env _ _ commits (startRun w)) as [st events] eqn:Hrun.
  destruct (recentForState env) as [recent|]; [|discriminate].
  intros [= <- <- <-]. exists commits, st, recent.
  split; [reflexivity|]. split; [exact Hrun|]. repeat split; reflexivity.
Qed.

Lemma second_run_idle env env' w w1 s1 ev1 :
  main env w = Completed w1 s1 ev1 ->
  sameHistory env env' -> coherentLog env ->
  exists w2 s2 ev2,
    main env' w1 = Completed w2 s2 ev2
    /\ sumAdded s2 = 0%nat
    /\ dayFiles w2 = dayFiles w1.
Proof.
  intros Hmain (Hq & Hh & Hm & Hc & Htz) Hcoh.
  apply main_completed in Hmain
    as (S1 & st1 & recent & Hsel1 & Hrun1 & Hrec & -> & ->).
  set (idx := loadTags (envConfig env)) in *.
  set (tz := tiTimezone idx) in *.
  pose proof (processCommits_present env idx tz S1 (startRun w)) as Hpres.
  cbv zeta in Hpres. rewrite Hrun1 in Hpres. simpl in Hpres.
  destruct Hpres as [_ Hpres].
  destruct (default defaultWatermark (stateFile w)) as [lp0 r0] eqn:Est.
  destruct (second_selection env lp0 r0 S1 recent Hcoh Hsel1) as (S2 & Hsel2 & Hsub).
  unfold main. rewrite Hc. fold idx tz.
  simpl stateFile. simpl default. simpl last_processed.
  rewrite (selectCommits_ext env env' _ Hq Hm), Hsel2.
  rewrite (recentForState_ext env env' Hq Hm), Hrec.
  set (w1 := finishRun env (mkWatermark lp0 r0) st1 recent).
  assert (Hidle : Forall (commitPresent (envTzParts env') tz
                            (dayFiles (rWorld (startRun w1)))) S2).
  { apply List.Forall_forall. intros c Hc2. apply Hsub in Hc2.
    apply (proj1 (List.Forall_forall _ _) Hpres) in Hc2.
    unfold commitPresent in *. simpl.
    eapply linesPresent_ext; [|exact Hc2]. intros d z. symmetry. apply Htz. }
  pose proof (processCommits_idle env' idx tz S2 (startRun w1) Hidle) as Hres.
  cbv zeta in Hres.
  destruct (processCommits env' idx tz S2 (startRun w1)) as [st2 ev2].
  simpl in Hres. destruct Hres as [Hd Ha].
  eexists _, _, _. split; [reflexivity|]. simpl. split; [exact Ha | exact Hd].
Qed.

End Replay.

(** ** The claims about the coordinator *)

Ltac solve_validLine :=
  unfold validLine; repeat split; vm_compute; reflexivity.

(** The sample log reader answers consistently, whatever the classifier. *)
Lemma sampleEnv_sameHistory c1 e1 c2 e2 :
  sameHistory (sampleEnv c1 e1) (sampleEnv c2 e2).
Proof. repeat split; reflexivity. Defined.

Lemma sampleEnv_coherentLog c e : coherentLog (sampleEnv c e).
Proof.
  split.
  - intros q q' l l' x x' Hq Hq' Hx Hx' _.
    assert (Hone : forall q0 l0 y, sampleLog q0 = Some l0 -> In y l0 -> y = sampleCommit).
    { intros q0 l0 y H0 Hy. destruct q0; simpl in H0; inversion H0; subst;
        simpl in Hy; intuition. }
    rewrite (Hone q l x Hq Hx), (Hone q' l' x' Hq' Hx'). reflexivity.
  - intros h _ _. reflexivity.
Defined.

(** C1. Whatever the day store holds, when the document of the line's date
    already has an entry with the id computed for the line, the coordinator
    skips the line: the skipped counter goes up by one, the error and added
    counters stay, and no day document changes.  So when a run has
    completed and the pipeline is run again over the same history and
    configuration, read through a log reader whose answers are consistent,
    the second run completes, adds no entry and leaves every day document
    as it was. *)
Theorem idempotent_ingestion :
  (forall env idx tz commit st i line p ds h,
      validLine env tz commit line p ds h ->
      hasId (dayFiles (rWorld st)) ds (entryId (sha commit) i) = true ->
      let r := processLine env idx tz commit st i line in
      let st' := fst (fst r) in
      snd r = Some (EvSkipped (entryId (sha commit) i))
      /\ skippedCount st' = S (skippedCount st)
      /\ errorCount st' = errorCount st
      /\ addedCount st' = addedCount st
      /\ dayFiles (rWorld st') = dayFiles (rWorld st))
  /\ (forall env env' w w1 s1 ev1,
      main env w = Completed w1 s1 ev1 ->
      sameHistory env env' -> coherentLog env ->
      exists w2 s2 ev2,
        main env' w1 = Completed w2 s2 ev2
        /\ sumAdded s2 = 0%nat
        /\ dayFiles w2 = dayFiles w1).
Proof.
  split.
  - exact skip_existing.
  - exact second_run_idle.
Qed.

Lemma idempotent_ingestion_witness :
  match main (sampleEnv classifyWork true) emptyWorld with
  | Completed w1 _ _ =>
      exists w2 s2 ev2,
        main (sampleEnv classifyDown true) w1 = Completed w2 s2 ev2
        /\ sumAdded s2 = 0%nat /\ dayFiles w2 = dayFiles w1
  | Crashed _ => False
  end.
Proof.
  destruct (main (sampleEnv classifyWork true) emptyWorld) as [w1 s1 ev1|w] eqn:E.
  - exact (proj2 idempotent_ingestion _ _ _ _ _ _ E
             (sampleEnv_sameHistory _ _ _ _) (sampleEnv_coherentLog _ _)).
  - vm_compute in E. discriminate E.
Defined.

(** C2. Within a commit the recognised [time:] lines are numbered from zero
    in order of appearance, and the Nth gets the id built from the commit's
    sha and N; a line that has the marker but fewer than two tokens is
    recognised and takes a number too.  The ids depend on nothing else: not
    on the stored documents, the configuration, the classifier or the other
    commits of the run. *)
Theorem identity_stability :
  (forall env idx tz st commit,
      map eventId (snd (processCommit env idx tz st commit))
      = map (entryId (sha commit))
            (seq 0 (recognizedCount (splitLines (body commit)))))
  /\ (forall env idx tz commits st,
      map eventId (snd (processCommits env idx tz commits st))
      = flat_map (fun c => map (entryId (sha c))
                               (seq 0 (recognizedCount (splitLines (body c)))))
                 commits)
  /\ (forall env env' idx idx' tz tz' st st' commit,
      map eventId (snd (processCommit env idx tz st commit))
      = map eventId (snd (processCommit env' idx' tz' st' commit)))
  /\ (forall line body,
      stripTimeMarker (Str.trim line) = Some body ->
      (length (Str.tokens body) < 2)%nat ->
      parseTimeLine line = LineError "missing date or duration"
      /\ isRecognized line = true).
Proof.
  split; [|split; [|split]].
  - intros. apply processLines_ids.
  - intros. apply processCommits_ids.
  - intros. unfold processCommit. rewrite !processLines_ids. reflexivity.
  - exact short_line_recognized.
Qed.

Lemma identity_stability_witness :
  map eventId (snd (processCommit (sampleEnv classifyDown false) sampleIndex
                      "Asia/Tokyo" (startRun emptyWorld) sampleCommit))
  = ["sha:abc123:0"; "sha:abc123:1"; "sha:abc123:2"]
  /\ parseTimeLine sampleShortLine = LineError "missing date or duration"
  /\ isRecognized sampleShortLine = true.
Proof.
  split.
  - rewrite (proj1 identity_stability). vm_compute. reflexivity.
  - refine (proj2 (proj2 (proj2 identity_stability)) sampleShortLine "today" _ _).
    + reflexivity.
    + vm_compute. lia.
Defined.

(** C3, as amended. For a valid line that the alias stage leaves without a
    category, with the classifier enabled and nothing cached for it: when the
    classifier call throws (transport failure, payload that is not JSON), one
    ErrorLog entry is appended, with the line's id, commit and text and the
    reason [llm_error:] followed by the failure message; when the answer is
    rejected by sanitization (its primary is not a canonical key), no
    ErrorLog entry is appended.  In both cases the line goes on to the store
    with primary "uncategorized", empty secondary, confidence 0 and method
    "fallback": it is appended when its id is new and skipped otherwise. *)
Theorem classifier_failure env idx tz commit st i line p ds h :
  validLine env tz commit line p ds h ->
  normalizeTags (rawTags p) idx = [] ->
  envLlmEnabled env = true ->
  cacheHit (rWorld st) (rawTags p) (note p) = false ->
  let id := entryId (sha commit) i in
  let outcome :=
    envClassify env (length (requests (rWorld st)))
      (mkRequest (tiCanonical idx) (rawTags p) (note p)) in
  let r := processLine env idx tz commit st i line in
  let st' := fst (fst r) in
  let entry :=
    mkEntry id (dateStr commit) h p (JStr "uncategorized") (JArr []) (JNum 0)
            "fallback" (envRepo env) (sha commit) in
  let stored :=
    if hasId (dayFiles (rWorld st)) ds id
    then snd r = Some (EvSkipped id)
         /\ dayFiles (rWorld st') = dayFiles (rWorld st)
    else snd r = Some (EvAdded id)
         /\ dayFiles (rWorld st') = appendEntry tz ds entry (dayFiles (rWorld st)) in
  (forall message,
      outcome = Threw message ->
      rErrors st' = rErrors st ++ [mkError id (sha commit) line ("llm_error:" +:+ message)]
      /\ stored)
  /\ (forall value,
      outcome = Replied value ->
      sanitizeResult value (tiCanonical idx) = None ->
      rErrors st' = rErrors st /\ stored).
Proof.
  intros Hv Hn He Hc id outcome r st' entry stored.
  subst stored st' r outcome.
  rewrite (processLine_outcome _ _ _ _ _ _ _ _ _ _ Hv). fold id.
  split.
  - intros message Ho.
    rewrite (normalizeLine_threw env idx id commit line p st message Hn He Hc Ho).
    destruct (hasId (dayFiles (rWorld st)) ds id); simpl; auto.
  - intros value Ho Hs.
    rewrite (normalizeLine_rejected env idx id commit line p st value Hn He Hc Ho Hs).
    destruct (hasId (dayFiles (rWorld st)) ds id); simpl; auto.
Qed.

Lemma classifier_failure_witness :
  rErrors (fst (fst (processLine (sampleEnv classifyDown true) sampleIndex "Asia/Tokyo"
                       sampleCommit (startRun emptyWorld) 1 sampleLine)))
  = [] ++ [mkError (entryId "abc123" 1) "abc123" sampleLine
                   ("llm_error:" +:+ "service unavailable")].
Proof.
  pose proof (classifier_failure (sampleEnv classifyDown true) sampleIndex "Asia/Tokyo"
                sampleCommit (startRun emptyWorld) 1 sampleLine sampleParsed
                "2026-01-05" 1%Q) as H.
  cbv zeta in H.
  refine (proj1 (proj1 (H _ _ _ _) "service unavailable" eq_refl)).
  - solve_validLine.
  - vm_compute. reflexivity.
  - reflexivity.
  - vm_compute. reflexivity.
Defined.

(** The claim as first stated fails: an answer rejected by sanitization
    leaves the error log as it was, and a failure that throws leaves the
    error counter as it was. *)
Lemma classifier_failure_counterexample :
  let rejected :=
    fst (fst (processLine (sampleEnv classifyBogus true) sampleIndex "Asia/Tokyo"
                sampleCommit (startRun emptyWorld) 1 sampleLine)) in
  let thrown :=
    fst (fst (processLine (sampleEnv classifyDown true) sampleIndex "Asia/Tokyo"
                sampleCommit (startRun emptyWorld) 1 sampleLine)) in
  sanitizeResult bogusAnswer (tiCanonical sampleIndex) = None
  /\ requests (rWorld rejected) = [mkRequest ["work"; "study"] ["nonexistent"] ""]
  /\ rErrors rejected = []
  /\ errorCount rejected = 0%nat
  /\ length (rErrors thrown) = 1%nat
  /\ errorCount thrown = 0%nat.
Proof. vm_compute. repeat split; reflexivity. Qed.

(** C6, as amended. The cache is keyed by the serialized pair of raw tags
    and note; when the key is in the cache with a truthy value,
    [normalizeTagsLLM] returns that value and sends no request.  When a
    valid line unresolved by the alias stage misses the cache and the
    classifier's answer passes sanitization, the answer is cached, and
    whatever lines follow in the commit, exactly one request is sent for
    these raw tags and this note; once a key is cached no later commit of
    the run sends a request for it. *)
Theorem cache_short_circuit :
  (forall classify canonical tags nt w cached,
      cacheFile w !! Json.stringifyKey tags nt = Some cached ->
      truthy cached = true ->
      normalizeTagsLLM classify canonical tags nt w = (LlmReturned cached, w))
  /\ (forall env idx tz commit st i line rest p ds h value sanitized,
      validLine env tz commit line p ds h ->
      normalizeTags (rawTags p) idx = [] -> envLlmEnabled env = true ->
      cacheHit (rWorld st) (rawTags p) (note p) = false ->
      envClassify env (length (requests (rWorld st)))
        (mkRequest (tiCanonical idx) (rawTags p) (note p)) = Replied value ->
      sanitizeResult value (tiCanonical idx) = Some sanitized ->
      let st' := fst (processLines env idx tz commit (line :: rest) st i) in
      countKey (rawTags p) (note p) (requests (rWorld st'))
      = S (countKey (rawTags p) (note p) (requests (rWorld st)))
      /\ cacheHit (rWorld st') (rawTags p) (note p) = true)
  /\ (forall env idx tz commits st tags nt,
      cacheHit (rWorld st) tags nt = true ->
      let st' := fst (processCommits env idx tz commits st) in
      countKey tags nt (requests (rWorld st')) = countKey tags nt (requests (rWorld st))
      /\ cacheHit (rWorld st') tags nt = true).
Proof.
  split; [|split].
  - intros classify canonical tags nt w cached Hc Ht.
    rewrite normalizeTagsLLM_hit by (unfold cacheHit; rewrite Hc; exact Ht).
    rewrite Hc. reflexivity.
  - intros env idx tz commit st i line rest p ds h value sanitized
           Hv Hn He Hmiss Ho Hs st'. subst st'.
    pose proof (first_request_cached env idx tz commit st i line p ds h value sanitized
                  Hv Hn He Hmiss Ho Hs) as H1.
    cbv zeta in H1. simpl processLines.
    destruct (processLine env idx tz commit st i line) as [[st1 i1] ev].
    simpl in H1. destruct H1 as [Hhit1 Hreq1].
    pose proof (cached_key_quiet_lines env idx tz commit rest _ _ st1 i1 Hhit1) as H2.
    cbv zeta in H2.
    destruct (processLines env idx tz commit rest st1 i1) as [st2 evs].
    simpl in *. destruct H2 as [Hhit2 Hc2]. split; [|exact Hhit2].
    rewrite Hc2, Hreq1, countKey_app. unfold sameKey. simpl.
    rewrite bool_decide_eq_true_2 by auto. lia.
  - intros env idx tz commits st tags nt Hhit st'.
    destruct (cached_key_quiet_commits env idx tz commits tags nt st Hhit) as [H1 H2].
    split; assumption.
Qed.

Lemma cache_short_circuit_witness :
  countKey ["nonexistent"] ""
    (requests (rWorld (fst (processLines (sampleEnv classifyWork true) sampleIndex
                              "Asia/Tokyo" sampleCommit [sampleLine; sampleLine]
                              (startRun emptyWorld) 0))))
  = 1%nat.
Proof.
  pose proof (proj1 (proj2 cache_short_circuit) (sampleEnv classifyWork true)
                sampleIndex "Asia/Tokyo" sampleCommit (startRun emptyWorld) 0%nat
                sampleLine [sampleLine] sampleParsed "2026-01-05" 1%Q workAnswer) as H.
  cbv zeta in H.
  refine (proj1 (H _ _ _ _ _ _ _)).
  - solve_validLine.
  - vm_compute. reflexivity.
  - reflexivity.
  - vm_compute. reflexivity.
  - reflexivity.
  - vm_compute. reflexivity.
Defined.

(** The claim as first stated fails: when the classifier is down, or its
    answer is rejected, nothing is cached and each of two identical lines
    sends its own request; and a key that is in the cache file with a falsy
    value does not stop the request. *)
Lemma cache_short_circuit_counterexample :
  let run classify :=
    fst (processLines (sampleEnv classify true) sampleIndex "Asia/Tokyo" sampleCommit
           [sampleLine; sampleLine] (startRun emptyWorld) 0) in
  parseTimeLine sampleLine = Parsed sampleParsed
  /\ normalizeTags (rawTags sampleParsed) sampleIndex = []
  /\ countKey (rawTags sampleParsed) (note sampleParsed)
       (requests (rWorld (run classifyDown))) = 2%nat
  /\ countKey (rawTags sampleParsed) (note sampleParsed)
       (requests (rWorld (run classifyBogus))) = 2%nat
  /\ addedCount (run classifyDown) = 2%nat
  /\ cacheFile nullCachedWorld !! Json.stringifyKey ["nonexistent"] "" = Some JNull
  /\ requests (snd (normalizeTagsLLM classifyWork (tiCanonical sampleIndex)
                      ["nonexistent"] "" nullCachedWorld))
     = [mkRequest ["work"; "study"] ["nonexistent"] ""].
Proof. vm_compute. repeat split; reflexivity. Qed.

(** C7. For a valid line that the alias stage leaves without a category,
    with the classifier disabled, no request is sent to the classifier, and
    when the line's id is new the entry appended to its day document has
    primary "uncategorized", empty secondary, confidence 0 and method
    "fallback". *)
Theorem fallback_when_disabled env idx tz commit st i line p ds h :
  validLine env tz commit line p ds h ->
  normalizeTags (rawTags p) idx = [] ->
  envLlmEnabled env = false ->
  let id := entryId (sha commit) i in
  let entry :=
    mkEntry id (dateStr commit) h p (JStr "uncategorized") (JArr []) (JNum 0)
            "fallback" (envRepo env) (sha commit) in
  let st' := fst (fst (processLine env idx tz commit st i line)) in
  requests (rWorld st') = requests (rWorld st)
  /\ (hasId (dayFiles (rWorld st)) ds id = false ->
      snd (processLine env idx tz commit st i line) = Some (EvAdded id)
      /\ dayFiles (rWorld st') = appendEntry tz ds entry (dayFiles (rWorld st))).
Proof.
  intros Hv Hn He id entry st'. subst st'.
  rewrite (processLine_outcome _ _ _ _ _ _ _ _ _ _ Hv). fold id.
  rewrite (normalizeLine_disabled env idx id commit line p st Hn He). simpl fst; simpl snd.
  destruct (hasId (dayFiles (rWorld st)) ds id); simpl.
  - split; [reflexivity|discriminate].
  - split; [reflexivity|]. intros _. split; reflexivity.
Qed.

Lemma fallback_when_disabled_witness :
  requests (rWorld (fst (fst (processLine (sampleEnv classifyDown false) sampleIndex
                                "Asia/Tokyo" sampleCommit (startRun emptyWorld) 1
                                sampleLine))))
  = []
  /\ normalizeTags ["nonexistent"] sampleIndex = [].
Proof.
  split; [|vm_compute; reflexivity].
  pose proof (fallback_when_disabled (sampleEnv classifyDown false) sampleIndex
                "Asia/Tokyo" sampleCommit (startRun emptyWorld) 1 sampleLine
                sampleParsed "2026-01-05" 1%Q) as H.
  cbv zeta in H.
  refine (proj1 (H _ _ _)).
  - solve_validLine.
  - vm_compute. reflexivity.
  - reflexivity.
Defined.

(** C10. On a cache hit [normalizeTagsLLM] returns the cached value as it
    is, whatever its primary and whatever the canonical list of the call,
    and sends no request; the coordinator then stores the cached primary as
    the entry's primary, with method "llm". *)
Theorem cache_hit_unvalidated :
  (forall classify canonical tags nt w cached,
      cacheFile w !! Json.stringifyKey tags nt = Some cached ->
      truthy cached = true ->
      normalizeTagsLLM classify canonical tags nt w = (LlmReturned cached, w))
  /\ (forall env idx tz commit st i line p ds h cached,
      validLine env tz commit line p ds h ->
      normalizeTags (rawTags p) idx = [] ->
      envLlmEnabled env = true ->
      cacheFile (rWorld st) !! Json.stringifyKey (rawTags p) (note p) = Some cached ->
      truthy cached = true ->
      hasId (dayFiles (rWorld st)) ds (entryId (sha commit) i) = false ->
      let st' := fst (fst (processLine env idx tz commit st i line)) in
      requests (rWorld st') = requests (rWorld st)
      /\ dayFiles (rWorld st') =
           appendEntry tz ds
             (mkEntry (entryId (sha commit) i) (dateStr commit) h p
                      (jget "primary" cached)
                      (orElse (jget "secondary" cached) (JArr []))
                      (orElse (jget "confidence" cached) (JNum 0))
                      "llm" (envRepo env) (sha commit))
             (dayFiles (rWorld st))).
Proof.
  split.
  - intros classify canonical tags nt w cached Hc Ht.
    rewrite normalizeTagsLLM_hit by (unfold cacheHit; rewrite Hc; exact Ht).
    rewrite Hc. reflexivity.
  - intros env idx tz commit st i line p ds h cached Hv Hn He Hc Ht Hh st'. subst st'.
    rewrite (processLine_outcome _ _ _ _ _ _ _ _ _ _ Hv), Hh.
    rewrite (normalizeLine_hit env idx _ commit line p st cached Hn He Hc Ht).
    simpl. split; reflexivity.
Qed.

Lemma cache_hit_unvalidated_witness :
  includesValue (tiCanonical sampleIndex) (jget "primary" retiredResult) = false
  /\ dayFiles (rWorld (fst (fst (processLine (sampleEnv classifyDown true) sampleIndex
                                   "Asia/Tokyo" sampleCommit (startRun cachedWorld) 1
                                   sampleLine))))
     = appendEntry "Asia/Tokyo" "2026-01-05"
         (mkEntry (entryId "abc123" 1) "2026-01-05T10:00:00+09:00" 1%Q sampleParsed
                  (JStr "retired") (JArr []) (JNum (1 # 2)) "llm" "origin" "abc123")
         ∅.
Proof.
  split; [reflexivity|].
  pose proof (proj2 cache_hit_unvalidated (sampleEnv classifyDown true) sampleIndex
                "Asia/Tokyo" sampleCommit (startRun cachedWorld) 1%nat sampleLine
                sampleParsed "2026-01-05" 1%Q retiredResult) as H.
  cbv zeta in H.
  refine (proj2 (H _ _ _ _ _ _)).
  - solve_validLine.
  - vm_compute. reflexivity.
  - reflexivity.
  - vm_compute. reflexivity.
  - reflexivity.
  - reflexivity.
Defined.

(** * Further properties of the code *)

(** ** Date ranges *)

Section CalendarRanges.

Import JsDate.

Lemma yearSearch_bounds d : forall fuel y0,
  dayFromYear y0 <= d -> d < dayFromYear (y0 + Z.of_nat fuel + 1) ->
  dayFromYear (yearSearch fuel y0 d) <= d < dayFromYear (yearSearch fuel y0 d + 1).
Proof.
  induction fuel as [|fuel IH]; intros y0 Hlo Hhi; simpl.
  - change (Z.of_nat 0) with 0 in Hhi. rewrite Z.add_0_r in Hhi. lia.
  - destruct (Z.leb_spec (dayFromYear (y0 + 1)) d) as [Hle|Hgt]; [|lia].
    apply IH; [exact Hle|].
    replace (y0 + 1 + Z.of_nat fuel + 1) with (y0 + Z.of_nat (S fuel) + 1) by lia.
    exact Hhi.
Qed.

Lemma yearFromDay_bounds d :
  dayFromYear (yearFromDay d) <= d < dayFromYear (yearFromDay d + 1).
Proof.
  unfold yearFromDay.
  set (a := d / 365). set (b := d / 366).
  assert (Ha : 365 * a <= d < 365 * a + 365) by (subst a; Z.div_mod_to_equations; lia).
  assert (Hb : 366 * b <= d < 366 * b + 366) by (subst b; Z.div_mod_to_equations; lia).
  apply yearSearch_bounds.
  - destruct (Z_le_gt_dec 0 (Z.min a b)) as [Hk|Hk].
    + pose proof (dayFromYear_upper_pos (Z.min a b) Hk). lia.
    + pose proof (dayFromYear_upper_neg (Z.min a b) ltac:(lia)). lia.
  - rewrite Z2Nat.id by lia.
    replace (1970 + Z.min a b + (1970 + Z.max a b - (1970 + Z.min a b)) + 1)
      with (1970 + (Z.max a b + 1)) by lia.
    destruct (Z_le_gt_dec 0 (Z.max a b + 1)) as [Hk|Hk].
    + pose proof (dayFromYear_lower_pos (Z.max a b + 1) Hk). lia.
    + pose proof (dayFromYear_lower_neg (Z.max a b + 1) ltac:(lia)). lia.
Qed.

Ltac eval_month_tables :=
  repeat match goal with
         | |- context [daysBeforeMonth ?l ?m] =>
             let v := eval vm_compute in (daysBeforeMonth l m) in
             change (daysBeforeMonth l m) with v
         end;
  repeat match goal with
         | |- context [if ?c then ?a else ?b] =>
             let v := eval vm_compute in (if c then a else b) in
             change (if c then a else b) with v
         end.

Ltac split_ltb :=
  repeat match goal with
         | |- context [?a <? ?b] => destruct (Z.ltb_spec a b); try lia
         | H : context [?a <? ?b] |- _ => destruct (Z.ltb_spec a b); try lia
         end.

(** Every day number is the day number of exactly one well-formed date. *)
Lemma civilFromDay_valid d :
  validDate (civilFromDay d) /\ dayNumber (civilFromDay d) = d.
Proof.
  pose proof (yearFromDay_bounds d) as Hy.
  rewrite dayFromYear_succ, daysInYear_leap in Hy.
  unfold civilFromDay, validDate, dayNumber. simpl.
  assert (Hm : 0 <= monthFromDay d <= 11).
  { unfold monthFromDay. split_ltb. }
  rewrite makeDay_valid by lia.
  replace (monthFromDay d + 1 - 1) with (monthFromDay d) by lia.
  unfold dateFromDay, daysInMonth.
  unfold monthFromDay, dayWithinYear in *.
  set (y := yearFromDay d) in *. set (w := d - dayFromYear y) in *.
  assert (Hw : 0 <= w < 365 + inLeapYear y) by (subst w; lia).
  rewrite inLeapYear_spec in *.
  destruct (isLeapYear y);
    split_ltb; eval_month_tables; simpl; subst w; lia.
Qed.

Lemma civilFromDay_dayNumber p : validDate p -> civilFromDay (dayNumber p) = p.
Proof.
  destruct p as [y m dd]. intros Hv.
  destruct (civil_of_makeDay y m dd Hv) as (H1 & H2 & H3).
  unfold civilFromDay, dayNumber. simpl. rewrite H1, H2, H3. reflexivity.
Qed.

Lemma dayNumber_inj a b :
  validDate a -> validDate b -> dayNumber a = dayNumber b -> a = b.
Proof.
  intros Ha Hb H. rewrite <- (civilFromDay_dayNumber a Ha), <- (civilFromDay_dayNumber b Hb), H.
  reflexivity.
Qed.

(** [addDays] on any parts whose year is outside 0..99: the date of the day
    number moved by [deltaDays], while the time values stay in range. *)
Lemma addDays_dayNumber p delta :
  (year p < 0 \/ 99 < year p) ->
  Z.abs (dayNumber p) <= 100000000 -> Z.abs (dayNumber p + delta) <= 100000000 ->
  addDays p delta = Some (civilFromDay (dayNumber p + delta)).
Proof.
  intros Hq Hn Hd. unfold addDays, UTC, dayNumber in *.
  assert (Hquirk : (0 <=? year p) && (year p <=? 99) = false).
  { destruct (Z.leb_spec 0 (year p)), (Z.leb_spec (year p) 99); simpl; try reflexivity; lia. }
  rewrite Hquirk.
  set (n := makeDay (year p) (month p - 1) (day p)) in *.
  rewrite timeClip_small by (unfold maxTime, msPerDay; lia).
  replace (n * msPerDay + delta * 24 * 60 * 60 * 1000) with ((n + delta) * msPerDay)
    by (unfold msPerDay; lia).
  rewrite timeClip_small by (unfold maxTime, msPerDay; lia).
  unfold dayOf. rewrite Z.div_mul by (unfold msPerDay; lia). reflexivity.
Qed.

Lemma yearFromDay_ge d y0 : dayFromYear y0 <= d -> y0 <= yearFromDay d.
Proof.
  intros H. pose proof (yearFromDay_bounds d) as [_ Hhi].
  destruct (Z_lt_le_dec (yearFromDay d) y0) as [Hlt|]; [|assumption].
  pose proof (dayFromYear_mono (yearFromDay d + 1) y0 ltac:(lia)). lia.
Qed.

Lemma yearFromDay_le d y0 : d < dayFromYear (y0 + 1) -> yearFromDay d <= y0.
Proof.
  intros H. pose proof (yearFromDay_bounds d) as [Hlo _].
  destruct (Z_lt_le_dec y0 (yearFromDay d)) as [Hlt|]; [|assumption].
  pose proof (dayFromYear_mono (y0 + 1) (yearFromDay d) ltac:(lia)). lia.
Qed.

Lemma dayFromYear_back3 y : dayFromYear (y - 3) <= dayFromYear y - 1095.
Proof.
  replace y with (y - 3 + 1 + 1 + 1) at 2 by lia.
  rewrite !dayFromYear_succ, !daysInYear_leap.
  pose proof (inLeapYear_range (y - 3)). pose proof (inLeapYear_range (y - 3 + 1)).
  pose proof (inLeapYear_range (y - 3 + 1 + 1)). lia.
Qed.

Lemma dayFromYear_forth3 y : dayFromYear y + 1095 <= dayFromYear (y + 3).
Proof.
  replace (y + 3) with (y + 1 + 1 + 1) by lia.
  rewrite !dayFromYear_succ, !daysInYear_leap.
  pose proof (inLeapYear_range y). pose proof (inLeapYear_range (y + 1)).
  pose proof (inLeapYear_range (y + 1 + 1)). lia.
Qed.

Lemma dayNumber_year p :
  validDate p -> dayFromYear (year p) <= dayNumber p < dayFromYear (year p + 1).
Proof.
  destruct p as [y m dd]. intros Hv.
  pose proof (daysBeforeMonth_valid (inLeapYear y) m dd y eq_refl Hv) as Hw.
  destruct Hv as [Hm _]. simpl in *. unfold dayNumber. simpl.
  rewrite makeDay_valid by exact Hm. rewrite dayFromYear_succ. lia.
Qed.

Lemma dayNumber_range p :
  validDate p -> -270000 <= year p <= 270000 ->
  -99999000 <= dayNumber p <= 99999000.
Proof. destruct p as [y m dd]. intros Hv Hy. apply makeDay_range; assumption. Qed.

(** A few years around a date: the year moves by at most three when the day
    number moves by at most 1000. *)
Lemma civilFromDay_year_near p delta :
  validDate p -> -1000 <= delta <= 1000 ->
  year p - 3 <= year (civilFromDay (dayNumber p + delta)) <= year p + 3.
Proof.
  intros Hv Hd. pose proof (dayNumber_year p Hv) as Hn.
  pose proof (dayFromYear_back3 (year p)). pose proof (dayFromYear_forth3 (year p + 1)).
  unfold civilFromDay. simpl. split.
  - apply yearFromDay_ge. lia.
  - apply yearFromDay_le. replace (year p + 3 + 1) with (year p + 1 + 3) by lia. lia.
Qed.

Lemma addDays_shift_facts p delta :
  validDate p -> 200 <= year p <= 200000 -> -1000 <= delta <= 1000 ->
  exists q,
    addDays p delta = Some q /\ validDate q /\ dayNumber q = dayNumber p + delta.
Proof.
  intros Hv Hy Hd.
  pose proof (dayNumber_range p Hv ltac:(lia)) as Hr.
  pose proof (civilFromDay_valid (dayNumber p + delta)) as [Hqv Hqn].
  exists (civilFromDay (dayNumber p + delta)).
  split; [apply addDays_dayNumber; lia|]. auto.
Qed.

(** X1. For a well-formed date with a year in 200..200000 and a shift of at
    most 1000 days in either direction, addDays returns a well-formed date
    whose day number is the day number of the given date plus the shift;
    shifting the result back returns the given date, and a shift of 0 changes
    nothing. *)
Theorem addDays_shifts p delta :
  validDate p -> 200 <= year p <= 200000 -> -1000 <= delta <= 1000 ->
  exists q,
    addDays p delta = Some q
    /\ validDate q
    /\ dayNumber q = dayNumber p + delta
    /\ addDays q (- delta) = Some p
    /\ (delta = 0 -> q = p).
Proof.
  intros Hv Hy Hd.
  pose proof (dayNumber_range p Hv ltac:(lia)) as Hr.
  pose proof (civilFromDay_year_near p delta Hv Hd) as Hqy.
  destruct (addDays_shift_facts p delta Hv Hy Hd) as (q & Hq & Hqv & Hqn).
  assert (Heq : q = civilFromDay (dayNumber p + delta)).
  { rewrite addDays_dayNumber in Hq by lia. congruence. }
  exists q. split; [exact Hq|]. split; [exact Hqv|]. split; [exact Hqn|]. split.
  - rewrite addDays_dayNumber by (rewrite ?Hqn, ?Heq; lia).
    rewrite Hqn. replace (dayNumber p + delta + - delta) with (dayNumber p) by lia.
    f_equal. apply civilFromDay_dayNumber. exact Hv.
  - intros ->. rewrite Heq, Z.add_0_r. apply civilFromDay_dayNumber. exact Hv.
Qed.

Lemma addDays_shifts_witness :
  exists q,
    addDays (mkDate 2024 3 1) (-1) = Some q
    /\ validDate q
    /\ dayNumber q = dayNumber (mkDate 2024 3 1) + -1
    /\ addDays q (- -1) = Some (mkDate 2024 3 1)
    /\ (-1 = 0 -> q = mkDate 2024 3 1).
Proof.
  apply (addDays_shifts (mkDate 2024 3 1) (-1)).
  - split; vm_compute; split; discriminate.
  - simpl. lia.
  - lia.
Defined.

(** Within a year, the day of the year grows with the month and the day. *)
Lemma dayOfYear_lt l ma da mb db y :
  l = inLeapYear y ->
  validDate (mkDate y ma da) -> validDate (mkDate y mb db) ->
  ma < mb ->
  daysBeforeMonth l (ma - 1) + da < daysBeforeMonth l (mb - 1) + db.
Proof.
  intros -> [Hma Hda] [Hmb Hdb] Hlt. simpl in *.
  unfold daysInMonth in *. rewrite inLeapYear_spec.
  assert (Hca : ma = 1 \/ ma = 2 \/ ma = 3 \/ ma = 4 \/ ma = 5 \/ ma = 6 \/ ma = 7
                \/ ma = 8 \/ ma = 9 \/ ma = 10 \/ ma = 11) by lia.
  assert (Hcb : mb = 2 \/ mb = 3 \/ mb = 4 \/ mb = 5 \/ mb = 6 \/ mb = 7
                \/ mb = 8 \/ mb = 9 \/ mb = 10 \/ mb = 11 \/ mb = 12) by lia.
  clear Hma Hmb.
  destruct (isLeapYear y);
    repeat (destruct Hca as [->|Hca]); try subst ma;
    repeat (destruct Hcb as [->|Hcb]); try subst mb;
    try lia; eval_month_tables; simpl in Hda, Hdb; lia.
Qed.

Lemma compareDateParts_chronological a b :
  validDate a -> validDate b ->
  (0 <= compareDateParts a b <-> dayNumber b <= dayNumber a)
  /\ (compareDateParts a b <= 0 <-> dayNumber a <= dayNumber b)
  /\ (compareDateParts a b = 0 <-> a = b).
Proof.
  intros Ha Hb.
  pose proof (dayNumber_year a Ha) as Hna. pose proof (dayNumber_year b Hb) as Hnb.
  destruct a as [ya ma da], b as [yb mb db]. unfold compareDateParts. simpl in *.
  destruct (Z.eqb_spec ya yb) as [->|Hy]; simpl.
  - destruct (Z.eqb_spec ma mb) as [->|Hm]; simpl.
    + unfold dayNumber. simpl. destruct Ha as [Hma _]. simpl in Hma.
      rewrite !makeDay_valid by exact Hma.
      repeat split; intros; try lia.
      * f_equal. lia.
      * inversion H. lia.
    + unfold dayNumber. simpl.
      pose proof Ha as [Hma _]. pose proof Hb as [Hmb _]. simpl in Hma, Hmb.
      rewrite !makeDay_valid by assumption.
      destruct (Z_lt_le_dec ma mb) as [Hlt|Hge].
      * pose proof (dayOfYear_lt (inLeapYear yb) ma da mb db yb eq_refl Ha Hb Hlt).
        repeat split; intros; try lia. inversion H0. lia.
      * pose proof (dayOfYear_lt (inLeapYear yb) mb db ma da yb eq_refl Hb Ha ltac:(lia)).
        repeat split; intros; try lia. inversion H0. lia.
  - destruct (Z_lt_le_dec ya yb) as [Hlt|Hge].
    + pose proof (dayFromYear_mono (ya + 1) yb ltac:(lia)).
      repeat split; intros; try lia. inversion H0. lia.
    + pose proof (dayFromYear_mono (yb + 1) ya ltac:(lia)).
      repeat split; intros; try lia. inversion H0. lia.
Qed.

Lemma isBetween_dayNumber date s e :
  validDate date -> validDate s -> validDate e ->
  (isBetween date (Some s) (Some e) = true
   <-> dayNumber s <= dayNumber date <= dayNumber e).
Proof.
  intros Hd Hs He.
  destruct (compareDateParts_chronological date s Hd Hs) as (H1 & _ & _).
  destruct (compareDateParts_chronological date e Hd He) as (_ & H2 & _).
  unfold isBetween. rewrite andb_true_iff, !Z.leb_le. tauto.
Qed.

(** X2. For well-formed dates, isBetween(date, start, end) is true exactly
    when the day number of the date lies between those of start and end, both
    included, so compareDateParts orders dates chronologically; when a bound
    has NaN parts (the result of addDays on an invalid date) isBetween is
    false. *)
Theorem isBetween_chronological date s e :
  validDate date -> validDate s -> validDate e ->
  (isBetween date (Some s) (Some e) = true
   <-> dayNumber s <= dayNumber date <= dayNumber e)
  /\ isBetween date None (Some e) = false
  /\ isBetween date (Some s) None = false.
Proof.
  intros Hd Hs He. split; [|split; reflexivity].
  destruct (compareDateParts_chronological date s Hd Hs) as (H1 & _ & _).
  destruct (compareDateParts_chronological date e Hd He) as (_ & H2 & _).
  unfold isBetween. rewrite andb_true_iff, !Z.leb_le. tauto.
Qed.

Lemma isBetween_chronological_witness :
  (isBetween (mkDate 2024 3 1) (Some (mkDate 2024 2 26)) (Some (mkDate 2024 3 3)) = true
   <-> dayNumber (mkDate 2024 2 26) <= dayNumber (mkDate 2024 3 1)
       <= dayNumber (mkDate 2024 3 3))
  /\ isBetween (mkDate 2024 3 1) None (Some (mkDate 2024 3 3)) = false
  /\ isBetween (mkDate 2024 3 1) (Some (mkDate 2024 2 26)) None = false.
Proof.
  apply (isBetween_chronological (mkDate 2024 3 1) (mkDate 2024 2 26) (mkDate 2024 3 3));
    split; vm_compute; split; discriminate.
Defined.

Lemma utc_dayNumber p :
  (year p < 0 \/ 99 < year p) -> Z.abs (dayNumber p) <= 100000000 ->
  UTC (year p) (month p - 1) (day p) = Some (dayNumber p * msPerDay).
Proof.
  intros Hq Hn. unfold UTC, dayNumber in *.
  assert (Hquirk : (0 <=? year p) && (year p <=? 99) = false).
  { destruct (Z.leb_spec 0 (year p)), (Z.leb_spec (year p) 99); simpl; try reflexivity; lia. }
  rewrite Hquirk. apply timeClip_small. unfold maxTime, msPerDay. lia.
Qed.

Lemma isoWeekRange_bounds p :
  validDate p -> 200 <= year p <= 200000 ->
  exists s e,
    getIsoWeekRange p = (Some s, Some e)
    /\ validDate s /\ validDate e
    /\ dayNumber s = dayNumber p - (weekDay (dayNumber p) + 6) mod 7
    /\ dayNumber e = dayNumber s + 6.
Proof.
  intros Hv Hy.
  pose proof (dayNumber_range p Hv ltac:(lia)) as Hr.
  unfold getIsoWeekRange.
  rewrite utc_dayNumber by lia.
  unfold dayOf. rewrite Z.div_mul by (unfold msPerDay; lia).
  set (n := dayNumber p) in *.
  set (offset := (weekDay n + 6) mod 7).
  assert (Hoff : 0 <= offset < 7) by (subst offset; apply Z.mod_pos_bound; lia).
  destruct (addDays_shift_facts p (- offset) Hv Hy ltac:(lia)) as (s & Hs & Hsv & Hsn).
  fold n in Hsn.
  pose proof (civilFromDay_year_near p (- offset) Hv ltac:(lia)) as Hsy.
  assert (Hs' : s = civilFromDay (n + - offset)).
  { rewrite addDays_dayNumber in Hs by (fold n; lia). inversion Hs. reflexivity. }
  fold n in Hsy. rewrite <- Hs' in Hsy.
  assert (Hse : addDays s 6 = Some (civilFromDay (dayNumber s + 6))).
  { apply addDays_dayNumber; lia. }
  destruct (civilFromDay_valid (dayNumber s + 6)) as [Hev Hen].
  exists s, (civilFromDay (dayNumber s + 6)).
  rewrite Hs, Hse. split; [reflexivity|].
  split; [exact Hsv|]. split; [exact Hev|]. split; [lia | exact Hen].
Qed.

(** The days from a Monday to the Sunday after it are those of one week. *)
Lemma same_week_between n s e q :
  validDate s -> validDate e -> validDate q ->
  dayNumber s = n - (weekDay n + 6) mod 7 -> dayNumber e = dayNumber s + 6 ->
  (isBetween q (Some s) (Some e) = true <-> (dayNumber q + 3) / 7 = (n + 3) / 7).
Proof.
  intros Hsv Hev Hq Hsn Hen.
  rewrite (isBetween_dayNumber q s e Hq Hsv Hev).
  rewrite Hen, Hsn. unfold weekDay.
  split; intros H; Z.div_mod_to_equations; lia.
Qed.

(** X3. For a well-formed date with a year in 200..200000, getIsoWeekRange
    returns a Monday as start and the Sunday six days later as end, both
    well-formed, with the given date among them; a well-formed date is within
    the range (isBetween) exactly when it lies in the same Monday-to-Sunday
    week as the given date. *)
Theorem isoWeekRange_week p :
  validDate p -> 200 <= year p <= 200000 ->
  exists s e,
    getIsoWeekRange p = (Some s, Some e)
    /\ validDate s /\ validDate e
    /\ weekDay (dayNumber s) = 1
    /\ dayNumber e = dayNumber s + 6
    /\ dayNumber s <= dayNumber p <= dayNumber e
    /\ (forall q, validDate q ->
          (isBetween q (Some s) (Some e) = true
           <-> (dayNumber q + 3) / 7 = (dayNumber p + 3) / 7)).
Proof.
  intros Hv Hy.
  destruct (isoWeekRange_bounds p Hv Hy) as (s & e & Hr & Hsv & Hev & Hsn & Hen).
  exists s, e. split; [exact Hr|]. split; [exact Hsv|]. split; [exact Hev|].
  assert (Hoff : 0 <= (weekDay (dayNumber p) + 6) mod 7 < 7)
    by (apply Z.mod_pos_bound; lia).
  split.
  { rewrite Hsn. unfold weekDay. Z.div_mod_to_equations. lia. }
  split; [exact Hen|]. split; [lia|].
  intros q Hq. apply same_week_between; assumption.
Qed.

Lemma isoWeekRange_week_witness :
  exists s e,
    getIsoWeekRange (mkDate 2024 3 1) = (Some s, Some e)
    /\ validDate s /\ validDate e
    /\ weekDay (dayNumber s) = 1
    /\ dayNumber e = dayNumber s + 6
    /\ dayNumber s <= dayNumber (mkDate 2024 3 1) <= dayNumber e
    /\ (forall q, validDate q ->
          (isBetween q (Some s) (Some e) = true
           <-> (dayNumber q + 3) / 7 = (dayNumber (mkDate 2024 3 1) + 3) / 7)).
Proof.
  apply (isoWeekRange_week (mkDate 2024 3 1)).
  - split; vm_compute; split; discriminate.
  - simpl. lia.
Defined.

Lemma monthRange_bounds p :
  validDate p -> 200 <= year p <= 200000 ->
  getMonthRange p
  = (Some (mkDate (year p) (month p) 1),
     Some (mkDate (year p) (month p) (daysInMonth (year p) (month p)))).
Proof.
  intros Hv Hy. destruct p as [y m dd]. pose proof Hv as [Hm Hd].
  simpl in Hm, Hd, Hy. simpl year; simpl month.
  unfold getMonthRange. simpl. f_equal.
  destruct (Z.eqb_spec m 12) as [->|Hne].
  - rewrite addDays_yesterday; simpl; try lia.
    + unfold previousDay. simpl. replace (y + 1 - 1) with y by lia. reflexivity.
    + split; simpl; [lia|]. unfold daysInMonth. simpl. lia.
  - rewrite addDays_yesterday; simpl; try lia.
    + unfold previousDay. simpl.
      destruct (Z.ltb_spec 1 (m + 1)); [|lia].
      replace (m + 1 - 1) with m by lia. reflexivity.
    + split; simpl; [lia|]. pose proof (daysInMonth_bounds y (m + 1)). lia.
Qed.

Lemma month_between y m q :
  validDate q ->
  (isBetween q (Some (mkDate y m 1)) (Some (mkDate y m (daysInMonth y m))) = true
   <-> year q = y /\ month q = m).
Proof.
  destruct q as [yq mq dq]. intros [Hmq Hdq]. simpl in *.
  unfold isBetween, compareDateParts. simpl.
  rewrite andb_true_iff, !Z.leb_le.
  destruct (Z.eqb_spec yq y) as [->|Hne]; simpl.
  - destruct (Z.eqb_spec mq m) as [->|Hne]; simpl; [|lia]. lia.
  - lia.
Qed.

Lemma year_between p q :
  validDate q ->
  (isBetween q (fst (getYearRange p)) (snd (getYearRange p)) = true
   <-> year q = year p).
Proof.
  destruct p as [y m dd]. destruct q as [yq mq dq]. intros [Hmq Hdq]. simpl in *.
  unfold isBetween, compareDateParts. simpl.
  rewrite andb_true_iff, !Z.leb_le.
  destruct (Z.eqb_spec yq y) as [->|Hne]; simpl; [|lia].
  assert (Hb := daysInMonth_bounds y mq).
  destruct (Z.eqb_spec mq 1), (Z.eqb_spec mq 12); simpl; lia.
Qed.

(** X4. For a well-formed date with a year in 200..200000, getMonthRange
    returns the first day of the month of the date and its last day by the
    calendar (28, 29, 30 or 31), and a well-formed date is within that range
    exactly when it has the same year and month; it is within the range of
    getYearRange exactly when it has the same year. *)
Theorem monthRange_yearRange p :
  validDate p -> 200 <= year p <= 200000 ->
  getMonthRange p
  = (Some (mkDate (year p) (month p) 1),
     Some (mkDate (year p) (month p) (daysInMonth (year p) (month p))))
  /\ (forall q, validDate q ->
        (isBetween q (fst (getMonthRange p)) (snd (getMonthRange p)) = true
         <-> year q = year p /\ month q = month p))
  /\ (forall q, validDate q ->
        (isBetween q (fst (getYearRange p)) (snd (getYearRange p)) = true
         <-> year q = year p)).
Proof.
  intros Hv Hy. pose proof (monthRange_bounds p Hv Hy) as Hmr.
  split; [exact Hmr|]. split.
  - intros q Hq. rewrite Hmr. simpl fst; simpl snd. apply month_between. exact Hq.
  - intros q Hq. apply year_between. exact Hq.
Qed.

Lemma monthRange_yearRange_witness :
  getMonthRange (mkDate 2024 2 10)
  = (Some (mkDate 2024 2 1), Some (mkDate 2024 2 (daysInMonth 2024 2)))
  /\ (forall q, validDate q ->
        (isBetween q (fst (getMonthRange (mkDate 2024 2 10)))
                     (snd (getMonthRange (mkDate 2024 2 10))) = true
         <-> year q = 2024 /\ month q = 2))
  /\ (forall q, validDate q ->
        (isBetween q (fst (getYearRange (mkDate 2024 2 10)))
                     (snd (getYearRange (mkDate 2024 2 10))) = true
         <-> year q = 2024)).
Proof.
  apply (monthRange_yearRange (mkDate 2024 2 10)).
  - split; vm_compute; split; discriminate.
  - simpl. lia.
Defined.

End CalendarRanges.

(** ** Printing and reading dates *)

Lemma split_iso y m d :
  allDigits y = true -> allDigits m = true -> allDigits d = true ->
  Str.split "-" (y +:+ "-" +:+ m +:+ "-" +:+ d) = [y; m; d].
Proof.
  intros Hy Hm Hd. unfold Str.split.
  rewrite (splitGo_digits "-" y "" _ Hy eq_refl).
  change ("-" +:+ m +:+ "-" +:+ d) with (String "-"%char (m +:+ "-" +:+ d)).
  simpl Str.splitGo.
  rewrite (splitGo_digits "-" m "" _ Hm eq_refl).
  change ("-" +:+ d) with (String "-"%char d).
  simpl Str.splitGo.
  rewrite <- (append_nil_r d) at 1.
  rewrite (splitGo_digits "-" d "" _ Hd eq_refl). simpl Str.splitGo.
  fold (String.rev y) (String.rev m) (String.rev d).
  rewrite !rev_involutive. reflexivity.
Qed.

Lemma usize_nb_digits u : DecimalPos.Unsigned.usize u = N.of_nat (Decimal.nb_digits u).
Proof.
  induction u; simpl Decimal.nb_digits; simpl DecimalPos.Unsigned.usize;
    rewrite ?IHu, ?Nat2N.inj_succ; reflexivity.
Qed.

(** A numeral without leading zero is at least the power of ten of its
    length less one. *)
Lemma of_uint_lower u :
  Decimal.nzhead u = u -> u <> Decimal.Nil ->
  (10 ^ N.pred (DecimalPos.Unsigned.usize u) <= Pos.of_uint u)%N.
Proof.
  intros Hnz Hne.
  assert (Hacc : forall rest (k : positive),
             (10 ^ DecimalPos.Unsigned.usize rest <= Npos (Pos.of_uint_acc rest k))%N).
  { intros rest k. rewrite DecimalPos.Unsigned.of_uint_acc_rev.
    assert (0 < 10 ^ DecimalPos.Unsigned.usize rest)%N
      by (apply N.neq_0_lt_0, N.pow_nonzero; discriminate).
    nia. }
  destruct u; simpl DecimalPos.Unsigned.usize; rewrite ?N.pred_succ;
    try (simpl Pos.of_uint; apply Hacc).
  - contradiction.
  - exfalso. simpl in Hnz. exact (nzhead_nonzero _ _ Hnz).
Qed.

Lemma to_uint_digits (p : positive) k :
  Z.pos p < 10 ^ Z.of_nat k -> (Decimal.nb_digits (Pos.to_uint p) <= k)%nat.
Proof.
  intros Hlt. set (u := Pos.to_uint p).
  assert (Hof : Pos.of_uint u = Npos p) by apply DecimalPos.Unsigned.of_to.
  assert (Hnorm : Decimal.unorm u = u).
  { pose proof (DecimalPos.Unsigned.to_of u) as H. rewrite Hof in H.
    symmetry. exact H. }
  assert (Hne : u <> Decimal.Nil) by apply DecimalPos.Unsigned.to_uint_nonnil.
  assert (Hnz : Decimal.nzhead u = u).
  { unfold Decimal.unorm in Hnorm. destruct (Decimal.nzhead u) eqn:E; try exact Hnorm.
    exfalso. apply (DecimalPos.Unsigned.to_uint_nonzero p). fold u. congruence. }
  pose proof (of_uint_lower u Hnz Hne) as Hlow.
  rewrite Hof, usize_nb_digits in Hlow.
  destruct (Nat.le_gt_cases (Decimal.nb_digits u) k) as [Hle|Hgt]; [exact Hle|].
  exfalso.
  assert (Hpow : (10 ^ N.of_nat k <= 10 ^ N.pred (N.of_nat (Decimal.nb_digits u)))%N)
    by (apply N.pow_le_mono_r; lia).
  assert (Hz : 10 ^ Z.of_nat k <= Z.pos p).
  { change (Z.pos p) with (Z.of_N (Npos p)).
    replace (10 ^ Z.of_nat k) with (Z.of_N (10 ^ N.of_nat k)); [lia|].
    rewrite N2Z.inj_pow, nat_N_Z. reflexivity. }
  lia.
Qed.

Lemma string_of_uint_digits u : allDigits (NilEmpty.string_of_uint u) = true.
Proof.
  induction u; simpl NilEmpty.string_of_uint; rewrite ?allDigits_cons, ?IHu; reflexivity.
Qed.

(** [String(n)] for a natural number: its decimal numeral. *)
Lemma toString_numeral n :
  0 <= n ->
  exists u, Num.toString n = NilEmpty.string_of_uint u /\ u <> Decimal.Nil
            /\ Z.of_uint u = n
            /\ forall k, n < 10 ^ Z.of_nat k -> (0 < k)%nat ->
                         (Decimal.nb_digits u <= k)%nat.
Proof.
  intros Hn. unfold Num.toString. destruct n as [|p|p]; [| |lia].
  - exists Decimal.zero. repeat split; try discriminate.
    intros k _ Hk. simpl. lia.
  - exists (Pos.to_uint p). simpl Z.to_int.
    pose proof (DecimalPos.Unsigned.to_uint_nonnil p) as Hne.
    split; [|split; [exact Hne|split]].
    + simpl. destruct (Pos.to_uint p); try reflexivity. contradiction.
    + unfold Z.of_uint. rewrite DecimalPos.Unsigned.of_to. reflexivity.
    + intros k Hk _. apply to_uint_digits. exact Hk.
Qed.

Lemma of_uint_leading_zeros k u : Z.of_uint (Nat.iter k Decimal.D0 u) = Z.of_uint u.
Proof. induction k as [|k IH]; [reflexivity|]. simpl Nat.iter. exact IH. Qed.

(** Padding [String(n)] to a width that its digits do not exceed gives that
    many digits, which denote [n]. *)
Lemma padded_number width n :
  (0 < width)%nat -> 0 <= n < 10 ^ Z.of_nat width ->
  allDigits (padStart width (Num.toString n)) = true
  /\ String.length (padStart width (Num.toString n)) = width
  /\ Num.digitsValue (padStart width (Num.toString n)) = n.
Proof.
  intros Hw [Hn Hlt].
  destruct (toString_numeral n Hn) as (u & -> & Hne & Hv & Hlen).
  specialize (Hlen width Hlt Hw).
  unfold padStart. rewrite string_of_uint_length, <- string_of_uint_iter.
  split; [apply string_of_uint_digits|]. split.
  - rewrite string_of_uint_length, nb_digits_iter_D0. lia.
  - unfold Num.digitsValue. rewrite NilEmpty.usu.
    rewrite of_uint_leading_zeros. exact Hv.
Qed.

Lemma padded4 n : 0 <= n <= 9999 ->
  allDigits (padStart 4 (Num.toString n)) = true
  /\ String.length (padStart 4 (Num.toString n)) = 4%nat
  /\ Num.digitsValue (padStart 4 (Num.toString n)) = n.
Proof.
  intros Hn. apply padded_number; [lia|]. change (10 ^ Z.of_nat 4) with 10000. lia.
Qed.

Lemma padded2 n : 0 <= n <= 99 ->
  allDigits (padStart 2 (Num.toString n)) = true
  /\ String.length (padStart 2 (Num.toString n)) = 2%nat
  /\ Num.digitsValue (padStart 2 (Num.toString n)) = n.
Proof.
  intros Hn. apply padded_number; [lia|]. change (10 ^ Z.of_nat 2) with 100. lia.
Qed.

Lemma print_then_parse p :
  0 <= year p <= 9999 -> 0 <= month p <= 99 -> 0 <= day p <= 99 ->
  isoShape (datePartsToString (Some p))
  /\ parseDateString (datePartsToString (Some p)) = Some p.
Proof.
  destruct p as [y m d]. intros Hy Hm Hd. simpl in Hy, Hm, Hd.
  destruct (padded4 y Hy) as (Ay & Ly & Vy).
  destruct (padded2 m Hm) as (Am & Lm & Vm).
  destruct (padded2 d Hd) as (Ad & Ld & Vd).
  unfold datePartsToString. simpl year; simpl month; simpl day.
  set (ys := padStart 4 (Num.toString y)) in *.
  set (ms := padStart 2 (Num.toString m)) in *.
  set (ds := padStart 2 (Num.toString d)) in *.
  assert (Hs : ((ys +:+ "-") +:+ ms +:+ "-") +:+ ds
               = ys +:+ "-" +:+ ms +:+ "-" +:+ ds).
  { rewrite !append_assoc. reflexivity. }
  assert (Hiso : isoShape (ys +:+ "-" +:+ ms +:+ "-" +:+ ds)).
  { exists ys, ms, ds. repeat split; assumption. }
  split.
  - exact Hiso.
  - unfold parseDateString.
    apply matchesDateShape_iso in Hiso. rewrite Hiso.
    rewrite split_iso by assumption. simpl map. rewrite Vy, Vm, Vd. reflexivity.
Qed.

Lemma parse_then_print s p :
  parseDateString s = Some p -> isoShape s /\ datePartsToString (Some p) = s.
Proof.
  intros Hp. unfold parseDateString in Hp.
  destruct (matchesDateShape s) eqn:Hs; [|discriminate].
  split; [apply matchesDateShape_iso; exact Hs|].
  pose proof (join_split "-" s) as Hj.
  unfold matchesDateShape in Hs.
  destruct (Str.split "-" s) as [|y [|m [|d [|? ?]]]]; try discriminate Hs.
  repeat (apply andb_prop in Hs as [Hs ?]).
  simpl map in Hp. injection Hp as <-.
  unfold datePartsToString. simpl year; simpl month; simpl day.
  rewrite (padded_digits y 3), (padded_digits m 1), (padded_digits d 1) by assumption.
  exact Hj.
Qed.

(** X5. datePartsToString and parseDateString are inverse on the shape
    YYYY-MM-DD: printing parts with a year in 0..9999 and a month and a day in
    0..99 gives a text of that shape that parseDateString reads back as the
    same parts, and every text that parseDateString accepts has that shape and
    prints back unchanged. *)
Theorem date_text_round_trip :
  (forall p, 0 <= year p <= 9999 -> 0 <= month p <= 99 -> 0 <= day p <= 99 ->
     isoShape (datePartsToString (Some p))
     /\ parseDateString (datePartsToString (Some p)) = Some p)
  /\ (forall s p, parseDateString s = Some p ->
        isoShape s /\ datePartsToString (Some p) = s).
Proof.
  split.
  - intros p Hy Hm Hd. apply print_then_parse; assumption.
  - intros s p Hp. apply parse_then_print. exact Hp.
Qed.

Lemma date_text_round_trip_witness :
  isoShape (datePartsToString (Some (mkDate 2024 3 1)))
  /\ parseDateString (datePartsToString (Some (mkDate 2024 3 1))) = Some (mkDate 2024 3 1).
Proof.
  apply (proj1 date_text_round_trip (mkDate 2024 3 1)); simpl; lia.
Defined.

(** ** The alias normaliser *)



Lemma everyChar_app p a b :
  everyChar p (a +:+ b) = everyChar p a && everyChar p b.
Proof.
  induction a as [|c a IH]; [reflexivity|].
  rewrite append_cons. simpl. rewrite IH. apply andb_assoc.
Qed.

Lemma everyChar_rev p s : everyChar p (String.rev s) = everyChar p s.
Proof.
  induction s as [|c s IH]; [reflexivity|].
  rewrite rev_cons, everyChar_app, IH. simpl.
  rewrite andb_true_r. apply andb_comm.
Qed.





(** ** The tag index *)

Lemma indexSound_weaken seen x m : indexSound seen m -> indexSound (seen ++ [x]) m.
Proof.
  intros H n v Hn. destruct (H n v Hn) as (Hne & aliases & Hin & Hor).
  split; [exact Hne|]. exists aliases. split; [|exact Hor].
  apply in_app_iff. left. exact Hin.
Qed.

Lemma fold_addAlias_sound seen key all : forall aliases m,
  In (key, all) seen -> (forall a, In a aliases -> In a all) ->
  indexSound seen m -> indexSound seen (fold_left (addAlias key) aliases m).
Proof.
  induction aliases as [|a aliases IH]; intros m Hkey Hsub Hm; [exact Hm|].
  simpl. apply IH; [exact Hkey | intros; apply Hsub; right; assumption |].
  unfold addAlias.
  destruct (Str.isEmpty (normalizeToken a)) eqn:He; simpl; [exact Hm|].
  destruct (bool_decide_reflect (is_Some (m !! normalizeToken a))) as [Hs|Hs];
    simpl; [exact Hm|].
  intros n v Hn.
  destruct (String.eq_dec (normalizeToken a) n) as [<-|Hne].
  - rewrite lookup_insert_eq in Hn. injection Hn as <-.
    split; [apply isEmpty_false; exact He|].
    exists all. split; [exact Hkey|]. right. exists a. split; [|reflexivity].
    apply Hsub. left. reflexivity.
  - rewrite lookup_insert_ne in Hn by exact Hne. apply Hm. exact Hn.
Qed.

Lemma addKey_sound seen key aliases m :
  indexSound seen m -> indexSound (seen ++ [(key, aliases)]) (addKey m (key, aliases)).
Proof.
  intros Hm. unfold addKey.
  apply (fold_addAlias_sound _ key aliases).
  - apply in_app_iff. right. left. reflexivity.
  - auto.
  - destruct (Str.isEmpty (normalizeToken key)) eqn:He; simpl.
    + apply indexSound_weaken. exact Hm.
    + intros n v Hn.
      destruct (String.eq_dec (normalizeToken key) n) as [<-|Hne].
      * rewrite lookup_insert_eq in Hn. injection Hn as <-.
        split; [apply isEmpty_false; exact He|].
        exists aliases. split; [|left; reflexivity].
        apply in_app_iff. right. left. reflexivity.
      * rewrite lookup_insert_ne in Hn by exact Hne.
        apply (indexSound_weaken seen (key, aliases) m Hm). exact Hn.
Qed.

Lemma fold_addKey_sound tags : indexSound tags (fold_left addKey tags ∅).
Proof.
  induction tags as [|[key aliases] tags IH] using rev_ind.
  - intros n v Hn. simpl in Hn. rewrite lookup_empty in Hn. discriminate.
  - rewrite fold_left_app. simpl. apply addKey_sound. exact IH.
Qed.

Lemma addAlias_bound key m alias :
  normalizeToken alias <> "" -> is_Some (addAlias key m alias !! normalizeToken alias).
Proof.
  intros Hne. unfold addAlias.
  destruct (Str.isEmpty (normalizeToken alias)) eqn:He.
  { apply isEmpty_true in He. contradiction. }
  simpl.
  destruct (bool_decide_reflect (is_Some (m !! normalizeToken alias))) as [Hs|Hs]; simpl.
  - exact Hs.
  - rewrite lookup_insert_eq. eauto.
Qed.

Lemma fold_addAlias_bound key a : forall aliases m,
  In a aliases -> normalizeToken a <> "" ->
  is_Some (fold_left (addAlias key) aliases m !! normalizeToken a).
Proof.
  induction aliases as [|b aliases IH]; intros m Hin Hne; [contradiction|].
  simpl. destruct Hin as [->|Hin].
  - destruct (addAlias_bound key m a Hne) as [v Hv].
    exists v. apply fold_addAlias_preserve. exact Hv.
  - apply IH; assumption.
Qed.

Lemma addKey_preserve m entry n :
  is_Some (m !! n) -> is_Some (addKey m entry !! n).
Proof.
  destruct entry as [key aliases]. intros [v Hv]. unfold addKey.
  destruct (Str.isEmpty (normalizeToken key)); simpl.
  - exists v. apply fold_addAlias_preserve. exact Hv.
  - destruct (String.eq_dec (normalizeToken key) n) as [<-|Hne].
    + exists key. apply fold_addAlias_preserve. apply lookup_insert_eq.
    + exists v. apply fold_addAlias_preserve. rewrite lookup_insert_ne; assumption.
Qed.

Lemma fold_addKey_preserve tags : forall m n,
  is_Some (m !! n) -> is_Some (fold_left addKey tags m !! n).
Proof.
  induction tags as [|e tags IH]; intros m n H; [exact H|].
  simpl. apply IH. apply addKey_preserve. exact H.
Qed.

Lemma fold_addKey_complete key aliases : forall tags m,
  In (key, aliases) tags ->
  (normalizeToken key <> "" ->
   is_Some (fold_left addKey tags m !! normalizeToken key))
  /\ (forall a, In a aliases -> normalizeToken a <> "" ->
      is_Some (fold_left addKey tags m !! normalizeToken a)).
Proof.
  induction tags as [|e tags IH]; intros m Hin; [contradiction|].
  simpl. destruct Hin as [->|Hin]; [|apply IH; exact Hin].
  split.
  - intros Hne. apply fold_addKey_preserve.
    exists key. apply addKey_canonical. exact Hne.
  - intros a Ha Hne. apply fold_addKey_preserve.
    unfold addKey. apply fold_addAlias_bound; assumption.
Qed.

Lemma loadTags_canonical cfg n v :
  tiAliasMap (loadTags cfg) !! n = Some v -> In v (map fst (cfgTags cfg)).
Proof.
  intros Hn. destruct (fold_addKey_sound (cfgTags cfg) n v Hn) as (_ & aliases & Hin & _).
  apply in_map_iff. exists (v, aliases). auto.
Qed.

(** X7. The alias map that loadTags builds: every key of the map is the
    non-empty normalized form of a canonical key or of one of the aliases of a
    canonical key and is mapped to that canonical key, which is listed in
    canonical; and the normalized form of every canonical key and of every
    alias is a key of the map unless it is empty. *)
Theorem loadTags_index cfg :
  (forall n v, tiAliasMap (loadTags cfg) !! n = Some v ->
     n <> "" /\ In v (tiCanonical (loadTags cfg))
     /\ exists aliases, In (v, aliases) (cfgTags cfg)
          /\ (n = normalizeToken v \/ exists a, In a aliases /\ n = normalizeToken a))
  /\ (forall key aliases, In (key, aliases) (cfgTags cfg) ->
        (normalizeToken key <> "" ->
         is_Some (tiAliasMap (loadTags cfg) !! normalizeToken key))
        /\ (forall a, In a aliases -> normalizeToken a <> "" ->
            is_Some (tiAliasMap (loadTags cfg) !! normalizeToken a))).
Proof.
  unfold loadTags. simpl. split.
  - intros n v Hn.
    destruct (fold_addKey_sound (cfgTags cfg) n v Hn) as (Hne & aliases & Hin & Hor).
    split; [exact Hne|]. split.
    + apply in_map_iff. exists (v, aliases). auto.
    + exists aliases. auto.
  - intros key aliases Hin. apply fold_addKey_complete. exact Hin.
Qed.

Lemma loadTags_index_witness :
  is_Some (tiAliasMap (loadTags sampleConfig) !! normalizeToken "job").
Proof.
  refine (proj2 (proj2 (loadTags_index sampleConfig) "work" ["job"] _) "job" _ _).
  - simpl. auto.
  - simpl. auto.
  - discriminate.
Defined.

(** ** [normalizeTags] *)

Lemma inList_In s l : inList s l = true <-> In s l.
Proof.
  unfold inList. rewrite existsb_exists. split.
  - intros (x & Hx & He). apply String.eqb_eq in He. subst. exact Hx.
  - intros H. exists s. split; [exact H | apply String.eqb_refl].
Qed.

Lemma normalizeStep_spec idx acc raw :
  List.NoDup acc ->
  List.NoDup (normalizeStep idx acc raw)
  /\ (exists tail, normalizeStep idx acc raw = acc ++ tail /\ (length tail <= 1)%nat)
  /\ (forall x, In x (normalizeStep idx acc raw) <-> In x acc \/ resolves idx raw x).
Proof.
  intros Hnd. unfold normalizeStep, resolves.
  destruct (Str.isEmpty (normalizeToken raw)) eqn:He.
  { apply isEmpty_true in He. split; [exact Hnd|]. split.
    - exists []. rewrite app_nil_r. split; [reflexivity | simpl; lia].
    - intros x. split; [auto|]. intros [H|(_ & H & _)]; [exact H | contradiction]. }
  apply isEmpty_false in He.
  destruct (tiAliasMap idx !! normalizeToken raw) as [found|] eqn:Hl.
  2:{ split; [exact Hnd|]. split.
      - exists []. rewrite app_nil_r. split; [reflexivity | simpl; lia].
      - intros x. split; [auto|]. intros [H|(_ & _ & H)]; [exact H | discriminate]. }
  destruct (Str.isEmpty found) eqn:Hf; simpl.
  { apply isEmpty_true in Hf. split; [exact Hnd|]. split.
    - exists []. rewrite app_nil_r. split; [reflexivity | simpl; lia].
    - intros x. split; [auto|]. intros [H|(Hx & _ & H)]; [exact H|]. congruence. }
  apply isEmpty_false in Hf.
  destruct (inList found acc) eqn:Hi; simpl.
  { apply inList_In in Hi. split; [exact Hnd|]. split.
    - exists []. rewrite app_nil_r. split; [reflexivity | simpl; lia].
    - intros x. split; [auto|]. intros [H|(Hx & _ & H)]; [exact H|]. congruence. }
  assert (Hni : ~ In found acc).
  { intros H. apply inList_In in H. congruence. }
  split.
  { apply List.NoDup_app; [exact Hnd | repeat constructor; simpl; tauto |].
    intros x Hx [<-|[]]. contradiction. }
  split.
  - exists [found]. split; [reflexivity | simpl; lia].
  - intros x. rewrite in_app_iff. simpl. split.
    + intros [H|[<-|[]]]; [left; exact H | right; auto].
    + intros [H|(Hx & _ & H)]; [left; exact H|]. right. left. congruence.
Qed.

Lemma fold_normalizeStep_spec idx : forall raws acc,
  List.NoDup acc ->
  List.NoDup (fold_left (normalizeStep idx) raws acc)
  /\ (exists tail, fold_left (normalizeStep idx) raws acc = acc ++ tail
                   /\ (length tail <= length raws)%nat)
  /\ (forall x, In x (fold_left (normalizeStep idx) raws acc)
                <-> In x acc \/ exists raw, In raw raws /\ resolves idx raw x).
Proof.
  induction raws as [|raw raws IH]; intros acc Hnd; simpl.
  - split; [exact Hnd|]. split.
    + exists []. rewrite app_nil_r. split; [reflexivity | simpl; lia].
    + intros x. split; [auto|]. intros [H|(r & [] & _)]. exact H.
  - destruct (normalizeStep_spec idx acc raw Hnd) as (Hnd1 & (t1 & Ht1 & Hl1) & Hin1).
    destruct (IH _ Hnd1) as (Hnd2 & (t2 & Ht2 & Hl2) & Hin2).
    split; [exact Hnd2|]. split.
    + exists (t1 ++ t2). rewrite Ht2, Ht1, <- app_assoc. split; [reflexivity|].
      rewrite length_app. lia.
    + intros x. rewrite Hin2, Hin1. split.
      * intros [[H|H]|(r & Hr & H)]; [left; exact H | right; exists raw; auto |].
        right. exists r. auto.
      * intros [H|(r & [<-|Hr] & H)]; [left; left; exact H | left; right; exact H |].
        right. exists r. auto.
Qed.

Lemma normalizeTags_found raws idx :
  List.NoDup (normalizeTags raws idx)
  /\ forall x, In x (normalizeTags raws idx) ->
       x <> "" /\ exists raw, In raw raws /\ tiAliasMap idx !! normalizeToken raw = Some x.
Proof.
  unfold normalizeTags.
  destruct (fold_normalizeStep_spec idx raws [] (List.NoDup_nil _)) as (Hnd & _ & Hin).
  split; [exact Hnd|]. intros x Hx.
  apply Hin in Hx as [[]|(raw & Hraw & Hne & _ & Hl)]. eauto.
Qed.

(** X8. normalizeTags returns, without repetition, exactly the non-empty
    values that the alias map holds for the non-empty normalized forms of the
    raw tokens; it returns at most one key per token, and the keys found for a
    prefix of the tokens stay at the front when more tokens follow. *)
Theorem normalizeTags_spec raws idx :
  List.NoDup (normalizeTags raws idx)
  /\ (length (normalizeTags raws idx) <= length raws)%nat
  /\ (forall x, In x (normalizeTags raws idx)
        <-> exists raw, In raw raws /\ x <> "" /\ normalizeToken raw <> ""
                        /\ tiAliasMap idx !! normalizeToken raw = Some x)
  /\ (forall more, exists tail,
        normalizeTags (raws ++ more) idx = normalizeTags raws idx ++ tail).
Proof.
  unfold normalizeTags.
  destruct (fold_normalizeStep_spec idx raws [] (List.NoDup_nil _))
    as (Hnd & (t & Ht & Hl) & Hin).
  split; [exact Hnd|]. split; [rewrite Ht; simpl; exact Hl|]. split.
  - intros x. rewrite Hin. unfold resolves. split.
    + intros [[]|H]. exact H.
    + intros H. right. exact H.
  - intros more. rewrite fold_left_app.
    destruct (fold_normalizeStep_spec idx more _ Hnd) as (_ & (t' & Ht' & _) & _).
    exists t'. exact Ht'.
Qed.

Lemma normalizeTags_spec_witness :
  In "work" (normalizeTags ["Job!"] sampleIndex).
Proof.
  refine (proj2 (proj1 (proj2 (proj2 (normalizeTags_spec ["Job!"] sampleIndex))) "work") _).
  exists "Job!". split; [simpl; auto|]. split; [discriminate|].
  split; [discriminate | vm_compute; reflexivity].
Defined.

(** ** The classifier's answer *)

Lemma filter_id {A} (f : A -> bool) l :
  Forall (fun x => f x = true) l -> List.filter f l = l.
Proof.
  induction 1 as [|x l Hx _ IH]; [reflexivity|].
  simpl. rewrite Hx, IH. reflexivity.
Qed.

Lemma filter_Forall {A} (f : A -> bool) l :
  Forall (fun x => f x = true) (List.filter f l).
Proof.
  induction l as [|x l IH]; simpl; [constructor|].
  destruct (f x) eqn:E; [constructor; assumption | assumption].
Qed.

Lemma sanitizeResult_shape result canonical sanitized :
  sanitizeResult result canonical = Some sanitized ->
  exists p sec c,
    sanitized = cleanAnswer p sec c (jget "new_alias_suggestions" result)
    /\ jget "primary" result = JStr p /\ In p canonical
    /\ Forall (fun t => exists s, t = JStr s /\ In s canonical /\ s <> p
                                  /\ exists items, jget "secondary" result = JArr items
                                                   /\ In t items) sec
    /\ (0 <= c <= 1)%Q
    /\ (jget "confidence" result = JNum c \/ c = 0%Q).
Proof.
  intros H. unfold sanitizeResult in H.
  assert (Hobj : exists primary,
             jget "primary" result = primary
             /\ includesValue canonical primary = true
             /\ sanitized =
                JObj [("primary", primary);
                      ("secondary",
                       JArr match jget "secondary" result with
                            | JArr items =>
                                List.filter (fun tag => includesValue canonical tag
                                                        && strictNeq tag primary) items
                            | _ => []
                            end);
                      ("confidence",
                       match jget "confidence" result with
                       | JNum c => if Qle_bool 0 c && Qle_bool c 1 then JNum c else JNum 0
                       | _ => JNum 0
                       end);
                      ("new_alias_suggestions", jget "new_alias_suggestions" result)]).
  { destruct result; try discriminate H;
      cbv zeta in H;
      destruct (includesValue canonical _) eqn:Hp; simpl in H; try discriminate H;
      injection H as <-; eexists; (split; [reflexivity|]); split; [exact Hp | reflexivity]. }
  clear H. destruct Hobj as (primary & Hprim & Hinc & ->).
  destruct primary as [| | | |p| |]; try discriminate Hinc.
  simpl in Hinc. apply inList_true in Hinc.
  set (sec := match jget "secondary" result with
              | JArr items => List.filter (fun tag => includesValue canonical tag
                                                      && strictNeq tag (JStr p)) items
              | _ => []
              end).
  assert (Hsec : Forall (fun t => (includesValue canonical t && strictNeq t (JStr p)) = true
                                  /\ exists items, jget "secondary" result = JArr items
                                                   /\ In t items) sec).
  { subst sec. destruct (jget "secondary" result) as [| | | | |items|]; try constructor.
    apply List.Forall_forall. intros t Ht. apply filter_In in Ht as [Hin Hf].
    split; [exact Hf | eauto]. }
  set (conf := match jget "confidence" result with
               | JNum c => if Qle_bool 0 c && Qle_bool c 1 then JNum c else JNum 0
               | _ => JNum 0
               end).
  assert (Hconf : exists c, conf = JNum c /\ Qle_bool 0 c && Qle_bool c 1 = true
                            /\ (jget "confidence" result = JNum c \/ c = 0%Q)).
  { subst conf. destruct (jget "confidence" result) as [| | |c| | |];
      try (exists 0%Q; split; [reflexivity|]; split; [reflexivity | right; reflexivity]).
    destruct (Qle_bool 0 c && Qle_bool c 1) eqn:E.
    - exists c. auto.
    - exists 0%Q. split; [reflexivity|]. split; [reflexivity | right; reflexivity]. }
  destruct Hconf as (c & -> & Hc & Hfrom).
  exists p, sec, c. unfold cleanAnswer.
  split; [reflexivity|]. split; [exact Hprim|]. split; [exact Hinc|]. split.
  { apply List.Forall_forall. intros t Ht.
    rewrite List.Forall_forall in Hsec. destruct (Hsec t Ht) as (Hf & Hitems).
    apply andb_prop in Hf as [Hi Hn].
    destruct t as [| | | |s| |]; try discriminate Hi.
    exists s. split; [reflexivity|]. split; [apply inList_true; exact Hi|].
    split; [|exact Hitems].
    simpl in Hn. intros ->. rewrite String.eqb_refl in Hn. discriminate. }
  split.
  { apply andb_prop in Hc as [H0 H1]. split; apply Qle_bool_iff; assumption. }
  exact Hfrom.
Qed.

(** X9. What sanitizeResult lets through: the result is an object whose
    primary is the primary of the answer and a canonical key, whose secondary
    is a list of strings taken from the secondary of the answer that are
    canonical keys other than the primary, whose confidence is the confidence
    of the answer when that is a number between 0 and 1 and 0 otherwise, and
    whose suggestions are passed on as they came; sanitizing a sanitized
    answer returns it unchanged. *)
Theorem sanitizeResult_clean result canonical sanitized :
  sanitizeResult result canonical = Some sanitized ->
  exists p sec c,
    sanitized = cleanAnswer p sec c (jget "new_alias_suggestions" result)
    /\ jget "primary" result = JStr p /\ In p canonical
    /\ Forall (fun t => exists s, t = JStr s /\ In s canonical /\ s <> p
                                  /\ exists items, jget "secondary" result = JArr items
                                                   /\ In t items) sec
    /\ (0 <= c <= 1)%Q
    /\ (jget "confidence" result = JNum c \/ c = 0%Q)
    /\ sanitizeResult sanitized canonical = Some sanitized.
Proof.
  intros H.
  destruct (sanitizeResult_shape _ _ _ H) as (p & sec & c & -> & Hprim & Hp & Hsec & Hc & Hfrom).
  exists p, sec, c.
  split; [reflexivity|]. split; [exact Hprim|]. split; [exact Hp|].
  split; [exact Hsec|]. split; [exact Hc|]. split; [exact Hfrom|].
  unfold sanitizeResult, cleanAnswer. simpl jget. cbv zeta.
  assert (Hinc : includesValue canonical (JStr p) = true).
  { simpl. unfold inList. apply existsb_exists. exists p.
    split; [exact Hp | apply String.eqb_refl]. }
  assert (Hconf : Qle_bool 0 c && Qle_bool c 1 = true).
  { destruct Hc as [H0 H1]. apply andb_true_intro.
    split; apply Qle_bool_iff; assumption. }
  rewrite Hinc, Hconf. simpl negb. cbv iota.
  rewrite filter_id; [reflexivity|].
  eapply List.Forall_impl; [|exact Hsec]. simpl.
  intros t (x & -> & Hx & Hne & _). simpl.
  assert (Hxin : inList x canonical = true).
  { unfold inList. apply existsb_exists. exists x.
    split; [exact Hx | apply String.eqb_refl]. }
  rewrite Hxin. simpl.
  destruct (String.eqb_spec x p); [contradiction | reflexivity].
Qed.

Lemma sanitizeResult_clean_witness :
  exists p sec c,
    JObj [("primary", JStr "work"); ("secondary", JArr [JStr "study"]);
          ("confidence", JNum (9 # 10)); ("new_alias_suggestions", JUndefined)]
    = cleanAnswer p sec c (jget "new_alias_suggestions" workAnswer)
    /\ jget "primary" workAnswer = JStr p /\ In p ["work"; "study"]
    /\ Forall (fun t => exists s, t = JStr s /\ In s ["work"; "study"] /\ s <> p
                                  /\ exists items, jget "secondary" workAnswer = JArr items
                                                   /\ In t items) sec
    /\ (0 <= c <= 1)%Q
    /\ (jget "confidence" workAnswer = JNum c \/ c = 0%Q)
    /\ sanitizeResult
         (JObj [("primary", JStr "work"); ("secondary", JArr [JStr "study"]);
                ("confidence", JNum (9 # 10)); ("new_alias_suggestions", JUndefined)])
         ["work"; "study"]
       = Some (JObj [("primary", JStr "work"); ("secondary", JArr [JStr "study"]);
                     ("confidence", JNum (9 # 10)); ("new_alias_suggestions", JUndefined)]).
Proof.
  apply (sanitizeResult_clean workAnswer ["work"; "study"]). reflexivity.
Defined.

(** ** Alias suggestions *)









(** ** Cache keys *)

Lemma unescapeHead_escapeChar c rest :
  unescapeHead (Json.escapeChar c +:+ rest) = Some (c, rest).
Proof.
  destruct c as [[] [] [] [] [] [] [] []]; reflexivity.
Qed.

Lemma unescapeHead_quote rest : unescapeHead (String Json.dquote rest) = None.
Proof. reflexivity. Qed.

Lemma escape_cons c s : Json.escape (String c s) = Json.escapeChar c +:+ Json.escape s.
Proof. reflexivity. Qed.

Lemma escape_closed_inj s1 : forall s2 r1 r2,
  Json.escape s1 +:+ String Json.dquote r1 = Json.escape s2 +:+ String Json.dquote r2 ->
  s1 = s2 /\ r1 = r2.
Proof.
  induction s1 as [|c1 s1 IH]; intros [|c2 s2] r1 r2 H.
  - simpl Json.escape in H. rewrite !append_nil in H. injection H as ->. auto.
  - exfalso. apply (f_equal unescapeHead) in H.
    rewrite escape_cons, append_assoc, unescapeHead_escapeChar in H.
    simpl Json.escape in H. rewrite append_nil, unescapeHead_quote in H. discriminate.
  - exfalso. apply (f_equal unescapeHead) in H.
    rewrite escape_cons, append_assoc, unescapeHead_escapeChar in H.
    simpl Json.escape in H. rewrite append_nil, unescapeHead_quote in H. discriminate.
  - apply (f_equal unescapeHead) in H.
    rewrite !escape_cons, !append_assoc, !unescapeHead_escapeChar in H.
    injection H as -> H. destruct (IH _ _ _ H) as (-> & ->). auto.
Qed.

Lemma quote_inj s1 s2 r1 r2 :
  Json.quote s1 +:+ r1 = Json.quote s2 +:+ r2 -> s1 = s2 /\ r1 = r2.
Proof.
  unfold Json.quote. rewrite !append_cons, !append_assoc, !append_cons, !append_nil.
  intros H. injection H as H. apply escape_closed_inj. exact H.
Qed.

Lemma string_tail_inj c s t : String c s = String c t -> s = t.
Proof. intros H. injection H as ->. reflexivity. Qed.

Lemma quote_head s : exists t, Json.quote s = String Json.dquote t.
Proof. unfold Json.quote. eauto. Qed.

Lemma join_quotes_inj t1 : forall t2 r1 r2,
  Str.join "," (map Json.quote t1) +:+ String "]" r1
  = Str.join "," (map Json.quote t2) +:+ String "]" r2 ->
  t1 = t2 /\ r1 = r2.
Proof.
  induction t1 as [|x xs IH]; intros [|y ys] r1 r2 H.
  - simpl in H. rewrite !append_nil in H. injection H as ->. auto.
  - exfalso. simpl map in H. simpl Str.join in H at 1. rewrite append_nil in H.
    destruct (quote_head y) as (t & Hy).
    destruct ys; simpl Str.join in H; rewrite Hy, !append_cons in H; discriminate H.
  - exfalso. simpl map in H. simpl Str.join in H at 2. rewrite append_nil in H.
    destruct (quote_head x) as (t & Hx).
    destruct xs; simpl Str.join in H; rewrite Hx, !append_cons in H; discriminate H.
  - simpl map in H.
    assert (Hj : forall z zs r,
               Str.join "," (Json.quote z :: map Json.quote zs) +:+ String "]" r
               = Json.quote z +:+ match zs with
                                  | [] => String "]" r
                                  | _ => String "," (Str.join "," (map Json.quote zs)
                                                     +:+ String "]" r)
                                  end).
    { intros z [|z' zs] r; [reflexivity|].
      change (Str.join "," (Json.quote z :: map Json.quote (z' :: zs)))
        with (Json.quote z +:+ "," +:+ Str.join "," (map Json.quote (z' :: zs))).
      rewrite !append_assoc. reflexivity. }
    rewrite !Hj in H. apply quote_inj in H as (-> & H).
    destruct xs as [|x' xs], ys as [|y' ys]; try discriminate H.
    + injection H as ->. auto.
    + apply string_tail_inj in H. destruct (IH _ _ _ H) as (Heq & ->).
      rewrite Heq. auto.
Qed.

Lemma append_cancel_l p a b : p +:+ a = p +:+ b -> a = b.
Proof.
  induction p as [|c p IH]; [rewrite !append_nil; auto|].
  rewrite !append_cons. intros H. apply string_tail_inj in H. auto.
Qed.

(** X11. The cache key JSON.stringify({ rawTags, note }) determines the raw
    tags and the note: two requests have the same cache key only when they
    have the same raw tags, in the same order, and the same note (ASCII
    fragment of the model). *)
Theorem stringifyKey_injective tags1 note1 tags2 note2 :
  Json.stringifyKey tags1 note1 = Json.stringifyKey tags2 note2 ->
  tags1 = tags2 /\ note1 = note2.
Proof.
  intros H.
  assert (Hshape : forall t n,
             Json.stringifyKey t n
             = ("{" +:+ Json.quote "rawTags" +:+ ":[")
               +:+ (Str.join "," (map Json.quote t)
                    +:+ String "]" (("," +:+ Json.quote "note" +:+ ":")
                                    +:+ (Json.quote n +:+ "}")))).
  { intros t n. unfold Json.stringifyKey. rewrite !append_assoc. reflexivity. }
  rewrite !Hshape in H. apply append_cancel_l in H.
  apply join_quotes_inj in H as (-> & H).
  apply append_cancel_l in H. apply quote_inj in H as (-> & _). auto.
Qed.

Lemma stringifyKey_injective_witness :
  ["nonexistent"] = ["nonexistent"] /\ "idea" = "idea".
Proof.
  apply (stringifyKey_injective ["nonexistent"] "idea" ["nonexistent"] "idea").
  reflexivity.
Defined.

(** ** The shape of a parsed line *)

Lemma rev_nonempty s : s <> "" -> String.rev s <> "".
Proof.
  destruct s as [|c s]; [congruence|]. intros _. rewrite rev_cons.
  destruct (String.rev s); discriminate.
Qed.

Lemma tokensGo_spec s : forall cur,
  (forall w, cur = Some w -> w <> "" /\ everyChar notSpace w = true) ->
  Forall (fun t => t <> "" /\ everyChar notSpace t = true) (Str.tokensGo cur s).
Proof.
  induction s as [|c s IH]; intros cur Hcur; simpl.
  - destruct cur as [w|]; [|constructor].
    destruct (Hcur w eq_refl) as (Hne & Hw).
    constructor; [|constructor]. split; [apply rev_nonempty; exact Hne|].
    rewrite everyChar_rev. exact Hw.
  - destruct (Str.isSpace c) eqn:Hc.
    + destruct cur as [w|].
      * destruct (Hcur w eq_refl) as (Hne & Hw).
        constructor; [|apply IH; discriminate].
        split; [apply rev_nonempty; exact Hne|]. rewrite everyChar_rev. exact Hw.
      * apply IH. discriminate.
    + apply IH. intros w Hw. injection Hw as <-. split; [discriminate|].
      simpl. unfold notSpace at 1. rewrite Hc. simpl.
      destruct cur as [w|]; [|reflexivity]. apply (Hcur w eq_refl).
Qed.

Lemma tokens_spec s :
  Forall (fun t => t <> "" /\ everyChar notSpace t = true) (Str.tokens s).
Proof. apply tokensGo_spec. discriminate. Qed.

Lemma everyChar_dropWhile p q s :
  everyChar p s = true -> everyChar p (Str.dropWhile q s) = true.
Proof.
  induction s as [|c s IH]; [auto|]. simpl. intros H.
  destruct (q c); [|exact H]. apply andb_prop in H as [_ H]. auto.
Qed.

Lemma everyChar_trim p s : everyChar p s = true -> everyChar p (Str.trim s) = true.
Proof.
  intros H. unfold Str.trim, Str.trimEnd, Str.trimStart.
  rewrite everyChar_rev. apply everyChar_dropWhile.
  rewrite everyChar_rev. apply everyChar_dropWhile. exact H.
Qed.

Lemma everyChar_slice p n : forall s,
  everyChar p s = true -> everyChar p (Str.slice n s) = true.
Proof.
  induction n as [|n IH]; intros [|c s] H; simpl; auto.
  apply IH. simpl in H. apply andb_prop in H as [_ H]. exact H.
Qed.

Lemma everyChar_impl (p q : ascii -> bool) s :
  (forall c, p c = true -> q c = true) -> everyChar p s = true -> everyChar q s = true.
Proof.
  intros Hpq. induction s as [|c s IH]; [auto|]. simpl. intros H.
  apply andb_prop in H as [Hc Hs]. rewrite (Hpq c Hc), (IH Hs). reflexivity.
Qed.

(** The first piece of [split] holds no separator. *)
Lemma splitGo_head sep s : forall cur,
  everyChar notSpace s = true -> everyChar isTagChar (String.rev cur) = true ->
  sep = ":"%char ->
  everyChar isTagChar (hd "" (Str.splitGo sep cur s)) = true.
Proof.
  induction s as [|c s IH]; intros cur Hs Hcur ->; simpl; [exact Hcur|].
  simpl in Hs. apply andb_prop in Hs as [Hc Hs].
  destruct (Ascii.eqb_spec c ":") as [->|Hne]; [exact Hcur|].
  apply IH; [exact Hs | | reflexivity].
  rewrite rev_cons, everyChar_app, Hcur. simpl.
  unfold isTagChar. unfold notSpace in Hc. rewrite Hc. simpl.
  destruct (Ascii.eqb_spec c ":"); [contradiction | reflexivity].
Qed.

Lemma pushMeta_inv k v (m : gmap string (list string)) (tags : list string) :
  In k tags -> v <> "" ->
  (forall k' vs, m !! k' = Some vs ->
     In k' tags /\ vs <> [] /\ Forall (fun v => v <> "") vs) ->
  forall k' vs, pushMeta k v m !! k' = Some vs ->
    In k' tags /\ vs <> [] /\ Forall (fun v => v <> "") vs.
Proof.
  intros Hk Hv Hm k' vs. unfold pushMeta.
  destruct (String.eq_dec k k') as [<-|Hne].
  - rewrite lookup_insert_eq. intros H. injection H as <-.
    split; [exact Hk|]. split; [destruct (default [] (m !! k)); discriminate|].
    apply Forall_app. split; [|constructor; [exact Hv | constructor]].
    destruct (m !! k) as [old|] eqn:E; [|constructor].
    apply (Hm k old E).
  - rewrite lookup_insert_ne by exact Hne. apply Hm.
Qed.

Lemma scanToken_inv st token :
  token <> "" -> everyChar notSpace token = true ->
  scanInv st -> scanInv (scanToken st token).
Proof.
  intros Hne Htok (Htags & Hmeta & Hcur & Hnote). unfold scanToken.
  destruct (Str.startsWith "#" token) eqn:Hh.
  - pose proof (splitGo_head ":" (Str.slice 1 token) ""
                  (everyChar_slice _ 1 _ Htok) eq_refl eq_refl) as Hhead.
    fold (Str.split ":" (Str.slice 1 token)) in Hhead.
    destruct (Str.split ":" (Str.slice 1 token)) as [|name parts] eqn:E.
    { exfalso. eapply split_nonempty; eauto. }
    simpl in Hhead.
    destruct (Str.isEmpty (Str.trim name)) eqn:Hn.
    { split; [exact Htags|]. split; [exact Hmeta|].
      split; [intros cur Hc; discriminate Hc | exact Hnote]. }
    apply isEmpty_false in Hn.
    assert (Htags' : Forall (fun t => t <> "" /\ everyChar isTagChar t = true)
                            (sRawTags st ++ [Str.trim name])).
    { apply Forall_app. split; [exact Htags|]. constructor; [|constructor].
      split; [exact Hn | apply everyChar_trim; exact Hhead]. }
    assert (Hold : forall k vs, sTagMeta st !! k = Some vs ->
              In k (sRawTags st ++ [Str.trim name]) /\ vs <> []
              /\ Forall (fun v => v <> "") vs).
    { intros k vs Hk. destruct (Hmeta k vs Hk) as (Hin & Hrest).
      split; [apply in_app_iff; left; exact Hin | exact Hrest]. }
    split; [exact Htags'|]. simpl. split; [|split].
    + destruct parts as [|q parts]; [exact Hold|].
      destruct (Str.isEmpty (Str.trim (Str.join ":" (q :: parts)))) eqn:Hm; [exact Hold|].
      apply pushMeta_inv; [|apply isEmpty_false; exact Hm | exact Hold].
      apply in_app_iff. right. left. reflexivity.
    + intros cur Hc. injection Hc as <-. apply in_app_iff. right. left. reflexivity.
    + exact Hnote.
  - destruct (sCurrentTag st) as [cur|] eqn:Hc.
    + split; [exact Htags|]. simpl. split; [|split].
      * apply pushMeta_inv; [apply Hcur; reflexivity | exact Hne | exact Hmeta].
      * exact Hcur.
      * exact Hnote.
    + split; [exact Htags|]. simpl. split; [exact Hmeta|]. split; [exact Hcur|].
      apply Forall_app. split; [exact Hnote|]. constructor; [auto | constructor].
Qed.

Lemma scanTokens_inv toks : forall st,
  Forall (fun t => t <> "" /\ everyChar notSpace t = true) toks ->
  scanInv st -> scanInv (scanTokens toks st).
Proof.
  induction toks as [|t toks IH]; intros st Hall Hst; [exact Hst|].
  inversion Hall as [|? ? (Hne & Ht) Hrest]; subst.
  change (scanTokens (t :: toks) st) with (scanTokens toks (scanToken st t)).
  apply IH; [exact Hrest|]. apply scanToken_inv; assumption.
Qed.

Lemma scanInit_inv : scanInv scanInit.
Proof.
  split; [constructor|]. split; [|split; [discriminate | constructor]].
  intros k vs H. simpl in H. rewrite lookup_empty in H. discriminate.
Qed.

Lemma lowerChar_idempotent c : Str.lowerChar (Str.lowerChar c) = Str.lowerChar c.
Proof. destruct c as [[] [] [] [] [] [] [] []]; reflexivity. Qed.

Lemma toLowerCase_idempotent s :
  Str.toLowerCase (Str.toLowerCase s) = Str.toLowerCase s.
Proof.
  induction s as [|c s IH]; [reflexivity|]. simpl.
  rewrite lowerChar_idempotent, IH. reflexivity.
Qed.

(** X12. Whenever parseTimeLine returns a parsed line, the date token is not
    empty and is in lower case, the duration token is not empty and holds no
    white space, every raw tag is a non-empty text without white space or
    colon, every key of tagMeta is one of the raw tags, and every metadata
    list is a non-empty list of non-empty texts. *)
Theorem parseTimeLine_wellformed line p :
  parseTimeLine line = Parsed p ->
  dateToken p <> "" /\ Str.toLowerCase (dateToken p) = dateToken p
  /\ durationToken p <> "" /\ everyChar notSpace (durationToken p) = true
  /\ Forall (fun t => t <> "" /\ everyChar isTagChar t = true) (rawTags p)
  /\ (forall k vs, tagMeta p !! k = Some vs ->
        In k (rawTags p) /\ vs <> [] /\ Forall (fun v => v <> "") vs).
Proof.
  unfold parseTimeLine. intros H.
  destruct (stripTimeMarker (Str.trim line)) as [body|]; [|discriminate].
  pose proof (tokens_spec body) as Htok.
  destruct (Str.tokens body) as [|d [|u rest]]; try discriminate.
  injection H as <-. simpl.
  inversion Htok as [|? ? (Hd & _) Htok1]; subst.
  inversion Htok1 as [|? ? (Hu & Hus) Hrest]; subst.
  destruct (scanTokens_inv rest scanInit Hrest scanInit_inv) as (Htags & Hmeta & _ & _).
  split; [destruct d; [congruence | discriminate]|].
  split; [apply toLowerCase_idempotent|].
  auto.
Qed.

Lemma parseTimeLine_wellformed_witness :
  dateToken sampleParsed <> ""
  /\ Str.toLowerCase (dateToken sampleParsed) = dateToken sampleParsed
  /\ durationToken sampleParsed <> ""
  /\ everyChar notSpace (durationToken sampleParsed) = true
  /\ Forall (fun t => t <> "" /\ everyChar isTagChar t = true) (rawTags sampleParsed)
  /\ (forall k vs, tagMeta sampleParsed !! k = Some vs ->
        In k (rawTags sampleParsed) /\ vs <> [] /\ Forall (fun v => v <> "") vs).
Proof.
  apply (parseTimeLine_wellformed sampleLine sampleParsed). vm_compute. reflexivity.
Defined.

(** ** The range of a parsed duration *)

Lemma digitsValue_nonneg s : 0 <= Num.digitsValue s.
Proof.
  unfold Num.digitsValue. destruct (NilEmpty.uint_of_string s); [|lia].
  unfold Z.of_uint. apply N2Z.is_nonneg.
Qed.

Lemma decimalValue_nonneg intPart frac : (0 <= Num.decimalValue intPart frac)%Q.
Proof.
  unfold Num.decimalValue. destruct frac as [f|]; rewrite Qred_correct.
  - apply (Qle_trans _ (inject_Z (Num.digitsValue intPart) + 0)).
    + rewrite Qplus_0_r. change 0%Q with (inject_Z 0). rewrite <- Zle_Qle.
      apply digitsValue_nonneg.
    + apply Qplus_le_r. unfold Qle. simpl. pose proof (digitsValue_nonneg f). lia.
  - change 0%Q with (inject_Z 0). rewrite <- Zle_Qle. apply digitsValue_nonneg.
Qed.

Lemma parseDuration_value token hours :
  parseDuration token = Some hours ->
  exists value,
    (0 <= value)%Q /\ (value < Num.overflowThreshold)%Q
    /\ (hours = value \/ hours = Num.div60 value).
Proof.
  unfold parseDuration. intros H.
  destruct (matchDuration token) as [[[intPart frac] unitText]|]; [|discriminate].
  pose proof (decimalValue_nonneg intPart frac) as Hnn.
  set (value := Num.decimalValue intPart frac) in *.
  destruct (Num.isFinite value) eqn:Hfin; cbn [negb] in H; cbv iota zeta in H;
    [|discriminate].
  assert (Hlt : (value < Num.overflowThreshold)%Q).
  { unfold Num.isFinite in Hfin. apply negb_true_iff in Hfin.
    apply Qnot_le_lt. intros Hle. apply Qle_bool_iff in Hle. congruence. }
  exists value. split; [exact Hnn|]. split; [exact Hlt|].
  destruct (inList (Str.toLowerCase unitText) hourUnits); injection H as <-; auto.
Qed.

Lemma div60_nonneg value : (0 <= value)%Q -> (0 <= Num.div60 value)%Q.
Proof.
  intros Hnn. unfold Num.div60. rewrite Qred_correct.
  apply Qle_shift_div_l; [reflexivity|]. rewrite Qmult_0_l. exact Hnn.
Qed.


(** X13. A duration that parseDuration accepts is a number of hours that is
    not negative and lies below the threshold at which a decimal literal
    overflows to Infinity; parseDuration never returns a negative or an
    infinite number. *)
Theorem parseDuration_range token hours :
  parseDuration token = Some hours ->
  (0 <= hours)%Q /\ (hours < Num.overflowThreshold)%Q.
Proof.
  intros H. destruct (parseDuration_value _ _ H) as (value & Hnn & Hlt & [->| ->]).
  - auto.
  - split; [apply div60_nonneg; exact Hnn|].
    unfold Num.div60. rewrite Qred_correct.
    apply Qlt_shift_div_r; [reflexivity|].
    eapply Qlt_le_trans; [exact Hlt|].
    rewrite <- (Qmult_1_r Num.overflowThreshold) at 1.
    apply Qmult_le_l; [reflexivity | discriminate].
Qed.

Lemma parseDuration_range_witness :
  (0 <= 3 # 2)%Q /\ (3 # 2 < Num.overflowThreshold)%Q.
Proof.
  apply (parseDuration_range "90m" (3 # 2)). vm_compute. reflexivity.
Defined.

(** ** The run as a whole *)

Section RunInduction.

Variables (env : Env) (idx : TagIndex) (tz : string).
Variable P : RunState -> list LineEvent -> RunState -> Prop.
Variable commits : list Commit.

Hypothesis P_refl : forall st, P st [] st.
Hypothesis P_trans : forall st1 evs1 st2 evs2 st3,
  P st1 evs1 st2 -> P st2 evs2 st3 -> P st1 (evs1 ++ evs2) st3.
Hypothesis P_step : forall commit st i line,
  In commit commits -> In line (splitLines (body commit)) ->
  P st (eventList (snd (processLine env idx tz commit st i line)))
       (fst (fst (processLine env idx tz commit st i line))).

Lemma processLines_induction commit lines : forall st i,
  In commit commits ->
  (forall line, In line lines -> In line (splitLines (body commit))) ->
  P st (snd (processLines env idx tz commit lines st i))
       (fst (processLines env idx tz commit lines st i)).
Proof.
  induction lines as [|line lines IH]; intros st i Hc Hsub; [apply P_refl|].
  simpl processLines.
  pose proof (P_step commit st i line Hc (Hsub line (or_introl eq_refl))) as H1.
  destruct (processLine env idx tz commit st i line) as [[st1 i1] ev].
  specialize (IH st1 i1 Hc (fun l Hl => Hsub l (or_intror Hl))).
  destruct (processLines env idx tz commit lines st1 i1) as [st2 evs].
  simpl in *.
  pose proof (P_trans _ _ _ _ _ H1 IH) as H. destruct ev; exact H.
Qed.

Lemma processCommits_induction : forall cs st,
  (forall c, In c cs -> In c commits) ->
  P st (snd (processCommits env idx tz cs st)) (fst (processCommits env idx tz cs st)).
Proof.
  induction cs as [|c cs IH]; intros st Hsub; [apply P_refl|].
  simpl processCommits.
  pose proof (processLines_induction c (splitLines (body c)) st 0
                (Hsub c (or_introl eq_refl)) (fun l Hl => Hl)) as H1.
  fold (processCommit env idx tz st c) in H1.
  destruct (processCommit env idx tz st c) as [st1 evs1].
  specialize (IH st1 (fun c' Hc' => Hsub c' (or_intror Hc'))).
  destruct (processCommits env idx tz cs st1) as [st2 evs2].
  simpl in *. eapply P_trans; eassumption.
Qed.

End RunInduction.

(** What one line does to the run state: nothing, an error record, a skip
    or an appended entry. *)
Lemma processLine_step env idx tz commit st i line :
  let r := processLine env idx tz commit st i line in
  let id := entryId (sha commit) i in
  (isRecognized line = false /\ r = (st, i, None))
  \/ (r = (mkRun (rWorld st)
                 (rErrors st ++ [mkError id (sha commit) line parseErrorReason])
                 (addedCount st) (skippedCount st) (S (errorCount st)),
           S i, Some (EvErrored id)))
  \/ (exists p ds h,
        validLine env tz commit line p ds h
        /\ let n := fst (normalizeLine env idx id commit line p st) in
           let st1 := snd (normalizeLine env idx id commit line p st) in
           (hasId (dayFiles (rWorld st)) ds id = true
            /\ r = (mkRun (rWorld st1) (rErrors st1) (addedCount st)
                          (S (skippedCount st)) (errorCount st),
                    S i, Some (EvSkipped id)))
           \/ (hasId (dayFiles (rWorld st)) ds id = false
               /\ r = (mkRun (setDayFiles
                                (appendEntry tz ds (newEntry env id commit h p n)
                                   (dayFiles (rWorld st)))
                                (rWorld st1))
                             (rErrors st1) (S (addedCount st)) (skippedCount st)
                             (errorCount st),
                       S i, Some (EvAdded id)))).
Proof.
  cbv zeta.
  destruct (processLine_cases env idx tz commit st i line)
    as [[Hr He]|[[Hr He]|[Hr (p & ds & h & Hv)]]].
  - left. auto.
  - right. left. exact He.
  - right. right. exists p, ds, h. split; [exact Hv|].
    rewrite (processLine_outcome _ _ _ _ _ _ _ _ _ _ Hv).
    destruct (hasId (dayFiles (rWorld st)) ds (entryId (sha commit) i)); auto.
Qed.

(** *** The counters *)

Lemma countEvents_app f a b :
  countEvents f (a ++ b) = (countEvents f a + countEvents f b)%nat.
Proof. unfold countEvents. rewrite List.filter_app, length_app. reflexivity. Qed.

Lemma processCommits_counters env idx tz commits st :
  countersAgree st (snd (processCommits env idx tz commits st))
                (fst (processCommits env idx tz commits st)).
Proof.
  apply (processCommits_induction env idx tz countersAgree commits).
  - intros s. unfold countersAgree, countEvents. simpl. lia.
  - intros s1 e1 s2 e2 s3 (A1 & S1 & E1) (A2 & S2 & E2).
    unfold countersAgree. rewrite !countEvents_app. lia.
  - intros commit s i line _ _.
    destruct (processLine_step env idx tz commit s i line)
      as [[_ ->]|[->|(p & ds & h & _ & [[_ ->]|[_ ->]])]];
      unfold countersAgree, countEvents; simpl; lia.
  - auto.
Qed.

Lemma length_flat_map_ids (commits : list Commit) :
  length (flat_map (fun c => map (entryId (sha c))
                                 (seq 0 (recognizedCount (splitLines (body c)))))
                   commits)
  = list_sum (map (fun c => recognizedCount (splitLines (body c))) commits).
Proof.
  induction commits as [|c commits IH]; [reflexivity|].
  simpl. rewrite length_app, length_map, length_seq, IH. reflexivity.
Qed.

Lemma count_partition (evs : list LineEvent) :
  (countEvents isAdded evs + countEvents isSkipped evs + countEvents isErrored evs
   = length evs)%nat.
Proof.
  unfold countEvents. induction evs as [|[] evs IH]; simpl; lia.
Qed.

(** X14. When a run of main completes, the counters of its summary are the
    numbers of lines it added, skipped and rejected, and their sum is the
    number of lines of the selected commits for which parseTimeLine does not
    return null: every recognised time line is counted exactly once. *)
Theorem summary_accounts env w w1 s events :
  main env w = Completed w1 s events ->
  sumAdded s = countEvents isAdded events
  /\ sumSkipped s = countEvents isSkipped events
  /\ sumErrors s = countEvents isErrored events
  /\ exists commits,
       selectCommits env (default defaultWatermark (stateFile w)) = Some commits
       /\ (sumAdded s + sumSkipped s + sumErrors s)%nat
          = list_sum (map (fun c => recognizedCount (splitLines (body c))) commits).
Proof.
  intros Hm. apply main_completed in Hm as (commits & st & recent & Hsel & Hrun & _ & _ & ->).
  pose proof (processCommits_counters env (loadTags (envConfig env))
                (tiTimezone (loadTags (envConfig env))) commits (startRun w))
    as (Ha & Hs & He).
  pose proof (processCommits_ids env (loadTags (envConfig env))
                (tiTimezone (loadTags (envConfig env))) commits (startRun w)) as Hids.
  rewrite Hrun in Ha, Hs, He, Hids. simpl in Ha, Hs, He, Hids. simpl.
  split; [exact Ha|]. split; [exact Hs|]. split; [exact He|].
  exists commits. split; [exact Hsel|].
  rewrite Ha, Hs, He, count_partition.
  rewrite <- length_flat_map_ids, <- Hids, length_map. reflexivity.
Qed.

Lemma summary_accounts_witness :
  match main (sampleEnv classifyDown false) emptyWorld with
  | Completed w1 s events =>
      sumAdded s = countEvents isAdded events
      /\ sumSkipped s = countEvents isSkipped events
      /\ sumErrors s = countEvents isErrored events
      /\ exists commits,
           selectCommits (sampleEnv classifyDown false)
             (default defaultWatermark (stateFile emptyWorld)) = Some commits
           /\ (sumAdded s + sumSkipped s + sumErrors s)%nat
              = list_sum (map (fun c => recognizedCount (splitLines (body c))) commits)
  | Crashed _ => False
  end.
Proof.
  destruct (main (sampleEnv classifyDown false) emptyWorld) as [w1 s events|w] eqn:E.
  - exact (summary_accounts _ _ _ _ _ E).
  - vm_compute in E. discriminate E.
Defined.

(** *** The day documents *)











(** *** The alias stage *)

Lemma normalizeLine_resolved env idx id commit line p st first others :
  normalizeTags (rawTags p) idx = first :: others ->
  normalizeLine env idx id commit line p st
  = (mkNormalized (JStr first) (JArr (map JStr others)) (JNum 1) "alias", st).
Proof.
  intros E. unfold normalizeLine. rewrite E. simpl.
  destruct (Str.isEmpty first) eqn:He; [|reflexivity].
  apply isEmpty_true in He.
  destruct (normalizeTags_found (rawTags p) idx) as (_ & Hin).
  rewrite E in Hin. destruct (Hin first (or_introl eq_refl)) as (Hne & _).
  contradiction.
Qed.

Lemma normalizeLine_unresolved env idx id commit line p st :
  normalizeTags (rawTags p) idx = [] ->
  fst (normalizeLine env idx id commit line p st) = fallbackResult
  \/ (envLlmEnabled env = true
      /\ method (fst (normalizeLine env idx id commit line p st)) = "llm").
Proof.
  intros E. unfold normalizeLine. rewrite E. simpl.
  destruct (envLlmEnabled env); [|left; reflexivity].
  destruct (normalizeTagsLLM _ _ _ _ _) as [[message|v] w']; [left; reflexivity|].
  destruct (truthy v); [right; split; reflexivity | left; reflexivity].
Qed.

(** X17. The alias stage of main, with an index built by loadTags: when the
    raw tags of a line resolve to at least one key, the primary is the first
    key, the secondary the other keys, all of them canonical keys of the tag
    master without repetition, the confidence is 1, the method is alias and
    the run state is untouched (the classifier is not consulted); when they
    resolve to nothing, the result is uncategorized / [] / 0 / fallback unless
    the classifier is enabled and the method becomes llm. *)
Theorem alias_stage_result env cfg id commit line p st :
  let idx := loadTags cfg in
  let r := normalizeLine env idx id commit line p st in
  match normalizeTags (rawTags p) idx with
  | first :: others =>
      r = (mkNormalized (JStr first) (JArr (map JStr others)) (JNum 1) "alias", st)
      /\ List.NoDup (first :: others)
      /\ Forall (fun k => In k (map fst (cfgTags cfg))) (first :: others)
  | [] =>
      (envLlmEnabled env = false -> r = (fallbackResult, st))
      /\ (fst r = fallbackResult
          \/ (envLlmEnabled env = true /\ method (fst r) = "llm"))
  end.
Proof.
  cbv zeta.
  pose proof (normalizeTags_found (rawTags p) (loadTags cfg)) as (Hnd & Hin).
  destruct (normalizeTags (rawTags p) (loadTags cfg)) as [|first others] eqn:E.
  - split.
    + intros Hoff. apply normalizeLine_disabled; assumption.
    + apply normalizeLine_unresolved. exact E.
  - split; [apply normalizeLine_resolved; exact E|]. split; [exact Hnd|].
    apply List.Forall_forall. intros k Hk.
    destruct (Hin k Hk) as (_ & raw & _ & Hl).
    exact (loadTags_canonical cfg _ _ Hl).
Qed.

(** *** The entries a run stores *)




(** *** The error log *)

Lemma normalizeLine_errors env idx id commit line p st :
  let st1 := snd (normalizeLine env idx id commit line p st) in
  rErrors st1 = rErrors st
  \/ (envLlmEnabled env = true
      /\ exists message,
           rErrors st1
           = rErrors st ++ [mkError id (sha commit) line ("llm_error:" +:+ message)]).
Proof.
  cbv zeta. unfold normalizeLine.
  destruct ((length (normalizeTags (rawTags p) idx) =? 0)%nat); simpl; [|left; reflexivity].
  destruct (envLlmEnabled env); simpl; [|left; reflexivity].
  destruct (normalizeTagsLLM _ _ _ _ _) as [[message|v] w'].
  - right. split; [reflexivity|]. exists message. reflexivity.
  - left. destruct (truthy v); reflexivity.
Qed.

Lemma errorsAgree_refl b st : errorsAgree b st st.
Proof.
  exists []. rewrite app_nil_r. simpl. split; [reflexivity|].
  split; [lia | constructor].
Qed.

Lemma errorsAgree_trans b s1 s2 s3 :
  errorsAgree b s1 s2 -> errorsAgree b s2 s3 -> errorsAgree b s1 s3.
Proof.
  intros (n1 & H1 & C1 & F1) (n2 & H2 & C2 & F2). exists (n1 ++ n2).
  split; [rewrite H2, H1, app_assoc; reflexivity|].
  split; [rewrite List.filter_app, length_app; lia|].
  apply Forall_app. auto.
Qed.

Lemma errorsAgree_normalize env idx id commit line p st w' a s :
  errorsAgree (envLlmEnabled env) st
    (mkRun w' (rErrors (snd (normalizeLine env idx id commit line p st))) a s
           (errorCount st)).
Proof.
  destruct (normalizeLine_errors env idx id commit line p st)
    as [->|(Hon & message & ->)].
  - exists []. rewrite app_nil_r. simpl. split; [reflexivity|].
    split; [lia | constructor].
  - eexists. split; [reflexivity|]. simpl. split; [lia|].
    constructor; [|constructor]. right. split; [exact Hon|]. exists message. reflexivity.
Qed.

Lemma processCommits_errors env idx tz commits st :
  errorsAgree (envLlmEnabled env) st (fst (processCommits env idx tz commits st)).
Proof.
  apply (processCommits_induction env idx tz
           (fun s _ s' => errorsAgree (envLlmEnabled env) s s') commits).
  - intros s. apply errorsAgree_refl.
  - intros s1 _ s2 _ s3. apply errorsAgree_trans.
  - intros commit s i line _ _.
    destruct (processLine_step env idx tz commit s i line)
      as [[_ ->]|[->|(p & ds & h & _ & [[_ ->]|[_ ->]])]]; simpl.
    + apply errorsAgree_refl.
    + eexists. split; [reflexivity|]. simpl. split; [lia|].
      constructor; [left; reflexivity | constructor].
    + apply (errorsAgree_normalize env idx (entryId (sha commit) i) commit line p s).
    + apply (errorsAgree_normalize env idx (entryId (sha commit) i) commit line p s).
  - auto.
Qed.

Lemma normalizeLine_documents env idx id commit line p st :
  let st1 := snd (normalizeLine env idx id commit line p st) in
  errorsFile (rWorld st1) = errorsFile (rWorld st)
  /\ stateFile (rWorld st1) = stateFile (rWorld st).
Proof.
  cbv zeta. unfold normalizeLine.
  destruct ((length (normalizeTags (rawTags p) idx) =? 0)%nat); simpl; [|auto].
  destruct (envLlmEnabled env); simpl; [|auto].
  pose proof (normalizeTagsLLM_frame (envClassify env) (tiCanonical idx)
                (rawTags p) (note p) (rWorld st)) as (_ & He & Hs & _).
  destruct (normalizeTagsLLM _ _ _ _ _) as [[message|v] w']; simpl in *.
  - auto.
  - destruct (truthy v); simpl; auto.
Qed.

Lemma processCommits_documents env idx tz commits st :
  errorsFile (rWorld (fst (processCommits env idx tz commits st)))
  = errorsFile (rWorld st)
  /\ stateFile (rWorld (fst (processCommits env idx tz commits st)))
     = stateFile (rWorld st).
Proof.
  apply (processCommits_induction env idx tz
           (fun s _ s' => errorsFile (rWorld s') = errorsFile (rWorld s)
                          /\ stateFile (rWorld s') = stateFile (rWorld s)) commits).
  - auto.
  - intros s1 _ s2 _ s3 (E1 & S1) (E2 & S2). split; congruence.
  - intros commit s i line _ _.
    destruct (processLine_step env idx tz commit s i line)
      as [[_ ->]|[->|(p & ds & h & _ & [[_ ->]|[_ ->]])]]; simpl; auto;
      apply normalizeLine_documents.
  - auto.
Qed.

(** X19. The error log is append-only and errorCount counts its parse errors:
    when a run of main completes, the error log is the old log followed by the
    records of the run, those with reason invalid date or duration are as many
    as the error count of the summary, and every other new record has a reason
    llm_error:<message>, which occurs only with the classifier enabled; when
    the run is cut short by a failing git log, the error log and the watermark
    are as they were. *)
Theorem error_log_grows env w :
  match main env w with
  | Completed w1 s _ =>
      exists new,
        errorsFile w1 = errorsFile w ++ new
        /\ sumErrors s = length (List.filter isParseError new)
        /\ Forall (fun r => errReason r = parseErrorReason
                            \/ (envLlmEnabled env = true
                                /\ exists message,
                                     errReason r = "llm_error:" +:+ message)) new
  | Crashed w1 => errorsFile w1 = errorsFile w /\ stateFile w1 = stateFile w
  end.
Proof.
  unfold main.
  destruct (selectCommits env (default defaultWatermark (stateFile w)))
    as [commits|]; [|auto].
  pose proof (processCommits_errors env (loadTags (envConfig env))
                (tiTimezone (loadTags (envConfig env))) commits (startRun w)) as He.
  pose proof (processCommits_documents env (loadTags (envConfig env))
                (tiTimezone (loadTags (envConfig env))) commits (startRun w)) as Hf.
  destruct (processCommits env _ _ commits (startRun w)) as [st events].
  simpl in He, Hf. destruct (recentForState env) as [recent|].
  - destruct He as (new & H1 & H2 & H3). exists new. simpl. auto.
  - exact Hf.
Qed.

(** *** The selection of commits *)

Lemma addCommits_snoc acc l c :
  addCommits acc (l ++ [c])
  = if existsb (fun c' => String.eqb (sha c') (sha c)) (addCommits acc l)
    then addCommits acc l
    else addCommits acc l ++ [c].
Proof. unfold addCommits. rewrite fold_left_app. reflexivity. Qed.

Lemma addCommits_distinct l : forall acc,
  List.NoDup (map sha acc) -> List.NoDup (map sha (addCommits acc l)).
Proof.
  induction l as [|c l IH] using rev_ind; intros acc Hnd; [exact Hnd|].
  rewrite addCommits_snoc.
  destruct (existsb _ (addCommits acc l)) eqn:E; [apply IH; exact Hnd|].
  rewrite map_app. simpl.
  apply List.NoDup_app; [apply IH; exact Hnd | repeat constructor; simpl; tauto |].
  intros x Hx [<-|[]]. apply in_map_iff in Hx as (c' & Heq & Hc').
  assert (existsb (fun c0 => String.eqb (sha c0) (sha c)) (addCommits acc l) = true);
    [|congruence].
  apply existsb_exists. exists c'. split; [exact Hc' | apply String.eqb_eq; exact Heq].
Qed.

Lemma rangeCommits_distinct env state acc :
  rangeCommits env state = Some acc -> List.NoDup (map sha acc).
Proof.
  unfold rangeCommits. intros H.
  assert (Hall : forall r, option_map (addCommits []) (envGitLog env LogAll) = Some r ->
                           List.NoDup (map sha r)).
  { intros r Hr. destruct (envGitLog env LogAll) as [all|]; [|discriminate].
    injection Hr as <-. apply addCommits_distinct. constructor. }
  destruct (last_processed state) as [lp|]; [|apply Hall; exact H].
  destruct (Str.isEmpty lp); [apply Hall; exact H|].
  destruct (envGitLog env (LogSince lp)) as [since|]; [|apply Hall; exact H].
  injection H as <-. apply addCommits_distinct. constructor.
Qed.

(** X20. The commits that main selects: no two have the same sha, each was
    returned by one of the git log queries, every commit of the recent window
    is selected (by sha) when MAX_RECENT_COMMITS is positive, and without a
    watermark every commit of the whole history is selected (by sha). *)
Theorem selectCommits_distinct env state selected :
  selectCommits env state = Some selected ->
  List.NoDup (map sha selected)
  /\ (forall c, In c selected -> exists q l, envGitLog env q = Some l /\ In c l)
  /\ (0 < envMaxRecent env ->
      exists recent,
        envGitLog env (LogRecent (envMaxRecent env)) = Some recent
        /\ forall c, In c recent -> exists c', In c' selected /\ sha c' = sha c)
  /\ (last_processed state = None ->
      exists all,
        envGitLog env LogAll = Some all
        /\ forall c, In c all -> exists c', In c' selected /\ sha c' = sha c).
Proof.
  unfold selectCommits. intros H.
  destruct (rangeCommits env state) as [acc|] eqn:Hr; [|discriminate].
  pose proof (rangeCommits_distinct env state acc Hr) as Hnd.
  assert (Hall : last_processed state = None ->
                 exists all, envGitLog env LogAll = Some all
                             /\ forall c, In c all -> exists c', In c' acc /\ sha c' = sha c).
  { intros Hnone. unfold rangeCommits in Hr. rewrite Hnone in Hr.
    destruct (envGitLog env LogAll) as [all|]; [|discriminate].
    injection Hr as <-. exists all. split; [reflexivity|].
    intros c Hc. apply addCommits_covers. exact Hc. }
  destruct (Z.ltb_spec 0 (envMaxRecent env)) as [Hpos|Hnot].
  - destruct (envGitLog env (LogRecent (envMaxRecent env))) as [recent|] eqn:Hrec;
      [|discriminate].
    injection H as <-.
    split; [apply addCommits_distinct; exact Hnd|]. split; [|split].
    + intros c Hc. apply addCommits_in in Hc as [Hc|Hc].
      * eapply rangeCommits_source; eassumption.
      * eauto.
    + intros _. exists recent. split; [reflexivity|].
      intros c Hc. apply addCommits_covers. exact Hc.
    + intros Hnone. destruct (Hall Hnone) as (all & Ha & Hcov).
      exists all. split; [exact Ha|]. intros c Hc.
      destruct (Hcov c Hc) as (c' & Hc' & Hs). exists c'.
      split; [apply addCommits_keeps; exact Hc' | exact Hs].
  - injection H as <-. split; [exact Hnd|]. split; [|split].
    + intros c Hc. eapply rangeCommits_source; eassumption.
    + lia.
    + exact Hall.
Qed.

Lemma selectCommits_distinct_witness :
  List.NoDup (map sha [sampleCommit])
  /\ (forall c, In c [sampleCommit] ->
        exists q l, envGitLog (sampleEnv classifyDown false) q = Some l /\ In c l)
  /\ (0 < envMaxRecent (sampleEnv classifyDown false) ->
      exists recent,
        envGitLog (sampleEnv classifyDown false)
          (LogRecent (envMaxRecent (sampleEnv classifyDown false))) = Some recent
        /\ forall c, In c recent -> exists c', In c' [sampleCommit] /\ sha c' = sha c)
  /\ (last_processed defaultWatermark = None ->
      exists all,
        envGitLog (sampleEnv classifyDown false) LogAll = Some all
        /\ forall c, In c all -> exists c', In c' [sampleCommit] /\ sha c' = sha c).
Proof.
  apply (selectCommits_distinct (sampleEnv classifyDown false) defaultWatermark).
  vm_compute. reflexivity.
Defined.

(** *** Entry ids *)

(** A character other than the colon that separates the parts of an id. *)
Lemma colon_split s1 : forall s2 r1 r2,
  everyChar noColon s1 = true -> everyChar noColon s2 = true ->
  s1 +:+ String ":" r1 = s2 +:+ String ":" r2 -> s1 = s2 /\ r1 = r2.
Proof.
  induction s1 as [|c1 s1 IH]; intros [|c2 s2] r1 r2 H1 H2 H.
  - rewrite !append_nil in H. injection H as ->. auto.
  - rewrite append_nil, append_cons in H. injection H as <- _.
    simpl in H2. discriminate.
  - rewrite append_nil, append_cons in H. injection H as -> _.
    simpl in H1. discriminate.
  - rewrite !append_cons in H. injection H as -> H.
    simpl in H1, H2. apply andb_prop in H1 as [_ H1]. apply andb_prop in H2 as [_ H2].
    destruct (IH _ _ _ H1 H2 H) as (-> & ->). auto.
Qed.

Lemma toString_nat_inj i j :
  Num.toString (Z.of_nat i) = Num.toString (Z.of_nat j) -> i = j.
Proof.
  unfold Num.toString. intros H.
  assert (Hn : forall n, Z.to_int (Z.of_nat n) <> Decimal.Pos Decimal.Nil
                         /\ Z.to_int (Z.of_nat n) <> Decimal.Neg Decimal.Nil).
  { intros n. destruct (Z.of_nat n) eqn:E; simpl; split; try discriminate;
      intros Hp; injection Hp as Hp; exact (DecimalPos.Unsigned.to_uint_nonnil _ Hp). }
  apply (f_equal NilZero.int_of_string) in H.
  rewrite !NilZero.isi in H by apply Hn.
  injection H as H. apply DecimalZ.to_int_inj in H. lia.
Qed.

(** X21. The id sha:<sha>:<index> names one line: for shas that hold no colon,
    two ids are equal only when they are made of the same sha and the same
    index. *)
Theorem entryId_injective sha1 i1 sha2 i2 :
  everyChar noColon sha1 = true -> everyChar noColon sha2 = true ->
  entryId sha1 i1 = entryId sha2 i2 -> sha1 = sha2 /\ i1 = i2.
Proof.
  intros H1 H2 H. unfold entryId in H.
  apply append_cancel_l in H.
  change (":" +:+ Num.toString (Z.of_nat i1))
    with (String ":" (Num.toString (Z.of_nat i1))) in H.
  change (":" +:+ Num.toString (Z.of_nat i2))
    with (String ":" (Num.toString (Z.of_nat i2))) in H.
  apply colon_split in H as (-> & H); [|assumption|assumption].
  split; [reflexivity | apply toString_nat_inj; exact H].
Qed.

Lemma entryId_injective_witness : "abc123" = "abc123" /\ 4%nat = 4%nat.
Proof.
  apply (entryId_injective "abc123" 4 "abc123" 4); reflexivity.
Defined.

(** ** The cache and the suggestions *)











(** ** The periods of the report *)

Lemma validDate_small q : validDate q -> 0 <= month q <= 99 /\ 0 <= day q <= 99.
Proof.
  intros (Hm & Hd). pose proof (daysInMonth_bounds (year q) (month q)). lia.
Qed.

(** X24. The test that buildTotalsByPeriod applies to a day document (its date
    parses and isBetween the bounds of the period): for a document filed under
    a well-formed date with a year of at most four digits it passes for the
    week range of the current date exactly when both dates lie in the same
    Monday-to-Sunday week, for the month range exactly when year and month
    agree, and for the year range exactly when the year agrees; a document
    whose date is not of the shape YYYY-MM-DD passes for no period. *)
Theorem period_selection now q :
  validDate now -> 200 <= year now <= 200000 ->
  validDate q -> 0 <= year q <= 9999 ->
  (inPeriod (datePartsToString (Some q)) (getIsoWeekRange now) = true
   <-> (dayNumber q + 3) / 7 = (dayNumber now + 3) / 7)
  /\ (inPeriod (datePartsToString (Some q)) (getMonthRange now) = true
      <-> year q = year now /\ month q = month now)
  /\ (inPeriod (datePartsToString (Some q)) (getYearRange now) = true
      <-> year q = year now)
  /\ (forall text periodRange, ~ isoShape text -> inPeriod text periodRange = false).
Proof.
  intros Hnow Hy Hq Hqy.
  destruct (validDate_small q Hq) as (Hm & Hd).
  destruct (print_then_parse q Hqy Hm Hd) as (_ & Hparse).
  unfold inPeriod. rewrite Hparse.
  destruct (isoWeekRange_bounds now Hnow Hy) as (s & e & -> & Hsv & Hev & Hsn & Hen).
  split; [apply same_week_between; assumption|].
  split; [rewrite (monthRange_bounds now Hnow Hy); apply month_between; exact Hq|].
  split; [apply year_between; exact Hq|].
  intros text range Hshape. unfold parseDateString.
  destruct (matchesDateShape text) eqn:E; [|reflexivity].
  exfalso. apply Hshape. apply matchesDateShape_iso. exact E.
Qed.

Lemma period_selection_witness :
  (inPeriod (datePartsToString (Some (mkDate 2026 1 7))) (getIsoWeekRange (mkDate 2026 1 5))
   = true
   <-> (dayNumber (mkDate 2026 1 7) + 3) / 7 = (dayNumber (mkDate 2026 1 5) + 3) / 7)
  /\ (inPeriod (datePartsToString (Some (mkDate 2026 1 7))) (getMonthRange (mkDate 2026 1 5))
      = true
      <-> 2026 = 2026 /\ 1 = 1)
  /\ (inPeriod (datePartsToString (Some (mkDate 2026 1 7))) (getYearRange (mkDate 2026 1 5))
      = true
      <-> 2026 = 2026)
  /\ (forall text periodRange, ~ isoShape text -> inPeriod text periodRange = false).
Proof.
  apply (period_selection (mkDate 2026 1 5) (mkDate 2026 1 7)).
  - split; vm_compute; split; discriminate.
  - simpl. lia.
  - split; vm_compute; split; discriminate.
  - simpl. lia.
Defined.

(** ** The dates that lines resolve to *)

Lemma previousDay_year p : validDate p -> year p - 1 <= year (previousDay p) <= year p.
Proof.
  intros [Hm Hd]. unfold previousDay.
  destruct (1 <? day p); [simpl; lia|].
  destruct (1 <? month p); simpl; lia.
Qed.

Lemma resolveDateToken_iso tok tz ds :
  validDate tz -> 100 <= year tz <= 9999 ->
  resolveDateToken (Some tok) tz = Some ds -> isoShape ds.
Proof.
  intros Hv Hy H. unfold resolveDateToken in H.
  destruct (Str.isEmpty tok); [discriminate|].
  destruct (String.eqb tok "today").
  { injection H as <-.
    destruct (validDate_small tz Hv) as (Hm & Hd).
    apply (print_then_parse tz); lia. }
  destruct (String.eqb tok "yesterday").
  { injection H as <-.
    rewrite addDays_yesterday by (try assumption; lia).
    pose proof (previousDay_valid tz Hv) as Hpv.
    pose proof (previousDay_year tz Hv) as Hpy.
    destruct (validDate_small _ Hpv) as (Hm & Hd).
    apply (print_then_parse (previousDay tz)); lia. }
  destruct (parseDateString tok) as [parsed|] eqn:Hp; [|discriminate].
  assert (Hds : ds = datePartsToString (Some parsed)) by congruence.
  destruct (parse_then_print tok parsed Hp) as (Hiso & Heq).
  rewrite Hds, Heq. exact Hiso.
Qed.

(** X25. When the time-zone projection of the instant of the commit is a
    well-formed date with a year of three or four digits, whatever
    resolveDateToken returns for a token (today, yesterday or an explicit
    date) is of the shape YYYY-MM-DD, is not empty, and is read back by
    parseDateString and printed again unchanged; so a recognised line is
    rejected for its date only when resolveDateToken returns null. *)
Theorem resolveDateToken_shape token tz dateString :
  validDate tz -> 100 <= year tz <= 9999 ->
  resolveDateToken token tz = Some dateString ->
  isoShape dateString /\ Str.isEmpty dateString = false
  /\ exists parts, parseDateString dateString = Some parts
                   /\ datePartsToString (Some parts) = dateString.
Proof.
  intros Hv Hy H. destruct token as [tok|]; [|discriminate].
  pose proof (resolveDateToken_iso tok tz dateString Hv Hy H) as Hiso.
  split; [exact Hiso|]. split.
  - destruct Hiso as (y & m & d & -> & _ & _ & _ & Ly & _).
    destruct y; [discriminate Ly | reflexivity].
  - pose proof (proj2 (matchesDateShape_iso dateString) Hiso) as Hs.
    pose proof (resolve_shape dateString tz Hs) as Hr.
    unfold resolveDateToken in Hr.
    destruct (Str.isEmpty dateString); [discriminate|].
    destruct (String.eqb_spec dateString "today") as [->|_]; [discriminate Hs|].
    destruct (String.eqb_spec dateString "yesterday") as [->|_]; [discriminate Hs|].
    destruct (parseDateString dateString) as [parts|]; [|discriminate].
    exists parts. split; [reflexivity|]. congruence.
Qed.

Lemma resolveDateToken_shape_witness :
  isoShape "2026-01-04" /\ Str.isEmpty "2026-01-04" = false
  /\ exists parts, parseDateString "2026-01-04" = Some parts
                   /\ datePartsToString (Some parts) = "2026-01-04".
Proof.
  apply (resolveDateToken_shape (Some "yesterday") (mkDate 2026 1 5) "2026-01-04").
  - split; vm_compute; split; discriminate.
  - simpl. lia.
  - vm_compute. reflexivity.
Defined.



(** ** The watermark *)

Lemma orString_nonempty x y :
  y <> Some "" -> orString x y <> Some "".
Proof.
  intros Hy. unfold orString. destruct x as [s|]; [|exact Hy].
  destruct s; [exact Hy | discriminate].
Qed.

(** X27. The watermark that a completed run of main writes: last_processed is
    HEAD when getHeadSha returns a non-empty sha, otherwise the last_processed
    of the previous state when that is a non-empty string, otherwise null, and
    it is never the empty string; recent_commits are the shas of the recent
    window in the order of the log, or empty when MAX_RECENT_COMMITS is not
    positive. *)
Theorem watermark_written env w w1 s events :
  main env w = Completed w1 s events ->
  exists lp recent,
    stateFile w1 = Some (mkWatermark lp recent)
    /\ lp <> Some ""
    /\ (forall h, envHead env = Some h -> h <> "" -> lp = Some h)
    /\ (envHead env = None \/ envHead env = Some "" ->
        forall old, stateFile w = Some old ->
          (forall p, last_processed old = Some p -> p <> "" -> lp = Some p)
          /\ (last_processed old = None \/ last_processed old = Some "" -> lp = None))
    /\ (envHead env = None \/ envHead env = Some "" -> stateFile w = None -> lp = None)
    /\ (if 0 <? envMaxRecent env
        then exists l, envGitLog env (LogRecent (envMaxRecent env)) = Some l
                       /\ recent = map sha l
        else recent = []).
Proof.
  intros Hm.
  apply main_completed in Hm as (commits & st & recent & _ & _ & Hrec & -> & _).
  set (state := default defaultWatermark (stateFile w)).
  exists (orString (envHead env) (orString (last_processed state) None)), recent.
  split; [reflexivity|]. split.
  { apply orString_nonempty, orString_nonempty. discriminate. }
  split.
  { intros h Hh Hne. rewrite Hh. simpl. destruct h; [contradiction | reflexivity]. }
  split.
  { intros Hhead old Hold. subst state. rewrite Hold. simpl.
    assert (Hx : forall y, orString (envHead env) y = y).
    { intros y. destruct Hhead as [-> | ->]; reflexivity. }
    rewrite Hx. split.
    - intros p Hp Hne. rewrite Hp. simpl. destruct p; [contradiction | reflexivity].
    - intros [-> | ->]; reflexivity. }
  split.
  { intros Hhead Hnone. subst state. rewrite Hnone. simpl.
    destruct Hhead as [-> | ->]; reflexivity. }
  unfold recentForState in Hrec.
  destruct (0 <? envMaxRecent env).
  - destruct (envGitLog env (LogRecent (envMaxRecent env))) as [l|]; [|discriminate].
    exists l. split; [reflexivity|]. simpl in Hrec. congruence.
  - congruence.
Qed.

Lemma watermark_written_witness :
  match main (sampleEnv classifyDown false) emptyWorld with
  | Completed w1 _ _ =>
      exists lp recent,
        stateFile w1 = Some (mkWatermark lp recent)
        /\ lp <> Some ""
        /\ (forall h, envHead (sampleEnv classifyDown false) = Some h -> h <> "" ->
                      lp = Some h)
        /\ (envHead (sampleEnv classifyDown false) = None
            \/ envHead (sampleEnv classifyDown false) = Some "" ->
            forall old, stateFile emptyWorld = Some old ->
              (forall p, last_processed old = Some p -> p <> "" -> lp = Some p)
              /\ (last_processed old = None \/ last_processed old = Some "" -> lp = None))
        /\ (envHead (sampleEnv classifyDown false) = None
            \/ envHead (sampleEnv classifyDown false) = Some "" ->
            stateFile emptyWorld = None -> lp = None)
        /\ (if 0 <? envMaxRecent (sampleEnv classifyDown false)
            then exists l,
                   envGitLog (sampleEnv classifyDown false)
                     (LogRecent (envMaxRecent (sampleEnv classifyDown false))) = Some l
                   /\ recent = map sha l
            else recent = [])
  | Crashed _ => False
  end.
Proof.
  destruct (main (sampleEnv classifyDown false) emptyWorld) as [w1 s events|w] eqn:E.
  - exact (watermark_written _ _ _ _ _ E).
  - vm_compute in E. discriminate E.
Defined.

(** ** Reading the log *)

Lemma splitGo_free sep s : forall cur rest,
  everyChar (fun c => negb (Ascii.eqb c sep)) s = true ->
  Str.splitGo sep cur (s +:+ rest) = Str.splitGo sep (String.rev_app s cur) rest.
Proof.
  induction s as [|c s IH]; intros cur rest H; [reflexivity|].
  simpl in H. apply andb_prop in H as [Hc Hs].
  rewrite append_cons. simpl.
  destruct (Ascii.eqb c sep); [discriminate Hc|]. apply IH. exact Hs.
Qed.

Lemma rev_app_rev s cur : String.rev (String.rev_app s cur) = String.rev cur +:+ s.
Proof.
  revert cur. induction s as [|c s IH]; intros cur; simpl.
  - symmetry. apply append_nil_r.
  - rewrite IH, rev_cons, append_assoc. reflexivity.
Qed.

(** A text without the separator, followed by the separator. *)
Lemma split_piece sep s rest :
  everyChar (fun c => negb (Ascii.eqb c sep)) s = true ->
  Str.split sep (s +:+ String sep rest) = s :: Str.split sep rest.
Proof.
  intros H. unfold Str.split. rewrite (splitGo_free sep s "" _ H). simpl.
  rewrite Ascii.eqb_refl. f_equal.
  change (String.rev (String.rev_app s "") = s).
  rewrite rev_app_rev. reflexivity.
Qed.

Lemma split_last sep s :
  everyChar (fun c => negb (Ascii.eqb c sep)) s = true ->
  Str.split sep s = [s].
Proof.
  intros H. unfold Str.split.
  rewrite <- (append_nil_r s) at 1. rewrite (splitGo_free sep s "" _ H). simpl.
  f_equal. change (String.rev (String.rev_app s "") = s).
  rewrite rev_app_rev. reflexivity.
Qed.

Lemma splitGo_pieces p sep s : forall cur,
  everyChar p s = true -> everyChar p cur = true ->
  Forall (fun piece => everyChar p piece = true
                       /\ everyChar (fun c => negb (Ascii.eqb c sep)) piece = true)
         (Str.splitGo sep cur s)
  \/ everyChar (fun c => negb (Ascii.eqb c sep)) cur = false.
Proof.
  induction s as [|c s IH]; intros cur Hs Hcur; simpl.
  - destruct (everyChar (fun c => negb (Ascii.eqb c sep)) cur) eqn:E; [|right; reflexivity].
    left. constructor; [|constructor]. rewrite !everyChar_rev. auto.
  - simpl in Hs. apply andb_prop in Hs as [Hc Hs].
    destruct (everyChar (fun c => negb (Ascii.eqb c sep)) cur) eqn:E; [|right; reflexivity].
    left. destruct (Ascii.eqb c sep) eqn:Hsep.
    + constructor; [rewrite !everyChar_rev; auto|].
      destruct (IH "" Hs eq_refl) as [H|H]; [exact H | discriminate H].
    + destruct (IH (String c cur) Hs) as [H|H]; [simpl; rewrite Hc, Hcur; reflexivity | exact H |].
      simpl in H. rewrite Hsep, E in H. discriminate H.
Qed.

Lemma split_pieces p sep s :
  everyChar p s = true ->
  Forall (fun piece => everyChar p piece = true
                       /\ everyChar (fun c => negb (Ascii.eqb c sep)) piece = true)
         (Str.split sep s).
Proof.
  intros H. destruct (splitGo_pieces p sep s "" H eq_refl) as [Hf|Hf];
    [exact Hf | discriminate Hf].
Qed.

Lemma everyChar_true s : everyChar (fun _ => true) s = true.
Proof. induction s as [|c s IH]; [reflexivity | exact IH]. Qed.

Lemma noSeparator_split c :
  noSeparator c = negb (Ascii.eqb c recordSep) && negb (Ascii.eqb c unitSep).
Proof. unfold noSeparator. apply andb_comm. Qed.

Lemma everyChar_and p q s :
  everyChar (fun c => p c && q c) s = everyChar p s && everyChar q s.
Proof.
  induction s as [|c s IH]; [reflexivity|]. simpl. rewrite IH.
  destruct (p c), (q c), (everyChar p s), (everyChar q s); reflexivity.
Qed.

Lemma everyChar_ext p q s : (forall c, p c = q c) -> everyChar p s = everyChar q s.
Proof.
  intros H. induction s as [|c s IH]; [reflexivity|]. simpl. rewrite H, IH. reflexivity.
Qed.

(** X28. For any output of git log, no field of an entry that parseCommitLog
    returns holds a record separator (x1e) or a unit separator (x1f), and no
    entry is made from an empty chunk: its sha is not empty or its dateStr is
    defined. *)
Theorem parseCommitLog_fields output entry :
  In entry (parseLogOutput output) ->
  everyChar noSeparator (leSha entry) = true
  /\ everyChar noSeparator (leBody entry) = true
  /\ (forall d, leDate entry = Some d -> everyChar noSeparator d = true)
  /\ (leSha entry <> "" \/ leDate entry <> None).
Proof.
  unfold parseLogOutput. intros H.
  apply in_map_iff in H as (chunk & <- & H).
  apply filter_In in H as (H & Hne).
  apply in_map_iff in H as (raw & <- & Hraw).
  pose proof (split_pieces (fun _ => true) recordSep output (everyChar_true _)) as Hp.
  rewrite List.Forall_forall in Hp. destruct (Hp raw Hraw) as (_ & Hrec).
  apply (everyChar_trim _ raw) in Hrec.
  set (chunk := Str.trim raw) in *.
  pose proof (split_pieces _ unitSep chunk Hrec) as Hu.
  pose proof (join_split unitSep chunk) as Hj.
  assert (Hfree : forall piece,
             everyChar (fun c => negb (Ascii.eqb c recordSep)) piece = true
             /\ everyChar (fun c => negb (Ascii.eqb c unitSep)) piece = true ->
             everyChar noSeparator piece = true).
  { intros piece (H1 & H2).
    rewrite (everyChar_ext _ _ _ noSeparator_split), everyChar_and, H1, H2. reflexivity. }
  unfold parseChunk.
  destruct (Str.split unitSep chunk) as [|s rest] eqn:E.
  { exfalso. eapply split_nonempty; eauto. }
  inversion Hu as [|? ? Hs Hrest]; subst. simpl.
  split; [apply Hfree; exact Hs|]. split.
  { destruct rest as [|d [|b rest]]; try reflexivity.
    inversion Hrest as [|? ? _ Hrest']; subst.
    inversion Hrest' as [|? ? Hb _]; subst. apply Hfree. exact Hb. }
  split.
  { intros d Hd. destruct rest as [|d' rest]; [discriminate|].
    injection Hd as <-. inversion Hrest as [|? ? Hd' _]; subst. apply Hfree. exact Hd'. }
  destruct rest as [|d rest]; [|right; discriminate].
  left. simpl in Hj. intros ->. rewrite <- Hj in Hne. discriminate Hne.
Qed.

Lemma parseCommitLog_fields_witness :
  let entry := mkLogEntry "abc123" (Some "2026-01-05T10:00:00+09:00") "time: today 1h" in
  everyChar noSeparator (leSha entry) = true
  /\ everyChar noSeparator (leBody entry) = true
  /\ (forall d, leDate entry = Some d -> everyChar noSeparator d = true)
  /\ (leSha entry <> "" \/ leDate entry <> None).
Proof.
  apply (parseCommitLog_fields
           (formatLog [mkCommit "abc123" "2026-01-05T10:00:00+09:00"
                                ("time: today 1h" +:+ newline)])).
  vm_compute. left. reflexivity.
Defined.

Lemma rev_append a b : String.rev (a +:+ b) = String.rev b +:+ String.rev a.
Proof.
  induction a as [|x a IH].
  - rewrite append_nil. symmetry. apply append_nil_r.
  - rewrite append_cons, !rev_cons, IH, append_assoc. reflexivity.
Qed.

Lemma dropWhile_all p lead s :
  everyChar p lead = true -> Str.dropWhile p (lead +:+ s) = Str.dropWhile p s.
Proof.
  induction lead as [|c lead IH]; [reflexivity|]. intros H. simpl in H.
  apply andb_prop in H as [Hc Hl]. rewrite append_cons. simpl. rewrite Hc. auto.
Qed.

Lemma dropWhile_stop p a c b :
  p c = false ->
  Str.dropWhile p (a +:+ String c b) = Str.dropWhile p a +:+ String c b.
Proof.
  intros Hc. induction a as [|x a IH].
  - rewrite !append_nil. simpl. rewrite Hc. reflexivity.
  - rewrite append_cons. simpl. destruct (p x); [exact IH|].
    rewrite append_cons. reflexivity.
Qed.

Lemma trimEnd_after a c b :
  Str.isSpace c = false ->
  Str.trimEnd (a +:+ String c b) = a +:+ String c (Str.trimEnd b).
Proof.
  intros Hc. unfold Str.trimEnd.
  rewrite rev_append, rev_cons, append_assoc.
  change (String c "" +:+ String.rev a) with (String c (String.rev a)).
  rewrite (dropWhile_stop _ _ c _ Hc).
  rewrite rev_append, rev_cons, rev_involutive, append_assoc. reflexivity.
Qed.

Lemma everyChar_trimEnd p s : everyChar p s = true -> everyChar p (Str.trimEnd s) = true.
Proof.
  intros H. unfold Str.trimEnd. rewrite everyChar_rev.
  apply everyChar_dropWhile. rewrite everyChar_rev. exact H.
Qed.

Lemma noSeparator_unit s :
  everyChar noSeparator s = true ->
  everyChar (fun c => negb (Ascii.eqb c unitSep)) s = true.
Proof. apply everyChar_impl. intros c H. apply andb_prop in H as [H _]. exact H. Qed.

Lemma noSeparator_record s :
  everyChar noSeparator s = true ->
  everyChar (fun c => negb (Ascii.eqb c recordSep)) s = true.
Proof. apply everyChar_impl. intros c H. apply andb_prop in H as [_ H]. exact H. Qed.

(** One record, after the white space before it is trimmed away. *)
Lemma trim_chunk lead c :
  everyChar Str.isSpace lead = true -> plainCommit c ->
  Str.trim (lead +:+ chunkText c)
  = sha c +:+ String unitSep (dateStr c +:+ String unitSep (Str.trimEnd (body c))).
Proof.
  intros Hlead (_ & _ & _ & Hsha). unfold Str.trim, Str.trimStart, chunkText.
  rewrite (dropWhile_all _ _ _ Hlead).
  assert (Hstart : forall rest,
             Str.dropWhile Str.isSpace (sha c +:+ rest) = sha c +:+ rest).
  { intros rest. destruct (sha c) as [|a s]; [contradiction|].
    rewrite append_cons. simpl. rewrite Hsha. reflexivity. }
  rewrite Hstart.
  rewrite (trimEnd_after (sha c) unitSep _ eq_refl).
  rewrite (trimEnd_after (dateStr c) unitSep _ eq_refl). reflexivity.
Qed.

Lemma parseChunk_record s d b :
  everyChar noSeparator s = true -> everyChar noSeparator d = true ->
  everyChar noSeparator b = true ->
  parseChunk (s +:+ String unitSep (d +:+ String unitSep b)) = mkLogEntry s (Some d) b.
Proof.
  intros Hs Hd Hb. unfold parseChunk.
  rewrite (split_piece unitSep s _ (noSeparator_unit _ Hs)).
  rewrite (split_piece unitSep d _ (noSeparator_unit _ Hd)).
  rewrite (split_last unitSep b (noSeparator_unit _ Hb)). reflexivity.
Qed.

Lemma chunkText_free lead c :
  everyChar Str.isSpace lead = true -> plainCommit c ->
  everyChar (fun x => negb (Ascii.eqb x recordSep)) (lead +:+ chunkText c) = true.
Proof.
  intros Hlead (Hs & Hd & Hb & _). unfold chunkText.
  rewrite !everyChar_app. simpl. rewrite !everyChar_app. simpl.
  rewrite (noSeparator_record _ Hs), (noSeparator_record _ Hd), (noSeparator_record _ Hb).
  rewrite andb_true_r. simpl.
  eapply everyChar_impl; [|exact Hlead].
  intros x Hx. destruct x as [[] [] [] [] [] [] [] []]; try discriminate Hx; reflexivity.
Qed.

Lemma append_cons_assoc a c b x : (a +:+ String c b) +:+ x = a +:+ String c (b +:+ x).
Proof. rewrite append_assoc, append_cons. reflexivity. Qed.

Lemma formatRecord_then c x :
  formatRecord c +:+ x = chunkText c +:+ String recordSep x.
Proof.
  unfold formatRecord, chunkText. rewrite !append_cons_assoc, append_nil. reflexivity.
Qed.

Lemma formatLog_cons c cs :
  formatLog (c :: cs) = chunkText c +:+ String recordSep (tailText cs).
Proof.
  unfold formatLog, tailText. simpl map. destruct cs as [|c' cs].
  - simpl Str.join. rewrite <- (append_nil_r (formatRecord c)).
    apply formatRecord_then.
  - change (Str.join newline (formatRecord c :: map formatRecord (c' :: cs)))
      with (formatRecord c +:+ newline +:+ Str.join newline (map formatRecord (c' :: cs))).
    apply formatRecord_then.
Qed.

(** The chunks of a log, record by record. *)
Lemma parse_chunks cs : forall lead,
  everyChar Str.isSpace lead = true -> Forall plainCommit cs ->
  map parseChunk
    (List.filter (fun chunk => negb (Str.isEmpty chunk))
       (map Str.trim
          (Str.split recordSep
             (match cs with [] => EmptyString | _ => lead +:+ formatLog cs end))))
  = map (fun c => mkLogEntry (sha c) (Some (dateStr c)) (Str.trimEnd (body c))) cs.
Proof.
  induction cs as [|c cs IH]; intros lead Hlead Hall; [reflexivity|].
  inversion Hall as [|? ? Hc Hrest]; subst.
  rewrite formatLog_cons, <- append_assoc.
  rewrite (split_piece recordSep _ _ (chunkText_free lead c Hlead Hc)).
  simpl map. rewrite (trim_chunk lead c Hlead Hc).
  assert (Hne : Str.isEmpty (sha c +:+ String unitSep
                               (dateStr c +:+ String unitSep (Str.trimEnd (body c))))
                = false).
  { destruct Hc as (_ & _ & _ & Hsha). destruct (sha c); [contradiction | reflexivity]. }
  simpl List.filter. rewrite Hne. simpl negb. cbv iota. simpl map.
  destruct Hc as (Hs & Hd & Hb & Hsha).
  rewrite (parseChunk_record _ _ _ Hs Hd (everyChar_trimEnd _ _ Hb)).
  f_equal. specialize (IH newline eq_refl Hrest).
  unfold tailText. destruct cs; exact IH.
Qed.

(** X29. parseCommitLog reads back what the log format prints: for commits
    whose sha is not empty and does not start with white space and whose sha,
    date and message hold no separator character, the text of the format
    %H%x1f%aI%x1f%B%x1e (one record per commit, a line feed between records)
    is parsed into one entry per commit, in order, with the sha and the date
    of the commit and its message without trailing white space. *)
Theorem parseCommitLog_round_trip commits :
  Forall plainCommit commits ->
  parseLogOutput (formatLog commits)
  = map (fun c => mkLogEntry (sha c) (Some (dateStr c)) (Str.trimEnd (body c))) commits.
Proof.
  intros Hall. unfold parseLogOutput.
  pose proof (parse_chunks commits "" eq_refl Hall) as H.
  destruct commits; [reflexivity|]. rewrite append_nil in H. exact H.
Qed.

Lemma parseCommitLog_round_trip_witness :
  parseLogOutput (formatLog [sampleCommit; sampleCommit])
  = map (fun c => mkLogEntry (sha c) (Some (dateStr c)) (Str.trimEnd (body c)))
        [sampleCommit; sampleCommit].
Proof.
  apply (parseCommitLog_round_trip [sampleCommit; sampleCommit]).
  repeat constructor.
Defined.
